(** * vibe-car-game: the per-frame update routines, embedded and verified

    The repository holds three browser demos:
    - [simple-js/game.js]: the plain driving model ([SimpleJS]);
    - [nextjs-car-game/app/components/CarGame.tsx]: the hover tank ([CarGame]);
    - [witcher-game/src/components/game/{Game,Enemy,Player}.tsx]: the action
      game ([Witcher]).

    A JavaScript [number] is modelled by a real number of [R]: the update
    routines are read as exact real arithmetic, [Math.pow], [Math.sin],
    [Math.sqrt] and [Math.atan2] being the real functions they approximate.
    [Date.now()] is an integer count of milliseconds and is modelled in [Z].
    React state ([useState]) and refs ([useRef]) are passed explicitly. *)

From Stdlib Require Import Reals Lra Lia ZArith Bool List String Ascii Sorted.
From Stdlib Require Import DecimalString.
Import ListNotations.
Open Scope R_scope.

(** ** The [Math] object *)

Module Math.

Definition max (a b : R) : R := Rmax a b.
Definition min (a b : R) : R := Rmin a b.
Definition abs (a : R) : R := Rabs a.
Definition sin (a : R) : R := Rtrigo_def.sin a.
Definition cos (a : R) : R := Rtrigo_def.cos a.
Definition sqrt (a : R) : R := R_sqrt.sqrt a.
Definition PI : R := Rtrigo1.PI.

(** [Math.sign]: 1, -1 or 0. *)
Definition sign (a : R) : R :=
  if Rgt_dec a 0 then 1 else if Rlt_dec a 0 then -1 else 0.

(** [Math.pow] for a positive base, the only way the code calls it
    ([carData.friction] is 0.99). *)
Definition pow (a b : R) : R := Rpower a b.

(** [Math.floor] and [Math.ceil], as integers. *)
Definition floorZ (a : R) : Z := Int_part a.
Definition ceilZ (a : R) : Z := (- Int_part (- a))%Z.
Definition floor (a : R) : R := IZR (floorZ a).
Definition ceil (a : R) : R := IZR (ceilZ a).

(** [Math.atan2 b a]: the angle of the point (a, b). *)
Definition atan2 (b a : R) : R :=
  if Rgt_dec a 0 then atan (b / a)
  else if Rlt_dec a 0 then
    (if Rge_dec b 0 then atan (b / a) + PI else atan (b / a) - PI)
  else if Rgt_dec b 0 then PI / 2
  else if Rlt_dec b 0 then - (PI / 2)
  else 0.

(** The remainder operator [a % b] on numbers: the result has the sign of
    the dividend (the quotient is truncated toward zero). *)
Definition truncZ (a : R) : Z :=
  if Rge_dec a 0 then floorZ a else ceilZ a.
Definition rem (a b : R) : R := a - b * IZR (truncZ (a / b)).

End Math.

(** ** The part of three.js the update routines use *)

Module THREE.

Record Vector3 : Type := Vec3 { x : R; y : R; z : R }.

Definition add (a b : Vector3) : Vector3 :=
  Vec3 (x a + x b) (y a + y b) (z a + z b).
Definition sub (a b : Vector3) : Vector3 :=
  Vec3 (x a - x b) (y a - y b) (z a - z b).
Definition subVectors (a b : Vector3) : Vector3 := sub a b.
Definition multiplyScalar (a : Vector3) (s : R) : Vector3 :=
  Vec3 (x a * s) (y a * s) (z a * s).
Definition divideScalar (a : Vector3) (s : R) : Vector3 :=
  multiplyScalar a (1 / s).
Definition dot (a b : Vector3) : R := x a * x b + y a * y b + z a * z b.
Definition length (a : Vector3) : R :=
  Math.sqrt (x a * x a + y a * y a + z a * z a).
(** [normalize] divides by [this.length() || 1]. *)
Definition normalize (a : Vector3) : Vector3 :=
  divideScalar a (if Req_dec_T (length a) 0 then 1 else length a).
Definition distanceTo (a b : Vector3) : R :=
  Math.sqrt ((x a - x b) * (x a - x b) + (y a - y b) * (y a - y b)
             + (z a - z b) * (z a - z b)).

(** [v.applyAxisAngle(new Vector3(0, 1, 0), angle)]: the rotation of [v]
    about the vertical axis. *)
Definition applyAxisAngleY (v : Vector3) (angle : R) : Vector3 :=
  Vec3 (x v * Math.cos angle + z v * Math.sin angle)
       (y v)
       (z v * Math.cos angle - x v * Math.sin angle).

(** An [Object3D] (a [Group]) as far as the games touch it: its position
    and its rotation about the vertical axis. *)
Record Object3D : Type := Obj { position : Vector3; rotation_y : R }.

Definition set_position (o : Object3D) (p : Vector3) : Object3D :=
  Obj p (rotation_y o).
Definition set_rotation_y (o : Object3D) (r : R) : Object3D :=
  Obj (position o) r.
Definition set_y (v : Vector3) (h : R) : Vector3 := Vec3 (x v) h (z v).

End THREE.

(** ** The hover tank: [CarGame.tsx] *)

Module CarGame.

Record CarData : Type := mkCarData {
  speed : R;
  maxSpeed : R;
  acceleration : R;
  deceleration : R;
  turnSpeed : R;
  friction : R;
  brakeStrength : R;
  velocity : THREE.Vector3;
  direction : THREE.Vector3;
  position : THREE.Vector3;
  steeringAngle : R;
  maxSteeringAngle : R;
  steeringSpeed : R;
  steeringReturn : R;
  canShoot : bool;
  reloadTime : Z;
  lastShotTime : Z
}.

Record Controls : Type := mkControls {
  forward : bool;
  backward : bool;
  left : bool;
  right : bool;
  shoot : bool
}.

(** The initial values of [carDataRef] and [controlsRef]. *)
Definition carData0 : CarData :=
  {| speed := 0; maxSpeed := 0.4; acceleration := 0.008;
     deceleration := 0.005; turnSpeed := 0.03; friction := 0.99;
     brakeStrength := 0.12;
     velocity := THREE.Vec3 0 0 0;
     direction := THREE.Vec3 0 0 1;
     position := THREE.Vec3 0 0.5 0;
     steeringAngle := 0; maxSteeringAngle := 0.05;
     steeringSpeed := 0.003; steeringReturn := 0.02;
     canShoot := true; reloadTime := 1000; lastShotTime := 0 |}.

Definition controls0 : Controls :=
  {| forward := false; backward := false; left := false; right := false;
     shoot := false |}.

(** The car placed by [createCar]: [car.position.set(0, 0.8, 0)]. *)
Definition car0 : THREE.Object3D := THREE.Obj (THREE.Vec3 0 0.8 0) 0.

(** The fields [updateCar] assigns. *)
Definition set_speed (c : CarData) (s : R) : CarData :=
  mkCarData s (maxSpeed c) (acceleration c) (deceleration c) (turnSpeed c)
    (friction c) (brakeStrength c) (velocity c) (direction c) (position c)
    (steeringAngle c) (maxSteeringAngle c) (steeringSpeed c)
    (steeringReturn c) (canShoot c) (reloadTime c) (lastShotTime c).
Definition set_steeringAngle (c : CarData) (a : R) : CarData :=
  mkCarData (speed c) (maxSpeed c) (acceleration c) (deceleration c)
    (turnSpeed c) (friction c) (brakeStrength c) (velocity c) (direction c)
    (position c) a (maxSteeringAngle c) (steeringSpeed c)
    (steeringReturn c) (canShoot c) (reloadTime c) (lastShotTime c).
Definition set_direction (c : CarData) (d : THREE.Vector3) : CarData :=
  mkCarData (speed c) (maxSpeed c) (acceleration c) (deceleration c)
    (turnSpeed c) (friction c) (brakeStrength c) (velocity c) d
    (position c) (steeringAngle c) (maxSteeringAngle c) (steeringSpeed c)
    (steeringReturn c) (canShoot c) (reloadTime c) (lastShotTime c).

(** The refs the frame callback reads and writes. *)
Record Refs : Type := mkRefs {
  carRef : option THREE.Object3D;
  carDataRef : CarData;
  controlsRef : Controls
}.

(** [animate]: the elapsed time since the previous frame, in seconds, and
    its cap. *)
Definition frameDelta (lastTime time : R) : R :=
  if Req_dec_T lastTime 0 then 0.016 else (time - lastTime) / 1000.
Definition cappedDelta (delta : R) : R := Math.min delta 0.1.

(** The speed part of [updateCar], statement by statement. *)
Definition applyAcceleration (controls : Controls) (scaledAcceleration s : R)
  : R :=
  if forward controls then s + scaledAcceleration else s.

Definition applyBraking (controls : Controls)
    (scaledAcceleration scaledBrakeStrength s : R) : R :=
  if backward controls then
    if Rgt_dec s 0 then s - scaledBrakeStrength
    else s - scaledAcceleration * 0.5
  else s.

Definition applyFriction (carData : CarData) (delta s : R) : R :=
  s * Math.pow (friction carData) (delta * 60).

Definition clampSpeed (carData : CarData) (s : R) : R :=
  Math.max (Math.min s (maxSpeed carData)) (- maxSpeed carData * 0.5).

(** The steering part. *)
Definition applySteering (controls : Controls)
    (scaledSteeringSpeed scaledSteeringReturn a : R) : R :=
  if left controls then a + scaledSteeringSpeed
  else if right controls then a - scaledSteeringSpeed
  else if Rgt_dec a 0 then Math.max 0 (a - scaledSteeringReturn)
  else if Rlt_dec a 0 then Math.min 0 (a + scaledSteeringReturn)
  else a.

Definition clampSteering (carData : CarData) (a : R) : R :=
  Math.max (Math.min a (maxSteeringAngle carData))
           (- maxSteeringAngle carData).

(** [updateCar(delta)], run when [Date.now()] is [now]. *)
Definition updateCar (now : Z) (delta : R) (r : Refs) : Refs :=
  match carRef r with
  | None => r
  | Some car =>
    let carData := carDataRef r in
    let controls := controlsRef r in
    let scaledAcceleration := acceleration carData * delta * 60 in
    let scaledBrakeStrength := brakeStrength carData * delta * 60 in
    let scaledSteeringSpeed := steeringSpeed carData * delta * 60 in
    let scaledSteeringReturn := steeringReturn carData * delta * 60 in
    let speed1 := applyAcceleration controls scaledAcceleration
                    (speed carData) in
    let speed2 := applyBraking controls scaledAcceleration
                    scaledBrakeStrength speed1 in
    let speed3 := applyFriction carData delta speed2 in
    let carData := set_speed carData (clampSpeed carData speed3) in
    let angle1 := applySteering controls scaledSteeringSpeed
                    scaledSteeringReturn (steeringAngle carData) in
    let carData := set_steeringAngle carData (clampSteering carData angle1) in
    let turnEffect :=
      steeringAngle carData * Math.abs (speed carData) / maxSpeed carData in
    let car := THREE.set_rotation_y car
                 (THREE.rotation_y car
                  + turnEffect * Math.sign (speed carData)) in
    let carData := set_direction carData
                     (THREE.applyAxisAngleY (THREE.Vec3 0 0 1)
                        (THREE.rotation_y car)) in
    let movement := THREE.multiplyScalar (direction carData)
                      (speed carData) in
    let car := THREE.set_position car
                 (THREE.add (THREE.position car) movement) in
    let hoverHeight := 0.8 + Math.sin (IZR now * 0.003) * 0.1 in
    let car := THREE.set_position car
                 (THREE.set_y (THREE.position car) hoverHeight) in
    mkRefs (Some car) carData controls
  end.

(** Frames in a row at one elapsed time, each with its clock reading. The
    control flags change between frames only through the key handlers. *)
Fixpoint frames (nows : list Z) (delta : R) (r : Refs) : Refs :=
  match nows with
  | [] => r
  | now :: rest => frames rest delta (updateCar now delta r)
  end.

End CarGame.

(** ** The plain driving model: [simple-js/game.js] *)

Module SimpleJS.

Record CarData : Type := mkCarData {
  speed : R;
  maxSpeed : R;
  acceleration : R;
  deceleration : R;
  turnSpeed : R;
  friction : R;
  brakeStrength : R;
  velocity : THREE.Vector3;
  direction : THREE.Vector3;
  position : THREE.Vector3
}.

Record Controls : Type := mkControls {
  forward : bool;
  backward : bool;
  left : bool;
  right : bool
}.

Definition carData0 : CarData :=
  {| speed := 0; maxSpeed := 0.3; acceleration := 0.005;
     deceleration := 0.003; turnSpeed := 0.03; friction := 0.95;
     brakeStrength := 0.1;
     velocity := THREE.Vec3 0 0 0;
     direction := THREE.Vec3 0 0 1;
     position := THREE.Vec3 0 0.5 0 |}.

Definition controls0 : Controls :=
  {| forward := false; backward := false; left := false; right := false |}.

Definition set_speed (c : CarData) (s : R) : CarData :=
  mkCarData s (maxSpeed c) (acceleration c) (deceleration c) (turnSpeed c)
    (friction c) (brakeStrength c) (velocity c) (direction c) (position c).
Definition set_direction (c : CarData) (d : THREE.Vector3) : CarData :=
  mkCarData (speed c) (maxSpeed c) (acceleration c) (deceleration c)
    (turnSpeed c) (friction c) (brakeStrength c) (velocity c) d (position c).

(** The module-level variables [updateCar] touches; of the camera, its
    position. *)
Record Globals : Type := mkGlobals {
  car : THREE.Object3D;
  carData : CarData;
  controls : Controls;
  camera_position : THREE.Vector3
}.

(** After [init]: [car.position.set(0, 0, 0)], [camera.position.set(0, 5, -10)]. *)
Definition globals0 : Globals :=
  mkGlobals (THREE.Obj (THREE.Vec3 0 0 0) 0) carData0 controls0
            (THREE.Vec3 0 5 (-10)).

(** "Apply acceleration/braking". *)
Definition applyControls (controls : Controls) (carData : CarData) : R :=
  let s := speed carData in
  if forward controls then s + acceleration carData
  else if backward controls then
    if Rgt_dec s 0 then s - brakeStrength carData
    else s - acceleration carData / 2
  else
    let s1 := if Rgt_dec s 0 then s - deceleration carData
              else if Rlt_dec s 0 then s + deceleration carData
              else s in
    if Rlt_dec (Math.abs s1) (deceleration carData) then 0 else s1.

(** "Apply speed limits". *)
Definition applySpeedLimits (carData : CarData) (s : R) : R :=
  if Rgt_dec s (maxSpeed carData) then maxSpeed carData
  else if Rlt_dec s (- maxSpeed carData / 2) then - maxSpeed carData / 2
  else s.

(** "Apply turning". *)
Definition applyTurning (controls : Controls) (carData : CarData)
    (rotation_y : R) : R :=
  if Rgt_dec (Math.abs (speed carData)) 0.01 then
    let r1 := if left controls
              then rotation_y + turnSpeed carData * Math.sign (speed carData)
              else rotation_y in
    if right controls
    then r1 - turnSpeed carData * Math.sign (speed carData)
    else r1
  else rotation_y.

(** [updateCar()]. *)
Definition updateCar (g : Globals) : Globals :=
  let controls := controls g in
  let carData := carData g in
  let car := car g in
  let carData := set_speed carData (applyControls controls carData) in
  let carData := set_speed carData (applySpeedLimits carData (speed carData)) in
  let car := THREE.set_rotation_y car
               (applyTurning controls carData (THREE.rotation_y car)) in
  let carData := set_direction carData
                   (THREE.applyAxisAngleY (THREE.Vec3 0 0 1)
                      (THREE.rotation_y car)) in
  let p := THREE.position car in
  let p := THREE.Vec3 (THREE.x p + THREE.x (direction carData) * speed carData)
                      (THREE.y p)
                      (THREE.z p) in
  let p := THREE.Vec3 (THREE.x p)
                      (THREE.y p)
                      (THREE.z p + THREE.z (direction carData) * speed carData) in
  let p := THREE.set_y p 0 in
  let car := THREE.set_position car p in
  let cameraOffset := THREE.Vec3 (- THREE.x (direction carData) * 10) 5
                                 (- THREE.z (direction carData) * 10) in
  mkGlobals car carData controls (THREE.add (THREE.position car) cameraOffset).

End SimpleJS.

(** ** The action game: [types/game.ts] *)

(** Comparisons of numbers used as conditions. *)
Module Num.
Definition leb (a b : R) : bool := if Rle_dec a b then true else false.
Definition ltb (a b : R) : bool := if Rlt_dec a b then true else false.
Definition gtb (a b : R) : bool := if Rgt_dec a b then true else false.
Definition eqb (a b : R) : bool := if Req_dec_T a b then true else false.
End Num.

Module GameTypes.

(** A [[number, number, number]] tuple, and [new THREE.Vector3(...t)]. *)
Definition Triple : Type := (R * R * R)%type.
Definition Vector3_of (t : Triple) : THREE.Vector3 :=
  let '(a, b, c) := t in THREE.Vec3 a b c.
Definition Triple_of (v : THREE.Vector3) : Triple :=
  (THREE.x v, THREE.y v, THREE.z v).

Record GameState : Type := mkGameState {
  isGameActive : bool;
  playerHealth : R;
  score : R
}.

Record GameControls : Type := mkGameControls {
  moveForward : bool;
  moveBackward : bool;
  moveLeft : bool;
  moveRight : bool;
  attack : bool;
  block : bool
}.

(** ["wolf" | "bear" | "deer"] *)
Inductive EnemyKind : Type := wolf | bear | deer.

Definition EnemyKind_eqb (a b : EnemyKind) : bool :=
  match a, b with
  | wolf, wolf | bear, bear | deer, deer => true
  | _, _ => false
  end.

End GameTypes.

(** ["idle" | "chase" | "attack" | "flee"] *)
Module Aggro.
Inductive State : Type := idle | chase | attack | flee.
Definition eqb (a b : State) : bool :=
  match a, b with
  | idle, idle | chase, chase | attack, attack | flee, flee => true
  | _, _ => false
  end.
End Aggro.

(** [interface Enemy extends Character] *)
Module EnemyType.
Import GameTypes.

Record t : Type := mk {
  id : string;
  position : Triple;
  rotation : Triple;
  health : R;
  maxHealth : R;
  isAttacking : bool;
  isBlocking : bool;
  isDead : bool;
  type : EnemyKind;
  detectionRadius : R;
  attackRadius : R;
  attackPower : R;
  aggroState : Aggro.State
}.

(** The spreads [{ ...prev, field: v }] of the component. *)
Definition with_position_rotation (prev : t) (p r : Triple) : t :=
  mk (id prev) p r (health prev) (maxHealth prev) (isAttacking prev)
     (isBlocking prev) (isDead prev) (type prev) (detectionRadius prev)
     (attackRadius prev) (attackPower prev) (aggroState prev).
Definition with_aggroState (prev : t) (a : Aggro.State) : t :=
  mk (id prev) (position prev) (rotation prev) (health prev) (maxHealth prev)
     (isAttacking prev) (isBlocking prev) (isDead prev) (type prev)
     (detectionRadius prev) (attackRadius prev) (attackPower prev) a.
Definition with_isAttacking (prev : t) (b : bool) : t :=
  mk (id prev) (position prev) (rotation prev) (health prev) (maxHealth prev)
     b (isBlocking prev) (isDead prev) (type prev) (detectionRadius prev)
     (attackRadius prev) (attackPower prev) (aggroState prev).
Definition with_health_isDead (prev : t) (h : R) (d : bool) : t :=
  mk (id prev) (position prev) (rotation prev) h (maxHealth prev)
     (isAttacking prev) (isBlocking prev) d (type prev)
     (detectionRadius prev) (attackRadius prev) (attackPower prev)
     (aggroState prev).

End EnemyType.

(** [interface Player extends Character] *)
Module PlayerType.
Import GameTypes.

Record t : Type := mk {
  id : string;
  position : Triple;
  rotation : Triple;
  health : R;
  maxHealth : R;
  isAttacking : bool;
  isBlocking : bool;
  isDead : bool;
  moveSpeed : R;
  attackPower : R;
  isMoving : bool;
  direction : Triple
}.

Definition with_position_isMoving (prev : t) (p : Triple) (m : bool) : t :=
  mk (id prev) p (rotation prev) (health prev) (maxHealth prev)
     (isAttacking prev) (isBlocking prev) (isDead prev) (moveSpeed prev)
     (attackPower prev) m (direction prev).
Definition with_movement (prev : t) (p r : Triple) (m : bool) (d : Triple)
  : t :=
  mk (id prev) p r (health prev) (maxHealth prev) (isAttacking prev)
     (isBlocking prev) (isDead prev) (moveSpeed prev) (attackPower prev)
     m d.
Definition with_isMoving (prev : t) (m : bool) : t :=
  mk (id prev) (position prev) (rotation prev) (health prev) (maxHealth prev)
     (isAttacking prev) (isBlocking prev) (isDead prev) (moveSpeed prev)
     (attackPower prev) m (direction prev).
Definition with_isAttacking (prev : t) (b : bool) : t :=
  mk (id prev) (position prev) (rotation prev) (health prev) (maxHealth prev)
     b (isBlocking prev) (isDead prev) (moveSpeed prev) (attackPower prev)
     (isMoving prev) (direction prev).
Definition with_isBlocking (prev : t) (b : bool) : t :=
  mk (id prev) (position prev) (rotation prev) (health prev) (maxHealth prev)
     (isAttacking prev) b (isDead prev) (moveSpeed prev) (attackPower prev)
     (isMoving prev) (direction prev).

End PlayerType.

(** React's queue of functional updates [setState(prev => ...)]: the next
  state is the updates applied in the order they were queued. *)
Module React.
Definition applyUpdates {S : Type} (us : list (S -> S)) (s : S) : S :=
  fold_left (fun acc u => u acc) us s.
End React.

(** ** The action game: the [Enemy] component of [Game.tsx] *)

Module Enemy.
Import GameTypes.

Record Props : Type := mkProps {
  id : string;
  initialPosition : Triple;
  type : EnemyKind
}.

Record Stats : Type := mkStats {
  stat_health : R;
  stat_maxHealth : R;
  stat_detectionRadius : R;
  stat_attackRadius : R;
  stat_attackPower : R
}.

Definition baseStats (ty : EnemyKind) : Stats :=
  match ty with
  | wolf => mkStats 50 50 15 2 10
  | bear => mkStats 100 100 12 2.5 20
  | deer => mkStats 30 30 18 0 0
  end.

(** The initial value of the [enemy] state. *)
Definition initialState (p : Props) : EnemyType.t :=
  {| EnemyType.id := id p;
     EnemyType.position := initialPosition p;
     EnemyType.rotation := (0, 0, 0);
     EnemyType.health := stat_health (baseStats (type p));
     EnemyType.maxHealth := stat_maxHealth (baseStats (type p));
     EnemyType.isAttacking := false;
     EnemyType.isBlocking := false;
     EnemyType.isDead := false;
     EnemyType.type := type p;
     EnemyType.detectionRadius := stat_detectionRadius (baseStats (type p));
     EnemyType.attackRadius := stat_attackRadius (baseStats (type p));
     EnemyType.attackPower := stat_attackPower (baseStats (type p));
     EnemyType.aggroState := Aggro.idle |}.

Definition attackCooldown : Z := 1000.

Definition Updater : Type := EnemyType.t -> EnemyType.t.

(** [takeDamage(amount)] as defined by a render whose [enemy] state is
    [enemy]: the update it queues with [setEnemy] and the ids it passes to
    [onDeath]. *)
Definition takeDamage (enemy : EnemyType.t) (amount : R)
  : Updater * list string :=
  let newHealth := Math.max 0 (EnemyType.health enemy - amount) in
  let isDead := Num.leb newHealth 0 in
  (fun prev => EnemyType.with_health_isDead prev newHealth isDead,
   if isDead then [EnemyType.id enemy] else []).

(** One mounted component: its props, the [enemy] state of the latest
    render, the [group] ref, the [lastAttackTime] ref and the function
    stored in [group.current.takeDamage]. *)
Record Instance : Type := mkInstance {
  props : Props;
  enemy : EnemyType.t;
  group : option THREE.Object3D;
  lastAttackTime : Z;
  group_takeDamage : option (R -> Updater * list string)
}.

(** Mounting: the first render, the [<group>] placed at [initialPosition],
    then the effect

      useEffect(() => { if (group.current) { ...
                          group.current.takeDamage = takeDamage; } }, [id])

    which stores the [takeDamage] of that first render. Its dependency list
    is [[id]], and [id] is the component's key: the effect does not run
    again on later renders, so the stored function keeps the first
    render's [enemy]. *)
Definition mount (p : Props) : Instance :=
  {| props := p;
     enemy := initialState p;
     group := Some (THREE.Obj (Vector3_of (initialPosition p)) 0);
     lastAttackTime := 0;
     group_takeDamage := Some (takeDamage (initialState p)) |}.

(** A later render with a new [enemy] state: nothing else changes. *)
Definition rerender (c : Instance) (e : EnemyType.t) : Instance :=
  mkInstance (props c) e (group c) (lastAttackTime c) (group_takeDamage c).

Definition moveXZ (g : THREE.Object3D) (direction : THREE.Vector3)
    (speed : R) : THREE.Object3D :=
  let p := THREE.position g in
  THREE.set_position g
    (THREE.Vec3 (THREE.x p + THREE.x direction * speed)
                (THREE.y p)
                (THREE.z p + THREE.z direction * speed)).

(** The [useFrame] callback, run when [Date.now()] is [now]. It returns the
    component after the frame (the queued [setEnemy] updates applied) and
    the arguments of its calls to [onAttackPlayer]. The timer that clears
    [isAttacking] 300 ms after an attack is [attackAnimationEnd]. *)
Definition useFrame (now : Z) (delta : R) (playerPosition : THREE.Vector3)
    (c : Instance) : Instance * list R :=
  match group c with
  | None => (c, [])
  | Some g =>
    let enemy := enemy c in
    if EnemyType.isDead enemy then (c, []) else
    let u_position : Updater := fun prev =>
      EnemyType.with_position_rotation prev
        (Triple_of (THREE.position g)) (0, THREE.rotation_y g, 0) in
    let distanceToPlayer :=
      THREE.distanceTo (Vector3_of (EnemyType.position enemy))
                       playerPosition in
    if Num.leb distanceToPlayer (EnemyType.attackRadius enemy)
       && negb (EnemyKind_eqb (EnemyType.type enemy) deer)
    then
      let u_state : list Updater :=
        if negb (Aggro.eqb (EnemyType.aggroState enemy) Aggro.attack)
        then [fun prev => EnemyType.with_aggroState prev Aggro.attack]
        else [] in
      if (now - lastAttackTime c >? attackCooldown)%Z then
        let us := u_position :: u_state
                  ++ [fun prev => EnemyType.with_isAttacking prev true] in
        (mkInstance (props c) (React.applyUpdates us enemy) (Some g) now
                    (group_takeDamage c),
         [EnemyType.attackPower enemy])
      else
        (mkInstance (props c) (React.applyUpdates (u_position :: u_state) enemy)
                    (Some g) (lastAttackTime c) (group_takeDamage c),
         [])
    else if Num.leb distanceToPlayer (EnemyType.detectionRadius enemy) then
      if EnemyKind_eqb (EnemyType.type enemy) deer then
        let u_state : list Updater :=
          if negb (Aggro.eqb (EnemyType.aggroState enemy) Aggro.flee)
          then [fun prev => EnemyType.with_aggroState prev Aggro.flee]
          else [] in
        let direction :=
          THREE.normalize
            (THREE.sub (Vector3_of (EnemyType.position enemy))
                       playerPosition) in
        let angle := Math.atan2 (THREE.x direction) (THREE.z direction) in
        let g := THREE.set_rotation_y g angle in
        let speed := 0.08 * delta * 60 in
        let g := moveXZ g direction speed in
        (mkInstance (props c) (React.applyUpdates (u_position :: u_state) enemy)
                    (Some g) (lastAttackTime c) (group_takeDamage c),
         [])
      else
        let u_state : list Updater :=
          if negb (Aggro.eqb (EnemyType.aggroState enemy) Aggro.chase)
          then [fun prev => EnemyType.with_aggroState prev Aggro.chase]
          else [] in
        let direction :=
          THREE.normalize
            (THREE.subVectors playerPosition
               (Vector3_of (EnemyType.position enemy))) in
        let angle := Math.atan2 (THREE.x direction) (THREE.z direction) in
        let g := THREE.set_rotation_y g angle in
        let speed := 0.05 * delta * 60 in
        let g := moveXZ g direction speed in
        (mkInstance (props c) (React.applyUpdates (u_position :: u_state) enemy)
                    (Some g) (lastAttackTime c) (group_takeDamage c),
         [])
    else
      let u_state : list Updater :=
        if negb (Aggro.eqb (EnemyType.aggroState enemy) Aggro.idle)
        then [fun prev => EnemyType.with_aggroState prev Aggro.idle]
        else [] in
      (mkInstance (props c) (React.applyUpdates (u_position :: u_state) enemy)
                  (Some g) (lastAttackTime c) (group_takeDamage c),
       [])
  end.

(** The [setTimeout(..., 300)] callback of an attack. *)
Definition attackAnimationEnd (c : Instance) : Instance :=
  rerender c (EnemyType.with_isAttacking (enemy c) false).

(** A call [group.takeDamage(amount)] from outside the component: the
    stored function runs, its [setEnemy] update is rendered, and its
    [onDeath] calls are returned. *)
Definition callTakeDamage (amount : R) (c : Instance)
  : Instance * list string :=
  match group c, group_takeDamage c with
  | Some _, Some f =>
    let '(u, deaths) := f amount in
    (rerender c (u (enemy c)), deaths)
  | _, _ => (c, [])
  end.

(** What happens to a mounted component: a frame (with its clock, elapsed
    time and player position), a call of [group.takeDamage], the timer of
    an attack. *)
Inductive Event : Type :=
| Frame (now : Z) (delta : R) (playerPosition : THREE.Vector3)
| TakeDamage (amount : R)
| AttackAnimationEnd.

(** A run of events: the component after them and, in order, the clock and
    damage of every call to [onAttackPlayer]. *)
Fixpoint run (evs : list Event) (c : Instance) : Instance * list (Z * R) :=
  match evs with
  | [] => (c, [])
  | Frame now delta playerPosition :: rest =>
    let '(c1, attacks) := useFrame now delta playerPosition c in
    let '(c2, later) := run rest c1 in
    (c2, map (fun damage => (now, damage)) attacks ++ later)
  | TakeDamage amount :: rest => run rest (fst (callTakeDamage amount c))
  | AttackAnimationEnd :: rest => run rest (attackAnimationEnd c)
  end.

End Enemy.

(** ** The action game: [Player.tsx] *)

Module Player.
Import GameTypes.

(** The initial value of the [player] state. *)
Definition player0 : PlayerType.t :=
  {| PlayerType.id := "player";
     PlayerType.position := (0, 0, 0);
     PlayerType.rotation := (0, 0, 0);
     PlayerType.health := 100;
     PlayerType.maxHealth := 100;
     PlayerType.isAttacking := false;
     PlayerType.isBlocking := false;
     PlayerType.isDead := false;
     PlayerType.moveSpeed := 0.15;
     PlayerType.attackPower := 20;
     PlayerType.isMoving := false;
     PlayerType.direction := (0, 0, 1) |}.

(** [state.camera] as the callback reads it: its position and the images of
    (0, 0, -1) and (1, 0, 0) under [camera.quaternion]. *)
Record Camera : Type := mkCamera {
  camera_position : THREE.Vector3;
  camera_forward : THREE.Vector3;
  camera_right : THREE.Vector3
}.

(** The component: its state and its refs. *)
Record Instance : Type := mkInstance {
  player : PlayerType.t;
  currentAnimation : string;
  group : option THREE.Object3D;
  cameraTargetPosition : THREE.Vector3;
  cameraLookAt : THREE.Vector3;
  playerPosition : THREE.Vector3;
  playerDirection : THREE.Vector3
}.

Definition mount : Instance :=
  {| player := player0;
     currentAnimation := "idle";
     group := Some (THREE.Obj (THREE.Vec3 0 0 0) 0);
     cameraTargetPosition := THREE.Vec3 0 1.5 (-5);
     cameraLookAt := THREE.Vec3 0 0 0;
     playerPosition := THREE.Vec3 0 0 0;
     playerDirection := THREE.Vec3 0 0 1 |}.

(** What a frame does outside the component: the calls to [updatePosition]
    and [onAttack], and the camera position after [lerp]. *)
Record Effects : Type := mkEffects {
  updatePosition_calls : list THREE.Vector3;
  onAttack_calls : list (THREE.Vector3 * THREE.Vector3);
  camera_after : THREE.Vector3
}.

Definition lerp (a v : THREE.Vector3) (alpha : R) : THREE.Vector3 :=
  THREE.add a (THREE.multiplyScalar (THREE.sub v a) alpha).

Definition boundaryLimit : R := 50.

(** The combined input direction of the forward, right and left keys. *)
Definition inputDirection (controls : GameControls)
    (cameraForward cameraRight : THREE.Vector3) : THREE.Vector3 :=
  let moveDirection := THREE.Vec3 0 0 0 in
  let moveDirection :=
    if moveForward controls then THREE.add moveDirection cameraForward
    else moveDirection in
  let moveDirection :=
    if moveRight controls then THREE.add moveDirection cameraRight
    else moveDirection in
  if moveLeft controls then THREE.sub moveDirection cameraRight
  else moveDirection.

Definition backwardVector (g : THREE.Object3D) : THREE.Vector3 :=
  THREE.Vec3 (- Math.sin (THREE.rotation_y g)) 0
             (- Math.cos (THREE.rotation_y g)).

Definition setAnimation (current target : string) : string :=
  if negb (String.eqb current target) then target else current.

(** The movement part of the [useFrame] callback: the group, the queued
    [setPlayer] updates, the animation, the [playerDirection] ref and the
    calls to [updatePosition]. *)
Definition movement (controls : GameControls) (delta : R) (cam : Camera)
    (c : Instance) (g : THREE.Object3D)
  : THREE.Object3D * list (PlayerType.t -> PlayerType.t) * string
    * THREE.Vector3 * list THREE.Vector3 :=
  let player := player c in
  let cameraForward := THREE.normalize (THREE.set_y (camera_forward cam) 0) in
  let cameraRight := THREE.normalize (THREE.set_y (camera_right cam) 0) in
  let moveDirection := inputDirection controls cameraForward cameraRight in
  let backwardMovement := moveBackward controls in
  let moveDistance := PlayerType.moveSpeed player * delta * 60 in
  if backwardMovement && Num.eqb (THREE.length moveDirection) 0 then
    let backDir := backwardVector g in
    let p := THREE.position g in
    let p := THREE.Vec3 (THREE.x p + THREE.x backDir * moveDistance)
                        (THREE.y p)
                        (THREE.z p + THREE.z backDir * moveDistance) in
    let g := THREE.set_position g p in
    (g,
     [fun prev => PlayerType.with_position_isMoving prev (Triple_of p) true],
     setAnimation (currentAnimation c) "run",
     playerDirection c,
     [p])
  else if Num.gtb (THREE.length moveDirection) 0 then
    let moveDirection := THREE.normalize moveDirection in
    let moveDirection :=
      if backwardMovement then
        THREE.normalize
          (THREE.add moveDirection
             (THREE.multiplyScalar (backwardVector g) 0.3))
      else moveDirection in
    let targetRotation :=
      Math.atan2 (THREE.x moveDirection) (THREE.z moveDirection) in
    let currentRotation := THREE.rotation_y g in
    let rotDiff := targetRotation - currentRotation in
    let rotDiffAdjusted :=
      Math.rem (rotDiff + Math.PI) (Math.PI * 2) - Math.PI in
    let rotDiffAdjusted :=
      if Rlt_dec rotDiffAdjusted (- Math.PI)
      then rotDiffAdjusted + Math.PI * 2 else rotDiffAdjusted in
    let g := THREE.set_rotation_y g
               (THREE.rotation_y g + rotDiffAdjusted * 0.15) in
    let direction := THREE.Vec3 (Math.sin (THREE.rotation_y g)) 0
                                (Math.cos (THREE.rotation_y g)) in
    let p := THREE.position g in
    let p := THREE.Vec3 (THREE.x p + THREE.x moveDirection * moveDistance)
                        (THREE.y p)
                        (THREE.z p + THREE.z moveDirection * moveDistance) in
    let p := THREE.Vec3
               (Math.max (- boundaryLimit) (Math.min boundaryLimit (THREE.x p)))
               (THREE.y p)
               (Math.max (- boundaryLimit) (Math.min boundaryLimit (THREE.z p)))
    in
    let g := THREE.set_position g p in
    let newPos := p in
    (g,
     [fun prev => PlayerType.with_movement prev (Triple_of newPos)
                    (0, THREE.rotation_y g, 0) true (Triple_of direction)],
     setAnimation (currentAnimation c) "run",
     direction,
     [newPos])
  else if PlayerType.isMoving player then
    (g,
     [fun prev => PlayerType.with_isMoving prev false],
     setAnimation (currentAnimation c) "idle",
     playerDirection c,
     [])
  else (g, [], currentAnimation c, playerDirection c, []).

(** The [useFrame] callback. The timer that ends an attack after 500 ms is
    [attackEnd]. *)
Definition useFrame (controls : GameControls) (delta : R) (cam : Camera)
    (c : Instance) : Instance * Effects :=
  match group c with
  | None => (c, mkEffects [] [] (camera_position cam))
  | Some g =>
    let player := player c in
    let playerPosition := Vector3_of (PlayerType.position player) in
    let '(g, us, animation, playerDirection, moved) :=
      movement controls delta cam c g in
    let cameraOffset :=
      THREE.Vec3 (- Math.sin (THREE.rotation_y g) * 7) 3
                 (- Math.cos (THREE.rotation_y g) * 7) in
    let cameraTargetPosition :=
      THREE.add (Vector3_of (PlayerType.position player)) cameraOffset in
    let cameraLookAt :=
      THREE.Vec3 (THREE.x (THREE.position g))
                 (THREE.y (THREE.position g) + 1)
                 (THREE.z (THREE.position g)) in
    let camera := lerp (camera_position cam) cameraTargetPosition 0.1 in
    let attacking :=
      attack controls && negb (PlayerType.isAttacking player)
      && negb (PlayerType.isBlocking player) in
    let us := if attacking
              then us ++ [fun prev => PlayerType.with_isAttacking prev true]
              else us in
    let animation := if attacking then "attack"%string else animation in
    let attacks := if attacking
                   then [(Vector3_of (PlayerType.position player),
                          playerDirection)]
                   else [] in
    let '(us, animation) :=
      if block controls && negb (PlayerType.isAttacking player)
         && negb (PlayerType.isBlocking player)
      then (us ++ [fun prev => PlayerType.with_isBlocking prev true],
            "block"%string)
      else if negb (block controls) && PlayerType.isBlocking player
      then (us ++ [fun prev => PlayerType.with_isBlocking prev false],
            if PlayerType.isMoving player then "run"%string
            else "idle"%string)
      else (us, animation) in
    (mkInstance (React.applyUpdates us player) animation (Some g)
                cameraTargetPosition cameraLookAt playerPosition
                playerDirection,
     mkEffects moved attacks camera)
  end.

(** The [setTimeout(..., 500)] callback of an attack, created by the render
    whose [player] state is [snapshot]. *)
Definition attackEnd (snapshot : PlayerType.t) (c : Instance) : Instance :=
  mkInstance (PlayerType.with_isAttacking (player c) false)
             (if PlayerType.isMoving snapshot then "run" else "idle")
             (group c) (cameraTargetPosition c) (cameraLookAt c)
             (playerPosition c) (playerDirection c).

End Player.

(** ** The action game: the [Game] component of [Game.tsx] *)

Module Game.
Import GameTypes.

Record EnemyEntry : Type := mkEntry {
  id : string;
  type : EnemyKind;
  position : Triple
}.

Definition gameState0 : GameState :=
  {| isGameActive := true; playerHealth := 100; score := 0 |}.

Definition controls0 : GameControls :=
  mkGameControls false false false false false false.

(** [handleEnemyAttack(damage)] under the controls of the current render:
    the update it queues with [setGameState]. *)
Definition handleEnemyAttack (controls : GameControls) (damage : R)
  : GameState -> GameState :=
  let actualDamage :=
    if block controls then Math.ceil (damage / 2) else damage in
  fun prev =>
    let newHealth := Math.max 0 (playerHealth prev - actualDamage) in
    if Num.leb newHealth 0 && isGameActive prev then
      {| isGameActive := false; playerHealth := 0; score := score prev |}
    else
      {| isGameActive := isGameActive prev; playerHealth := newHealth;
         score := score prev |}.

(** [handleEnemyDeath(id)]: the updates it queues with [setEnemies] and
    [setGameState]. *)
Definition handleEnemyDeath (dead : string)
  : (list EnemyEntry -> list EnemyEntry) * (GameState -> GameState) :=
  (fun prev => filter (fun enemy => negb (String.eqb (id enemy) dead)) prev,
   fun prev =>
     {| isGameActive := isGameActive prev; playerHealth := playerHealth prev;
        score := score prev + 10 |}).

(** The state of [Game], and the enemy components mounted under it. *)
Record World : Type := mkWorld {
  gameState : GameState;
  controls : GameControls;
  playerPos : THREE.Vector3;
  enemies : list EnemyEntry;
  scene : list Enemy.Instance
}.

(** [handleRestart()]. *)
Definition handleRestart (w : World) : World :=
  mkWorld gameState0 (controls w) (playerPos w) [] (scene w).

(** Rendering [enemies.map(enemy => <Enemy key={enemy.id} .../>)]: a
    component whose key has left the collection is unmounted, an entry
    with a new key is mounted. *)
Definition mounted (key : string) (s : list Enemy.Instance) : bool :=
  existsb (fun c => String.eqb (Enemy.id (Enemy.props c)) key) s.

Definition render (w : World) : World :=
  let kept :=
    filter (fun c =>
              existsb (fun e => String.eqb (id e) (Enemy.id (Enemy.props c)))
                      (enemies w))
           (scene w) in
  let fresh :=
    map (fun e => Enemy.mount (Enemy.mkProps (id e) (position e) (type e)))
        (filter (fun e => negb (mounted (id e) (scene w))) (enemies w)) in
  mkWorld (gameState w) (controls w) (playerPos w) (enemies w)
          (kept ++ fresh).

(** The [onDeath] calls of a component, taken by [handleEnemyDeath]. *)
Definition onDeath (deaths : list string) (w : World) : World :=
  fold_left
    (fun w dead =>
       let '(u_enemies, u_state) := handleEnemyDeath dead in
       mkWorld (u_state (gameState w)) (controls w) (playerPos w)
               (u_enemies (enemies w)) (scene w))
    deaths w.

(** [scene.traverse] in [handlePlayerAttack]: the group it leaves in
    [foundEnemyRef] is the last one whose [userData.enemyId] is [target].
    The effect that stores [takeDamage] on a group is the one that stores
    its [enemyId]. *)
Definition isEnemyGroup (target : string) (c : Enemy.Instance) : bool :=
  String.eqb (Enemy.id (Enemy.props c)) target
  && match Enemy.group c, Enemy.group_takeDamage c with
     | Some _, Some _ => true
     | _, _ => false
     end.

Definition findEnemyRef (target : string) (s : list Enemy.Instance)
  : option Enemy.Instance :=
  fold_left (fun found c => if isEnemyGroup target c then Some c else found)
            s None.

(** [foundEnemyRef.takeDamage(amount)] in the scene: the components after
    the call and its [onDeath] calls, or [None] when no group is found. *)
Fixpoint takeDamageIn (target : string) (amount : R)
    (s : list Enemy.Instance) : option (list Enemy.Instance * list string) :=
  match s with
  | [] => None
  | c :: rest =>
    match takeDamageIn target amount rest with
    | Some (rest1, deaths) => Some (c :: rest1, deaths)
    | None =>
      if isEnemyGroup target c then
        let '(c1, deaths) := Enemy.callTakeDamage amount c in
        Some (c1 :: rest, deaths)
      else None
    end
  end.

(** The call and the [handleEnemyDeath] it triggers. *)
Definition deliver (target : string) (amount : R) (w : World)
  : World * list string :=
  match takeDamageIn target amount (scene w) with
  | Some (s, deaths) =>
    (onDeath deaths
       (mkWorld (gameState w) (controls w) (playerPos w) (enemies w) s),
     deaths)
  | None => (w, [])
  end.

(** One call of [group.takeDamage(amount)] and the render that follows. *)
Definition hitEnemy (target : string) (amount : R) (w : World)
  : World * list string :=
  let '(w1, deaths) := deliver target amount w in
  (render w1, deaths).

Definition attackRange : R := 2.5.
Definition attackAngle : R := Math.PI / 3.

(** The range and arc test of [handlePlayerAttack] for a group at
    [enemyPosition]. *)
Definition isHit (position direction enemyPosition : THREE.Vector3) : bool :=
  let toEnemy := THREE.subVectors enemyPosition position in
  let distance := THREE.length toEnemy in
  if Num.leb distance attackRange then
    let toEnemy := THREE.normalize toEnemy in
    let angleToDot := THREE.dot toEnemy direction in
    Num.gtb angleToDot (Math.cos (attackAngle / 2))
  else false.

(** [handlePlayerAttack(position, direction)]: every enemy of the
    collection whose group passes the test takes 20; the updates are
    rendered after the handler. The canvas and the scene the handler looks
    up are taken to be there. *)
Definition handlePlayerAttack (position direction : THREE.Vector3)
    (w : World) : World * list string :=
  let '(w1, deaths) :=
    fold_left
      (fun '(w1, deaths) enemy =>
         match findEnemyRef (id enemy) (scene w) with
         | Some c =>
           match Enemy.group c with
           | Some g =>
             if isHit position direction (THREE.position g) then
               let '(w2, deaths2) := deliver (id enemy) 20 w1 in
               (w2, deaths ++ deaths2)
             else (w1, deaths)
           | None => (w1, deaths)
           end
         | None => (w1, deaths)
         end)
      (enemies w) (w, []) in
  (render w1, deaths).

(** [onAttackPlayer(damage)] calls of a frame, taken by
    [handleEnemyAttack]. *)
Definition onAttackPlayer (damages : list R) (w : World) : World :=
  mkWorld
    (React.applyUpdates (map (handleEnemyAttack (controls w)) damages)
                        (gameState w))
    (controls w) (playerPos w) (enemies w) (scene w).

(** The controls [useGameControls] returns after a key or mouse event. *)
Definition setControls (controls : GameControls) (w : World) : World :=
  mkWorld (gameState w) controls (playerPos w) (enemies w) (scene w).

(** One frame of every mounted enemy. *)
Definition enemyFrames (now : Z) (delta : R) (w : World) : World :=
  let results := map (Enemy.useFrame now delta (playerPos w)) (scene w) in
  onAttackPlayer (List.concat (map snd results))
    (mkWorld (gameState w) (controls w) (playerPos w) (enemies w)
             (map fst results)).

End Game.


(** ** Strings: [String.prototype.toLowerCase] on ASCII, and [`${n}`] *)

Module JSString.

Definition lowerAscii (c : ascii) : ascii :=
  let n := nat_of_ascii c in
  if (65 <=? n)%nat && (n <=? 90)%nat then ascii_of_nat (n + 32) else c.

Fixpoint toLowerCase (s : string) : string :=
  match s with
  | EmptyString => EmptyString
  | String c rest => String (lowerAscii c) (toLowerCase rest)
  end.

(** The decimal text of a whole number, as a template literal prints it. *)
Definition ofZ (n : Z) : string := NilZero.string_of_int (Z.to_int n).

End JSString.

(** ** The plain driving model: the key listeners and [animate] *)

Module SimpleJSLoop.

(** The [keydown] and [keyup] listeners of [setupEventListeners], on
    [event.key]. *)
Definition setKey (key : string) (value : bool) (c : SimpleJS.Controls)
  : SimpleJS.Controls :=
  let k := JSString.toLowerCase key in
  if String.eqb k "w" then
    SimpleJS.mkControls value (SimpleJS.backward c) (SimpleJS.left c)
                        (SimpleJS.right c)
  else if String.eqb k "s" then
    SimpleJS.mkControls (SimpleJS.forward c) value (SimpleJS.left c)
                        (SimpleJS.right c)
  else if String.eqb k "a" then
    SimpleJS.mkControls (SimpleJS.forward c) (SimpleJS.backward c) value
                        (SimpleJS.right c)
  else if String.eqb k "d" then
    SimpleJS.mkControls (SimpleJS.forward c) (SimpleJS.backward c)
                        (SimpleJS.left c) value
  else c.

Definition keydown (key : string) (g : SimpleJS.Globals) : SimpleJS.Globals :=
  SimpleJS.mkGlobals (SimpleJS.car g) (SimpleJS.carData g)
    (setKey key true (SimpleJS.controls g)) (SimpleJS.camera_position g).

Definition keyup (key : string) (g : SimpleJS.Globals) : SimpleJS.Globals :=
  SimpleJS.mkGlobals (SimpleJS.car g) (SimpleJS.carData g)
    (setKey key false (SimpleJS.controls g)) (SimpleJS.camera_position g).

(** [animate]: one [updateCar] per animation frame; [n] frames in a row. *)
Fixpoint frames (n : nat) (g : SimpleJS.Globals) : SimpleJS.Globals :=
  match n with
  | O => g
  | S m => frames m (SimpleJS.updateCar g)
  end.

End SimpleJSLoop.

(** ** The hover tank: shooting, projectiles, explosions, keys, [animate] *)

Module Tank.

(** A mesh as far as the game touches it: the [id] three.js gives every
    object it creates, and its position. *)
Record Mesh : Type := mkMesh { id : nat; position : THREE.Vector3 }.

Record Projectile : Type := mkProjectile {
  mesh : Mesh;
  velocity : THREE.Vector3;
  active : bool;
  lifeTime : R
}.

(** An explosion whose [animateExplosion] is scheduled: its mesh, the
    [scale] and [opacity] variables of the closure, and the scale and
    material opacity last written to the mesh. *)
Record Explosion : Type := mkExplosion {
  explosion : Mesh;
  scale : R;
  opacity : R;
  mesh_scale : R;
  material_opacity : R
}.

(** The refs of the component. Of the scene, the ids of the meshes these
    functions add and remove; of the camera, its position. *)
Record State : Type := mkState {
  refs : CarGame.Refs;
  sceneRef : option (list nat);
  cameraRef : option THREE.Vector3;
  rendererRef : bool;
  lastTimeRef : R;
  projectilesRef : list Projectile;
  scheduled : list Explosion;
  nextId : nat
}.

Definition set_refs (s : State) (r : CarGame.Refs) : State :=
  mkState r (sceneRef s) (cameraRef s) (rendererRef s) (lastTimeRef s)
          (projectilesRef s) (scheduled s) (nextId s).

Definition set_lastShotTime (c : CarGame.CarData) (t : Z) : CarGame.CarData :=
  CarGame.mkCarData (CarGame.speed c) (CarGame.maxSpeed c)
    (CarGame.acceleration c) (CarGame.deceleration c) (CarGame.turnSpeed c)
    (CarGame.friction c) (CarGame.brakeStrength c) (CarGame.velocity c)
    (CarGame.direction c) (CarGame.position c) (CarGame.steeringAngle c)
    (CarGame.maxSteeringAngle c) (CarGame.steeringSpeed c)
    (CarGame.steeringReturn c) (CarGame.canShoot c) (CarGame.reloadTime c) t.

(** [scene.remove(mesh)]. *)
Definition remove (m : nat) (children : list nat) : list nat :=
  filter (fun c => negb (Nat.eqb c m)) children.

(** [handleShoot()], run when [Date.now()] is [now]. The car turns about
    the vertical axis only, so applying its quaternion is that rotation. *)
Definition handleShoot (now : Z) (s : State) : State :=
  match CarGame.carRef (refs s), sceneRef s with
  | Some car, Some children =>
    let carData := CarGame.carDataRef (refs s) in
    let currentTime := now in
    if CarGame.canShoot carData
       && (currentTime - CarGame.lastShotTime carData
           >? CarGame.reloadTime carData)%Z
    then
      let cannonTip :=
        THREE.add
          (THREE.applyAxisAngleY (THREE.Vec3 0 1.8 4.5) (THREE.rotation_y car))
          (THREE.position car) in
      let projectile := mkMesh (nextId s) cannonTip in
      let velocity := THREE.multiplyScalar (CarGame.direction carData) 0.8 in
      mkState
        (CarGame.mkRefs (Some car) (set_lastShotTime carData currentTime)
                        (CarGame.controlsRef (refs s)))
        (Some (children ++ [id projectile]))
        (cameraRef s) (rendererRef s) (lastTimeRef s)
        (projectilesRef s ++ [mkProjectile projectile velocity true 0])
        (scheduled s) (S (nextId s))
    else s
  | _, _ => s
  end.

(** One call of [animateExplosion] for an explosion: [None] when it removes
    the mesh and stops, the explosion as rescheduled otherwise. *)
Definition animateExplosion (e : Explosion) : option Explosion :=
  if Rge_dec (scale e) 1.5 then None
  else
    let scale := scale e + 0.1 in
    let opacity := opacity e - 0.05 in
    Some (mkExplosion (explosion e) scale opacity scale (Math.max 0 opacity)).

(** [createExplosion(position)]: the mesh is added to the scene and
    [animateExplosion] is called once at once. *)
Definition createExplosion (position : THREE.Vector3) (s : State) : State :=
  match sceneRef s with
  | None => s
  | Some children =>
    let m := mkMesh (nextId s) (THREE.set_y position 0.5) in
    let children := children ++ [id m] in
    match animateExplosion (mkExplosion m 0.1 1 1 0.8) with
    | Some e =>
      mkState (refs s) (Some children) (cameraRef s) (rendererRef s)
              (lastTimeRef s) (projectilesRef s) (scheduled s ++ [e])
              (S (nextId s))
    | None =>
      mkState (refs s) (Some (remove (id m) children)) (cameraRef s)
              (rendererRef s) (lastTimeRef s) (projectilesRef s) (scheduled s)
              (S (nextId s))
    end
  end.

(** The animation frame of the scheduled explosions. *)
Definition animateExplosions (s : State) : State :=
  let results := map (fun e => (e, animateExplosion e)) (scheduled s) in
  let finished :=
    flat_map (fun '(e, r) => match r with
                             | None => [id (explosion e)]
                             | Some _ => []
                             end) results in
  let rescheduled :=
    flat_map (fun '(_, r) => match r with
                             | None => []
                             | Some e => [e]
                             end) results in
  mkState (refs s)
          (option_map (fun children =>
                         fold_left (fun c m => remove m c) finished children)
                      (sceneRef s))
          (cameraRef s) (rendererRef s) (lastTimeRef s) (projectilesRef s)
          rescheduled (nextId s).

(** The body of the [forEach] of [updateProjectiles] for one projectile:
    the projectile after it, and the state with the explosion and the
    removals it makes. *)
Definition updateProjectile (delta : R) (p : Projectile) (s : State)
  : Projectile * State :=
  if negb (active p) then (p, s) else
  let m := mkMesh (id (mesh p)) (THREE.add (position (mesh p)) (velocity p)) in
  let v := THREE.set_y (velocity p) (THREE.y (velocity p) - 0.01) in
  let life := lifeTime p + delta in
  let '(alive, s) :=
    if Rle_dec (THREE.y (position m)) 0.3 then
      let s := createExplosion (position m) s in
      (false,
       mkState (refs s) (option_map (remove (id m)) (sceneRef s))
               (cameraRef s) (rendererRef s) (lastTimeRef s)
               (projectilesRef s) (scheduled s) (nextId s))
    else (true, s) in
  let '(alive, s) :=
    if Rgt_dec life 5 then
      (false,
       mkState (refs s) (option_map (remove (id m)) (sceneRef s))
               (cameraRef s) (rendererRef s) (lastTimeRef s)
               (projectilesRef s) (scheduled s) (nextId s))
    else (alive, s) in
  (mkProjectile m v alive life, s).

(** [updateProjectiles(delta)]. *)
Definition updateProjectiles (delta : R) (s : State) : State :=
  match sceneRef s with
  | None => s
  | Some _ =>
    let '(ps, s1) :=
      fold_left
        (fun '(done, s) p =>
           let '(p1, s1) := updateProjectile delta p s in
           (done ++ [p1], s1))
        (projectilesRef s) ([], s) in
    mkState (refs s1) (sceneRef s1) (cameraRef s1) (rendererRef s1)
            (lastTimeRef s1) (filter active ps) (scheduled s1) (nextId s1)
  end.

(** [animate(time)], run when [Date.now()] is [now]: the car, the
    projectiles, then the camera that follows the car. *)
Definition animate (now : Z) (time : R) (s : State) : State :=
  let delta := CarGame.frameDelta (lastTimeRef s) time in
  let cappedDelta := CarGame.cappedDelta delta in
  let s := mkState (CarGame.updateCar now cappedDelta (refs s)) (sceneRef s)
                   (cameraRef s) (rendererRef s) time (projectilesRef s)
                   (scheduled s) (nextId s) in
  let s := updateProjectiles cappedDelta s in
  match rendererRef s, sceneRef s, cameraRef s, CarGame.carRef (refs s) with
  | true, Some _, Some camera, Some car =>
    let cameraOffset :=
      THREE.applyAxisAngleY (THREE.Vec3 0 5 (- 10)) (THREE.rotation_y car) in
    let targetCameraPos := THREE.add (THREE.position car) cameraOffset in
    mkState (refs s) (sceneRef s)
            (Some (THREE.add camera
                     (THREE.multiplyScalar (THREE.sub targetCameraPos camera)
                                           0.05)))
            (rendererRef s) (lastTimeRef s) (projectilesRef s) (scheduled s)
            (nextId s)
  | _, _, _, _ => s
  end.

(** [keyof Controls]. *)
Inductive Control : Type := forward | backward | left | right | shoot.

Definition setControl (control : Control) (value : bool)
    (c : CarGame.Controls) : CarGame.Controls :=
  match control with
  | forward =>
    CarGame.mkControls value (CarGame.backward c) (CarGame.left c)
                       (CarGame.right c) (CarGame.shoot c)
  | backward =>
    CarGame.mkControls (CarGame.forward c) value (CarGame.left c)
                       (CarGame.right c) (CarGame.shoot c)
  | left =>
    CarGame.mkControls (CarGame.forward c) (CarGame.backward c) value
                       (CarGame.right c) (CarGame.shoot c)
  | right =>
    CarGame.mkControls (CarGame.forward c) (CarGame.backward c)
                       (CarGame.left c) value (CarGame.shoot c)
  | shoot =>
    CarGame.mkControls (CarGame.forward c) (CarGame.backward c)
                       (CarGame.left c) (CarGame.right c) value
  end.

(** The [switch] of the key handlers on [event.key.toLowerCase()]. *)
Definition controlOfKey (key : string) : option Control :=
  let k := JSString.toLowerCase key in
  if String.eqb k "w" || String.eqb k "arrowup" then Some forward
  else if String.eqb k "s" || String.eqb k "arrowdown" then Some backward
  else if String.eqb k "a" || String.eqb k "arrowleft" then Some left
  else if String.eqb k "d" || String.eqb k "arrowright" then Some right
  else if String.eqb k " " then Some shoot
  else None.

Definition withControls (s : State) (c : CarGame.Controls) : State :=
  set_refs s (CarGame.mkRefs (CarGame.carRef (refs s))
                             (CarGame.carDataRef (refs s)) c).

Definition isShoot (control : Control) : bool :=
  match control with shoot => true | _ => false end.

(** [handleButtonDown(control)] and [handleButtonUp(control)]. *)
Definition handleButtonDown (now : Z) (control : Control) (s : State) : State :=
  let s := withControls s
             (setControl control true (CarGame.controlsRef (refs s))) in
  if isShoot control then handleShoot now s else s.

Definition handleButtonUp (control : Control) (s : State) : State :=
  withControls s (setControl control false (CarGame.controlsRef (refs s))).

(** [handleKeyDown(event)] and [handleKeyUp(event)]. *)
Definition handleKeyDown (now : Z) (key : string) (s : State) : State :=
  match controlOfKey key with
  | Some control => handleButtonDown now control s
  | None => s
  end.

Definition handleKeyUp (key : string) (s : State) : State :=
  match controlOfKey key with
  | Some control => handleButtonUp control s
  | None => s
  end.

(** What happens to the mounted component. *)
Inductive Event : Type :=
| KeyDown (now : Z) (key : string)
| KeyUp (key : string)
| ButtonDown (now : Z) (control : Control)
| ButtonUp (control : Control)
| Animate (now : Z) (time : R)
| AnimateExplosions.

Definition step (ev : Event) (s : State) : State :=
  match ev with
  | KeyDown now key => handleKeyDown now key s
  | KeyUp key => handleKeyUp key s
  | ButtonDown now control => handleButtonDown now control s
  | ButtonUp control => handleButtonUp control s
  | Animate now time => animate now time s
  | AnimateExplosions => animateExplosions s
  end.

Definition run (evs : list Event) (s : State) : State :=
  fold_left (fun s ev => step ev s) evs s.

(** After the effect that initialises the scene: the car created, no
    projectile, the camera at (0, 5, -10). *)
Definition state0 : State :=
  mkState (CarGame.mkRefs (Some CarGame.car0) CarGame.carData0
                          CarGame.controls0)
          (Some []) (Some (THREE.Vec3 0 5 (- 10))) true 0 [] [] 0.

End Tank.

(** ** The action game: [useGameControls] *)

Module UseGameControls.
Import GameTypes.

(** The events the hook listens to: [e.code] of a key, [e.button] of the
    mouse. *)
Inductive DomEvent : Type :=
| keydown (code : string)
| keyup (code : string)
| mousedown (button : Z)
| mouseup (button : Z)
| contextmenu.

Definition setKey (code : string) (value : bool) (prev : GameControls)
  : GameControls :=
  if String.eqb code "KeyW" then
    mkGameControls value (moveBackward prev) (moveLeft prev) (moveRight prev)
                   (attack prev) (block prev)
  else if String.eqb code "KeyS" then
    mkGameControls (moveForward prev) value (moveLeft prev) (moveRight prev)
                   (attack prev) (block prev)
  else if String.eqb code "KeyA" then
    mkGameControls (moveForward prev) (moveBackward prev) value (moveRight prev)
                   (attack prev) (block prev)
  else if String.eqb code "KeyD" then
    mkGameControls (moveForward prev) (moveBackward prev) (moveLeft prev) value
                   (attack prev) (block prev)
  else prev.

Definition setButton (button : Z) (value : bool) (prev : GameControls)
  : GameControls :=
  if (button =? 0)%Z then
    mkGameControls (moveForward prev) (moveBackward prev) (moveLeft prev)
                   (moveRight prev) value (block prev)
  else if (button =? 2)%Z then
    mkGameControls (moveForward prev) (moveBackward prev) (moveLeft prev)
                   (moveRight prev) (attack prev) value
  else prev.

(** The [setControls] update a listener queues. *)
Definition handle (e : DomEvent) (prev : GameControls) : GameControls :=
  match e with
  | keydown code => setKey code true prev
  | keyup code => setKey code false prev
  | mousedown button => setButton button true prev
  | mouseup button => setButton button false prev
  | contextmenu => prev
  end.

Definition controls0 : GameControls :=
  mkGameControls false false false false false false.

Definition run (es : list DomEvent) (c : GameControls) : GameControls :=
  fold_left (fun c e => handle e c) es c.

End UseGameControls.

(** ** The action game: the spawn effect of [Game] *)

Module Spawn.
Import GameTypes.

Definition typeName (ty : EnemyKind) : string :=
  match ty with wolf => "wolf" | bear => "bear" | deer => "deer" end.

(** [(Math.random() - 0.5) * 40]. *)
Definition scatter (r : R) : R := (r - 0.5) * 40.

(** The initial batch; [random n] is the result of the n-th call of
    [Math.random()], counted from 0. *)
Definition initialEnemies (random : nat -> R) : list Game.EnemyEntry :=
  map (fun i => Game.mkEntry ("wolf-" ++ JSString.ofZ (Z.of_nat i)) wolf
                  (scatter (random (2 * i)%nat), 0,
                   scatter (random (2 * i + 1)%nat)))
      (seq 0 3)
  ++ [Game.mkEntry "bear-1" bear (scatter (random 6%nat), 0,
                                  scatter (random 7%nat))]
  ++ map (fun i => Game.mkEntry ("deer-" ++ JSString.ofZ (Z.of_nat i)) deer
                     (scatter (random (8 + 2 * i)%nat), 0,
                      scatter (random (8 + 2 * i + 1)%nat)))
         (seq 0 5).

(** The callback of [setInterval]: its three calls of [Math.random()] give
    [spawnChance], [r_angle] and [r_distance], and [Date.now()] gives [now]. *)
Definition spawnEnemy (spawnChance r_angle r_distance : R) (now : Z)
    (prevEnemies : list Game.EnemyEntry) : list Game.EnemyEntry :=
  let type :=
    if Num.ltb spawnChance 0.2 then bear
    else if Num.ltb spawnChance 0.6 then deer
    else wolf in
  let angle := r_angle * Math.PI * 2 in
  let distance := 30 + r_distance * 10 in
  let x := Math.cos angle * distance in
  let z := Math.sin angle * distance in
  prevEnemies
  ++ [Game.mkEntry (typeName type ++ "-" ++ JSString.ofZ now) type (x, 0, z)].

(** The effect itself, run when [gameState.isGameActive] changes: the
    initial batch if the game is active and the collection is empty. *)
Definition effect (random : nat -> R) (w : Game.World) : Game.World :=
  if negb (isGameActive (Game.gameState w)) then w
  else if (List.length (Game.enemies w) =? 0)%nat then
    Game.mkWorld (Game.gameState w) (Game.controls w) (Game.playerPos w)
                 (initialEnemies random) (Game.scene w)
  else w.

End Spawn.


(** * Vocabulary of the properties *)

(** What a frame of the hover tank adds at least to a speed below the top
    speed while [forward] is held, for the constants of [carData0]. *)
Definition forward_gain (delta : R) : R :=
  0.008 * (delta * 60) * Rpower 0.99 (delta * 60)
  - 0.4 * (1 - Rpower 0.99 (delta * 60)).

(** A created tank with the constants of [carData0], [forward] held and
    [backward] released, its speed between 0 and the top speed. *)
Definition forward_held (r : CarGame.Refs) : Prop :=
  (exists car, CarGame.carRef r = Some car) /\
  CarGame.acceleration (CarGame.carDataRef r) = 0.008 /\
  CarGame.friction (CarGame.carDataRef r) = 0.99 /\
  CarGame.maxSpeed (CarGame.carDataRef r) = 0.4 /\
  CarGame.forward (CarGame.controlsRef r) = true /\
  CarGame.backward (CarGame.controlsRef r) = false /\
  0 <= CarGame.speed (CarGame.carDataRef r) <= 0.4.

(** A world with one wolf, mounted at (0, 0, 1) in front of a player who
    stands at the origin and faces it; [e] is the current [enemy] state of
    the wolf. *)
Definition wolf_props : Enemy.Props :=
  Enemy.mkProps "wolf-0" (0, 0, 1) GameTypes.wolf.

Definition wolf_world (e : EnemyType.t) (state : GameTypes.GameState)
  : Game.World :=
  Game.mkWorld state Game.controls0 (THREE.Vec3 0 0 0)
    [Game.mkEntry "wolf-0" GameTypes.wolf (0, 0, 1)]
    [Enemy.rerender (Enemy.mount wolf_props) e].

(** Whether [handleShoot] passes its guards when the clock reads [now]. *)
Definition fires (now : Z) (s : Tank.State) : bool :=
  match CarGame.carRef (Tank.refs s), Tank.sceneRef s with
  | Some _, Some _ =>
    CarGame.canShoot (CarGame.carDataRef (Tank.refs s))
    && (now - CarGame.lastShotTime (CarGame.carDataRef (Tank.refs s))
        >? CarGame.reloadTime (CarGame.carDataRef (Tank.refs s)))%Z
  | _, _ => false
  end.

(** The clock reading of the shot an event of the tank fires, if any, and
    the readings of the shots of a run, in order. *)
Definition shotOf (ev : Tank.Event) (s : Tank.State) : list Z :=
  match ev with
  | Tank.KeyDown now key =>
    match Tank.controlOfKey key with
    | Some Tank.shoot => if fires now s then [now] else []
    | _ => []
    end
  | Tank.ButtonDown now Tank.shoot => if fires now s then [now] else []
  | _ => []
  end.

Fixpoint shotTimes (evs : list Tank.Event) (s : Tank.State) : list Z :=
  match evs with
  | [] => []
  | ev :: rest => shotOf ev s ++ shotTimes rest (Tank.step ev s)
  end.

(** [updateProjectiles] over frames with the given elapsed times, and an
    explosion over [n] animation frames. *)
Definition projectileFrames (deltas : list R) (s : Tank.State) : Tank.State :=
  fold_left (fun s delta => Tank.updateProjectiles delta s) deltas s.

Fixpoint explosionFrames (n : nat) (e : Tank.Explosion)
  : option Tank.Explosion :=
  match n with
  | O => Some e
  | S m =>
    match Tank.animateExplosion e with
    | Some e1 => explosionFrames m e1
    | None => None
    end
  end.

(** A projectile after the body of the loop of [updateProjectiles]: it
    depends on the projectile and the elapsed time only. *)
Definition advanced (delta : R) (p : Tank.Projectile) : Tank.Projectile :=
  fst (Tank.updateProjectile delta p
         (Tank.mkState (CarGame.mkRefs None CarGame.carData0 CarGame.controls0)
                       None None false 0 [] [] 0)).

(** The meshes of the scene, none before the scene exists. *)
Definition sceneChildren (s : Tank.State) : list nat :=
  match Tank.sceneRef s with
  | Some children => children
  | None => []
  end.

(** The value the last event that writes a flag gives it, [b] if none
    does; [sel] tells what an event writes. *)
Definition lastWrite {E : Type} (sel : E -> option bool) (es : list E)
    (b : bool) : bool :=
  fold_left (fun b e => match sel e with Some v => v | None => b end) es b.

Definition Control_eqb (a b : Tank.Control) : bool :=
  match a, b with
  | Tank.forward, Tank.forward | Tank.backward, Tank.backward
  | Tank.left, Tank.left | Tank.right, Tank.right
  | Tank.shoot, Tank.shoot => true
  | _, _ => false
  end.

Definition flagOf (control : Tank.Control) (c : CarGame.Controls) : bool :=
  match control with
  | Tank.forward => CarGame.forward c
  | Tank.backward => CarGame.backward c
  | Tank.left => CarGame.left c
  | Tank.right => CarGame.right c
  | Tank.shoot => CarGame.shoot c
  end.

(** What an event of the tank means for a control: pressed, released, or
    nothing. *)
Definition pressOf (control : Tank.Control) (ev : Tank.Event) : option bool :=
  let on (c : option Tank.Control) (v : bool) :=
    match c with
    | Some c => if Control_eqb c control then Some v else None
    | None => None
    end in
  match ev with
  | Tank.KeyDown _ key => on (Tank.controlOfKey key) true
  | Tank.KeyUp key => on (Tank.controlOfKey key) false
  | Tank.ButtonDown _ c => on (Some c) true
  | Tank.ButtonUp c => on (Some c) false
  | Tank.Animate _ _ | Tank.AnimateExplosions => None
  end.

(** The same for the action game: a key by its code, a mouse button by its
    number. *)
Definition keyOf (code : string) (e : UseGameControls.DomEvent) : option bool :=
  match e with
  | UseGameControls.keydown c => if String.eqb c code then Some true else None
  | UseGameControls.keyup c => if String.eqb c code then Some false else None
  | _ => None
  end.

Definition buttonOf (button : Z) (e : UseGameControls.DomEvent) : option bool :=
  match e with
  | UseGameControls.mousedown b => if (b =? button)%Z then Some true else None
  | UseGameControls.mouseup b => if (b =? button)%Z then Some false else None
  | _ => None
  end.

(** What happens to the [Game] component: a frame of the enemies, a sword
    blow, [updatePlayerPosition], new controls from [useGameControls], the
    restart button, the spawn effect and a tick of its interval; each is
    followed by the render it causes. *)
Inductive GameEvent : Type :=
| EnemyFrames (now : Z) (delta : R)
| PlayerAttack (position direction : THREE.Vector3)
| PlayerMoved (newPosition : THREE.Vector3)
| ControlsChanged (controls : GameTypes.GameControls)
| Restart
| SpawnEffect (random : nat -> R)
| SpawnTick (spawnChance r_angle r_distance : R) (now : Z).

Definition gameStep (ev : GameEvent) (w : Game.World) : Game.World :=
  match ev with
  | EnemyFrames now delta => Game.enemyFrames now delta w
  | PlayerAttack position direction =>
    fst (Game.handlePlayerAttack position direction w)
  | PlayerMoved newPosition =>
    Game.mkWorld (Game.gameState w) (Game.controls w) newPosition
                 (Game.enemies w) (Game.scene w)
  | ControlsChanged controls => Game.setControls controls w
  | Restart => Game.render (Game.handleRestart w)
  | SpawnEffect random => Game.render (Spawn.effect random w)
  | SpawnTick spawnChance r_angle r_distance now =>
    Game.render
      (Game.mkWorld (Game.gameState w) (Game.controls w) (Game.playerPos w)
         (Spawn.spawnEnemy spawnChance r_angle r_distance now (Game.enemies w))
         (Game.scene w))
  end.

Definition gameRun (evs : list GameEvent) (w : Game.World) : Game.World :=
  fold_left (fun w ev => gameStep ev w) evs w.

(** The game when [Game] mounts. *)
Definition world0 : Game.World :=
  Game.mkWorld Game.gameState0 Game.controls0 (THREE.Vec3 0 0 0) [] [].

(** A game state as the handlers keep it: health between 0 and 100, the
    game active exactly while the health is positive, no negative score. *)
Definition soundState (st : GameTypes.GameState) : Prop :=
  0 <= GameTypes.playerHealth st <= 100 /\
  (GameTypes.isGameActive st = true <-> 0 < GameTypes.playerHealth st) /\
  0 <= GameTypes.score st.

(** An enemy component as [Enemy] makes it: no negative attack power, and
    the function stored on its group a [takeDamage] of some render. *)
Definition soundEnemy (c : Enemy.Instance) : Prop :=
  0 <= EnemyType.attackPower (Enemy.enemy c) /\
  forall f, Enemy.group_takeDamage c = Some f ->
            exists e0, f = Enemy.takeDamage e0.

Definition soundWorld (w : Game.World) : Prop :=
  soundState (Game.gameState w) /\ Forall soundEnemy (Game.scene w).

(** Frames of the player in a row, each with its controls, elapsed time
    and camera, no attack timer firing in between: the component after
    them and the calls to [onAttack] they make. *)
Fixpoint playerFrames
    (fs : list (GameTypes.GameControls * R * Player.Camera))
    (c : Player.Instance)
  : Player.Instance * list (THREE.Vector3 * THREE.Vector3) :=
  match fs with
  | [] => (c, [])
  | (controls, delta, cam) :: rest =>
    let '(c1, effects) := Player.useFrame controls delta cam c in
    let '(c2, later) := playerFrames rest c1 in
    (c2, Player.onAttack_calls effects ++ later)
  end.


(** * Properties *)

(** ** Arithmetic of the [Math] functions *)

Ltac split_tests :=
  repeat match goal with
         | |- context [Rgt_dec ?a ?b] => destruct (Rgt_dec a b)
         | |- context [Rlt_dec ?a ?b] => destruct (Rlt_dec a b)
         | |- context [Rge_dec ?a ?b] => destruct (Rge_dec a b)
         | |- context [Rle_dec ?a ?b] => destruct (Rle_dec a b)
         | |- context [Req_dec_T ?a ?b] => destruct (Req_dec_T a b)
         | |- context [Rcase_abs ?a] => destruct (Rcase_abs a)
         | H : context [Rgt_dec ?a ?b] |- _ => destruct (Rgt_dec a b)
         | H : context [Rlt_dec ?a ?b] |- _ => destruct (Rlt_dec a b)
         | H : context [Rge_dec ?a ?b] |- _ => destruct (Rge_dec a b)
         | H : context [Rle_dec ?a ?b] |- _ => destruct (Rle_dec a b)
         | H : context [Req_dec_T ?a ?b] |- _ => destruct (Req_dec_T a b)
         | H : context [Rcase_abs ?a] |- _ => destruct (Rcase_abs a)
         end.

Ltac split_minmax :=
  unfold Math.max, Math.min, Math.abs, Rmax, Rmin, Rabs in *; split_tests.

Lemma clamp_between (s lo hi : R) :
  lo <= hi -> lo <= Math.max (Math.min s hi) lo <= hi.
Proof. intros H. split_minmax; lra. Qed.

Lemma clamp_congruence (a a' b b' c c' : R) :
  a = a' -> b = b' -> c = c' -> Rmax (Rmin a b) c = Rmax (Rmin a' b') c'.
Proof. intros -> -> ->. reflexivity. Qed.

Lemma leb_true (a b : R) : a <= b -> Num.leb a b = true.
Proof. intros H. unfold Num.leb. destruct (Rle_dec a b); [reflexivity | lra]. Qed.

Lemma leb_false (a b : R) : b < a -> Num.leb a b = false.
Proof. intros H. unfold Num.leb. destruct (Rle_dec a b); [lra | reflexivity]. Qed.

Lemma gtb_true (a b : R) : a > b -> Num.gtb a b = true.
Proof. intros H. unfold Num.gtb. destruct (Rgt_dec a b); [reflexivity | lra]. Qed.

Lemma gtb_false (a b : R) : a <= b -> Num.gtb a b = false.
Proof. intros H. unfold Num.gtb. destruct (Rgt_dec a b); [lra | reflexivity]. Qed.

Lemma eqb_true (a b : R) : a = b -> Num.eqb a b = true.
Proof. intros H. unfold Num.eqb. destruct (Req_dec_T a b); [reflexivity | lra]. Qed.

Lemma eqb_false (a b : R) : a <> b -> Num.eqb a b = false.
Proof.
  intros H. unfold Num.eqb. destruct (Req_dec_T a b); [contradiction | reflexivity].
Qed.

(** ** The vehicles *)

(** The speed the hover tank has after a frame, written out. *)
Lemma hover_speed_after (now : Z) (delta : R) (car : THREE.Object3D)
    (carData : CarGame.CarData) (controls : CarGame.Controls) :
  CarGame.speed
    (CarGame.carDataRef
       (CarGame.updateCar now delta
          (CarGame.mkRefs (Some car) carData controls)))
  = CarGame.clampSpeed carData
      (CarGame.applyFriction carData delta
         (CarGame.applyBraking controls
            (CarGame.acceleration carData * delta * 60)
            (CarGame.brakeStrength carData * delta * 60)
            (CarGame.applyAcceleration controls
               (CarGame.acceleration carData * delta * 60)
               (CarGame.speed carData)))).
Proof. reflexivity. Qed.

Lemma plain_speed_after (g : SimpleJS.Globals) :
  SimpleJS.speed (SimpleJS.carData (SimpleJS.updateCar g))
  = SimpleJS.applySpeedLimits (SimpleJS.carData g)
      (SimpleJS.applyControls (SimpleJS.controls g) (SimpleJS.carData g)).
Proof. reflexivity. Qed.

(** C1. After one frame step the speed lies in [-maxSpeed*0.5, maxSpeed],
    so that |speed| <= maxSpeed and |speed| >= -maxSpeed*0.5, whatever the
    state, the control flags and the elapsed time: in the hover tank (for a
    car that has been created) and in the plain driving model. [maxSpeed] is
    a constant of both models (0.4 and 0.3); the bound needs it to be
    non-negative only. *)
Theorem speed_within_limits_after_frame :
  (forall (now : Z) (delta : R) (car : THREE.Object3D)
          (carData : CarGame.CarData) (controls : CarGame.Controls),
      0 <= CarGame.maxSpeed carData ->
      let after :=
        CarGame.carDataRef
          (CarGame.updateCar now delta
             (CarGame.mkRefs (Some car) carData controls)) in
      CarGame.maxSpeed after = CarGame.maxSpeed carData /\
      - CarGame.maxSpeed after * 0.5 <= CarGame.speed after
        <= CarGame.maxSpeed after /\
      Rabs (CarGame.speed after) <= CarGame.maxSpeed after /\
      Rabs (CarGame.speed after) >= - CarGame.maxSpeed after * 0.5)
  /\
  (forall g : SimpleJS.Globals,
      0 <= SimpleJS.maxSpeed (SimpleJS.carData g) ->
      let after := SimpleJS.carData (SimpleJS.updateCar g) in
      SimpleJS.maxSpeed after = SimpleJS.maxSpeed (SimpleJS.carData g) /\
      - SimpleJS.maxSpeed after * 0.5 <= SimpleJS.speed after
        <= SimpleJS.maxSpeed after /\
      Rabs (SimpleJS.speed after) <= SimpleJS.maxSpeed after /\
      Rabs (SimpleJS.speed after) >= - SimpleJS.maxSpeed after * 0.5).
Proof.
  split.
  - intros now delta car carData controls Hmax after.
    assert (Hm : CarGame.maxSpeed after = CarGame.maxSpeed carData)
      by reflexivity.
    assert (Hs : - CarGame.maxSpeed carData * 0.5 <= CarGame.speed after
                 <= CarGame.maxSpeed carData).
    { unfold after. rewrite hover_speed_after. unfold CarGame.clampSpeed.
      apply clamp_between. lra. }
    rewrite Hm. split; [reflexivity | split; [exact Hs |]].
    unfold Rabs. destruct (Rcase_abs (CarGame.speed after)); lra.
  - intros g Hmax after.
    assert (Hm : SimpleJS.maxSpeed after = SimpleJS.maxSpeed (SimpleJS.carData g))
      by reflexivity.
    assert (Hs : - SimpleJS.maxSpeed (SimpleJS.carData g) * 0.5
                 <= SimpleJS.speed after
                 <= SimpleJS.maxSpeed (SimpleJS.carData g)).
    { unfold after. rewrite plain_speed_after. unfold SimpleJS.applySpeedLimits.
      split_tests; lra. }
    rewrite Hm. split; [reflexivity | split; [exact Hs |]].
    unfold Rabs. destruct (Rcase_abs (SimpleJS.speed after)); lra.
Qed.

Lemma speed_within_limits_witness :
  0 <= CarGame.maxSpeed CarGame.carData0 /\
  0 <= SimpleJS.maxSpeed (SimpleJS.carData SimpleJS.globals0) /\
  (let after :=
     CarGame.carDataRef
       (CarGame.updateCar 0 0.016
          (CarGame.mkRefs (Some CarGame.car0) CarGame.carData0
             (CarGame.mkControls true false false false false))) in
   - CarGame.maxSpeed after * 0.5 <= CarGame.speed after
     <= CarGame.maxSpeed after) /\
  (let after := SimpleJS.carData (SimpleJS.updateCar SimpleJS.globals0) in
   - SimpleJS.maxSpeed after * 0.5 <= SimpleJS.speed after
     <= SimpleJS.maxSpeed after).
Proof.
  assert (H1 : 0 <= CarGame.maxSpeed CarGame.carData0) by (simpl; lra).
  assert (H2 : 0 <= SimpleJS.maxSpeed (SimpleJS.carData SimpleJS.globals0))
    by (simpl; lra).
  split; [exact H1 | split; [exact H2 | split]].
  - exact (proj1 (proj2
             (proj1 speed_within_limits_after_frame 0%Z 0.016 CarGame.car0
                CarGame.carData0
                (CarGame.mkControls true false false false false) H1))).
  - exact (proj1 (proj2
             (proj2 speed_within_limits_after_frame SimpleJS.globals0 H2))).
Defined.

(** The limits are an invariant of the frame callback, created car or not. *)
Lemma speed_limits_invariant (now : Z) (delta : R) (r : CarGame.Refs) :
  0 <= CarGame.maxSpeed (CarGame.carDataRef r) ->
  - CarGame.maxSpeed (CarGame.carDataRef r) * 0.5
    <= CarGame.speed (CarGame.carDataRef r)
    <= CarGame.maxSpeed (CarGame.carDataRef r) ->
  let after := CarGame.carDataRef (CarGame.updateCar now delta r) in
  CarGame.maxSpeed after = CarGame.maxSpeed (CarGame.carDataRef r) /\
  - CarGame.maxSpeed after * 0.5 <= CarGame.speed after
    <= CarGame.maxSpeed after.
Proof.
  intros Hm Hs. destruct r as [[car |] carData controls].
  - cbn [CarGame.carDataRef] in Hm, Hs. cbn zeta.
    rewrite hover_speed_after. split; [reflexivity |].
    unfold CarGame.clampSpeed. apply clamp_between.
    change (CarGame.maxSpeed
              (CarGame.carDataRef
                 (CarGame.updateCar now delta
                    (CarGame.mkRefs (Some car) carData controls))))
      with (CarGame.maxSpeed carData).
    lra.
  - cbn. cbn in Hs. split; [reflexivity | exact Hs].
Qed.

(** C7. In a frame of the hover tank with [backward] held, the braking
    statement reads the speed as it is at that point of the frame, which is
    the stored speed plus the scaled acceleration when [forward] is held
    too and the stored speed otherwise. If that speed is > 0 the scaled
    brake strength is subtracted from it; otherwise half of the scaled
    forward acceleration is subtracted. Friction and the clamp then give the
    speed of the frame. *)
Theorem backward_brakes_or_reverses :
  forall (now : Z) (delta : R) (car : THREE.Object3D)
         (carData : CarGame.CarData) (controls : CarGame.Controls),
    CarGame.backward controls = true ->
    let scaledAcceleration := CarGame.acceleration carData * delta * 60 in
    let scaledBrakeStrength := CarGame.brakeStrength carData * delta * 60 in
    let current :=
      if CarGame.forward controls
      then CarGame.speed carData + scaledAcceleration
      else CarGame.speed carData in
    let finish (s : R) :=
      Rmax (Rmin (s * Rpower (CarGame.friction carData) (delta * 60))
                 (CarGame.maxSpeed carData))
           (- CarGame.maxSpeed carData * 0.5) in
    let after :=
      CarGame.speed
        (CarGame.carDataRef
           (CarGame.updateCar now delta
              (CarGame.mkRefs (Some car) carData controls))) in
    (current > 0 -> after = finish (current - scaledBrakeStrength)) /\
    (current <= 0 -> after = finish (current - scaledAcceleration * 0.5)).
Proof.
  intros now delta car carData controls Hb a b current finish after.
  unfold after. rewrite hover_speed_after.
  unfold CarGame.clampSpeed, CarGame.applyFriction, CarGame.applyBraking,
    CarGame.applyAcceleration, Math.max, Math.min, Math.pow.
  rewrite Hb. fold a b. fold current.
  split; intros Hc; destruct (Rgt_dec current 0); try lra; reflexivity.
Qed.

Lemma backward_brakes_or_reverses_witness :
  let controls := CarGame.mkControls false true false false false in
  let after (carData : CarGame.CarData) :=
    CarGame.speed
      (CarGame.carDataRef
         (CarGame.updateCar 0 (1 / 60)
            (CarGame.mkRefs (Some CarGame.car0) carData controls))) in
  let finish (s : R) :=
    Rmax (Rmin (s * Rpower 0.99 (1 / 60 * 60)) 0.4)
         (- CarGame.maxSpeed CarGame.carData0 * 0.5) in
  CarGame.backward controls = true /\
  (0.3 > 0 /\
   after (CarGame.set_speed CarGame.carData0 0.3)
   = finish (0.3 - 0.12 * (1 / 60) * 60)) /\
  (0 <= 0 /\
   after (CarGame.set_speed CarGame.carData0 0)
   = finish (0 - 0.008 * (1 / 60) * 60 * 0.5)).
Proof.
  intros controls after finish.
  assert (H1 : 0.3 > 0) by lra.
  assert (H2 : 0 <= 0) by lra.
  split; [reflexivity | split; split; try assumption].
  - exact (proj1 (backward_brakes_or_reverses 0%Z (1 / 60) CarGame.car0
                    (CarGame.set_speed CarGame.carData0 0.3) controls eq_refl)
                 H1).
  - exact (proj2 (backward_brakes_or_reverses 0%Z (1 / 60) CarGame.car0
                    (CarGame.set_speed CarGame.carData0 0) controls eq_refl)
                 H2).
Defined.

(** With no flag held a vehicle at rest stays at rest. *)
Lemma hover_rest_speed (carData : CarGame.CarData) (delta : R) (shoot : bool) :
  0 <= CarGame.maxSpeed carData ->
  CarGame.speed carData = 0 ->
  CarGame.clampSpeed carData
    (CarGame.applyFriction carData delta
       (CarGame.applyBraking (CarGame.mkControls false false false false shoot)
          (CarGame.acceleration carData * delta * 60)
          (CarGame.brakeStrength carData * delta * 60)
          (CarGame.applyAcceleration
             (CarGame.mkControls false false false false shoot)
             (CarGame.acceleration carData * delta * 60)
             (CarGame.speed carData)))) = 0.
Proof.
  intros Hm Hs.
  unfold CarGame.clampSpeed, CarGame.applyFriction, CarGame.applyBraking,
    CarGame.applyAcceleration. simpl. rewrite Hs, Rmult_0_l.
  split_minmax; lra.
Qed.

Lemma plain_rest_speed (carData : SimpleJS.CarData) :
  0 <= SimpleJS.maxSpeed carData ->
  SimpleJS.speed carData = 0 ->
  SimpleJS.applySpeedLimits carData
    (SimpleJS.applyControls SimpleJS.controls0 carData) = 0.
Proof.
  intros Hm Hs.
  unfold SimpleJS.applySpeedLimits, SimpleJS.applyControls. simpl. rewrite Hs.
  split_tests; lra.
Qed.

(** The position after a frame, in terms of the speed and direction the
    frame has computed. *)
Lemma hover_position_after (now : Z) (delta : R) (car : THREE.Object3D)
    (carData : CarGame.CarData) (controls : CarGame.Controls) :
  let after :=
    CarGame.updateCar now delta (CarGame.mkRefs (Some car) carData controls) in
  exists car',
    CarGame.carRef after = Some car' /\
    THREE.position car'
    = THREE.Vec3
        (THREE.x (THREE.position car)
         + THREE.x (CarGame.direction (CarGame.carDataRef after))
           * CarGame.speed (CarGame.carDataRef after))
        (0.8 + sin (IZR now * 0.003) * 0.1)
        (THREE.z (THREE.position car)
         + THREE.z (CarGame.direction (CarGame.carDataRef after))
           * CarGame.speed (CarGame.carDataRef after)).
Proof. intros after. eexists. split; reflexivity. Qed.

Lemma plain_position_after (g : SimpleJS.Globals) :
  let after := SimpleJS.updateCar g in
  THREE.position (SimpleJS.car after)
  = THREE.Vec3
      (THREE.x (THREE.position (SimpleJS.car g))
       + THREE.x (SimpleJS.direction (SimpleJS.carData after))
         * SimpleJS.speed (SimpleJS.carData after))
      0
      (THREE.z (THREE.position (SimpleJS.car g))
       + THREE.z (SimpleJS.direction (SimpleJS.carData after))
         * SimpleJS.speed (SimpleJS.carData after)).
Proof. reflexivity. Qed.

(** C8, as the code has it. With every control flag false and the speed
    exactly 0, one frame step leaves the horizontal position (x and z) of
    the vehicle and its speed unchanged, in both variants. The height is
    assigned by every frame: the plain model sets it to 0, the hover tank
    sets it to the hover height 0.8 + sin(Date.now() * 0.003) * 0.1, which
    follows the clock. *)
Theorem resting_vehicle_keeps_horizontal_position :
  (forall (now : Z) (delta : R) (car : THREE.Object3D)
          (carData : CarGame.CarData) (shoot : bool),
      0 <= CarGame.maxSpeed carData ->
      CarGame.speed carData = 0 ->
      let after :=
        CarGame.updateCar now delta
          (CarGame.mkRefs (Some car) carData
             (CarGame.mkControls false false false false shoot)) in
      CarGame.speed (CarGame.carDataRef after) = 0 /\
      exists car',
        CarGame.carRef after = Some car' /\
        THREE.x (THREE.position car') = THREE.x (THREE.position car) /\
        THREE.z (THREE.position car') = THREE.z (THREE.position car) /\
        THREE.y (THREE.position car')
        = 0.8 + sin (IZR now * 0.003) * 0.1)
  /\
  (forall (car : THREE.Object3D) (carData : SimpleJS.CarData)
          (camera : THREE.Vector3),
      0 <= SimpleJS.maxSpeed carData ->
      SimpleJS.speed carData = 0 ->
      let after :=
        SimpleJS.updateCar
          (SimpleJS.mkGlobals car carData SimpleJS.controls0 camera) in
      SimpleJS.speed (SimpleJS.carData after) = 0 /\
      THREE.x (THREE.position (SimpleJS.car after))
      = THREE.x (THREE.position car) /\
      THREE.z (THREE.position (SimpleJS.car after))
      = THREE.z (THREE.position car) /\
      THREE.y (THREE.position (SimpleJS.car after)) = 0).
Proof.
  split.
  - intros now delta car carData shoot Hm Hs after.
    assert (H0 : CarGame.speed (CarGame.carDataRef after) = 0).
    { unfold after. rewrite hover_speed_after. now apply hover_rest_speed. }
    split; [exact H0 |].
    destruct (hover_position_after now delta car carData
                (CarGame.mkControls false false false false shoot))
      as [car' [Hcar Hpos]].
    fold after in Hcar, Hpos.
    exists car'. split; [exact Hcar |].
    rewrite Hpos, H0. cbn [THREE.x THREE.y THREE.z]. repeat split; lra.
  - intros car carData camera Hm Hs after.
    assert (H0 : SimpleJS.speed (SimpleJS.carData after) = 0).
    { unfold after. rewrite plain_speed_after. now apply plain_rest_speed. }
    split; [exact H0 |].
    unfold after in *. rewrite plain_position_after, H0.
    cbn [THREE.x THREE.y THREE.z SimpleJS.car THREE.position].
    repeat split; lra.
Qed.

Lemma resting_vehicle_witness :
  0 <= CarGame.maxSpeed CarGame.carData0 /\
  CarGame.speed CarGame.carData0 = 0 /\
  0 <= SimpleJS.maxSpeed SimpleJS.carData0 /\
  SimpleJS.speed SimpleJS.carData0 = 0 /\
  CarGame.speed
    (CarGame.carDataRef
       (CarGame.updateCar 500 0.016
          (CarGame.mkRefs (Some CarGame.car0) CarGame.carData0
             CarGame.controls0))) = 0 /\
  THREE.y (THREE.position (SimpleJS.car (SimpleJS.updateCar SimpleJS.globals0)))
  = 0.
Proof.
  assert (H1 : 0 <= CarGame.maxSpeed CarGame.carData0) by (simpl; lra).
  assert (H2 : CarGame.speed CarGame.carData0 = 0) by reflexivity.
  assert (H3 : 0 <= SimpleJS.maxSpeed SimpleJS.carData0) by (simpl; lra).
  assert (H4 : SimpleJS.speed SimpleJS.carData0 = 0) by reflexivity.
  repeat (split; [assumption |]). split.
  - exact (proj1 (proj1 resting_vehicle_keeps_horizontal_position 500%Z 0.016
                    CarGame.car0 CarGame.carData0 false H1 H2)).
  - exact (proj2 (proj2 (proj2
             (proj2 resting_vehicle_keeps_horizontal_position
                (THREE.Obj (THREE.Vec3 0 0 0) 0) SimpleJS.carData0
                (THREE.Vec3 0 5 (-10)) H3 H4)))).
Defined.

(** C8 as stated fails for the hover tank: created at height 0.8, at rest
    and with no flag held, a frame run when the clock reads 500 ms moves it
    to height 0.8 + sin(1.5) * 0.1. *)
Lemma hover_tank_at_rest_changes_position :
  CarGame.speed CarGame.carData0 = 0 /\
  CarGame.controls0 = CarGame.mkControls false false false false false /\
  option_map THREE.position
    (CarGame.carRef
       (CarGame.updateCar 500 0.016
          (CarGame.mkRefs (Some CarGame.car0) CarGame.carData0
             CarGame.controls0)))
  <> Some (THREE.position CarGame.car0).
Proof.
  split; [reflexivity | split; [reflexivity |]].
  intros H. apply (f_equal (option_map THREE.y)) in H.
  cbn in H. injection H as H.
  assert (Hs : 0 < sin (500 * 0.003)).
  { apply sin_gt_0; [lra |]. pose proof PI2_1. lra. }
  unfold Math.sin in H. lra.
Qed.

(** ** Holding [forward] in the hover tank *)

Lemma ln_le_minus_1 (y : R) : 0 < y -> ln y <= y - 1.
Proof.
  intros Hy. pose proof (exp_ineq1_le (ln y)) as H.
  rewrite exp_ln in H by assumption. lra.
Qed.

Lemma ln_friction_bounds : - (1 / 99) <= ln 0.99 <= - 0.01.
Proof.
  split.
  - pose proof (ln_le_minus_1 (/ 0.99)) as H.
    rewrite ln_Rinv in H by lra.
    assert (/ 0.99 = 100 / 99) by lra. lra.
  - pose proof (ln_le_minus_1 0.99). lra.
Qed.

(** The friction factor of a frame of at most 0.1 s takes away less than
    the acceleration adds, up to the top speed. *)
Lemma friction_factor (k : R) :
  0 < k <= 6 ->
  0 < Rpower 0.99 k < 1 /\ 0.4 < Rpower 0.99 k * (0.4 + 0.008 * k).
Proof.
  intros [Hk0 Hk6]. unfold Rpower.
  pose proof ln_friction_bounds as [Hl1 Hl2].
  set (L := ln 0.99) in *.
  assert (Hneg : k * L < 0) by nra.
  assert (Hx1 : exp (k * L) < 1).
  { rewrite <- exp_0. apply exp_increasing. exact Hneg. }
  assert (Hx0 : 0 < exp (k * L)) by apply exp_pos.
  assert (Hxl : 1 + k * L <= exp (k * L)) by apply exp_ineq1_le.
  split; [lra |].
  assert (1 - k / 99 <= exp (k * L)) by nra.
  nra.
Qed.

Section HoldForward.

Variable delta : R.
Hypothesis delta_capped : 0 < delta <= 0.1.

Lemma gain_pos : 0 < forward_gain delta.
Proof.
  unfold forward_gain. destruct (friction_factor (delta * 60)) as [[H0 H1] H2]; lra.
Qed.

Lemma forward_frame (now : Z) (r : CarGame.Refs) :
  forward_held r ->
  let s := CarGame.speed (CarGame.carDataRef r) in
  let s' := CarGame.speed (CarGame.carDataRef (CarGame.updateCar now delta r)) in
  forward_held (CarGame.updateCar now delta r) /\
  (s < 0.4 -> s < s') /\
  (s = 0.4 -> s' = 0.4) /\
  Rmin 0.4 (s + forward_gain delta) <= s'.
Proof.
  intros [[car Hcar] [Ha [Hf [Hm [Hfw [Hbw Hs]]]]]] s s'.
  destruct r as [carRef carData controls]. cbn in Hcar, Ha, Hf, Hm, Hfw, Hbw, Hs.
  subst carRef.
  assert (Hs' : s' = Rmax (Rmin ((s + 0.008 * (delta * 60))
                                  * Rpower 0.99 (delta * 60)) 0.4)
                          (- 0.4 * 0.5)).
  { unfold s'. rewrite hover_speed_after.
    unfold CarGame.clampSpeed, CarGame.applyFriction, CarGame.applyBraking,
      CarGame.applyAcceleration, Math.max, Math.min, Math.pow.
    rewrite Hfw, Hbw, Ha, Hf, Hm. unfold s. cbn [CarGame.carDataRef].
    apply clamp_congruence; lra. }
  destruct (friction_factor (delta * 60)) as [[Hx0 Hx1] Hx]; [lra |].
  pose proof gain_pos as Hg. unfold forward_gain in *.
  set (x := Rpower 0.99 (delta * 60)) in *.
  set (k := delta * 60) in *.
  assert (Hs2 : 0 <= s <= 0.4) by exact Hs.
  assert (Hprod : 0 <= (0.4 - s) * (1 - x)) by (apply Rmult_le_pos; lra).
  assert (Hup : s + (0.008 * k * x - 0.4 * (1 - x)) <= (s + 0.008 * k) * x)
    by nra.
  assert (Hrange : 0 <= s' <= 0.4 /\ (s < 0.4 -> s < s') /\ (s = 0.4 -> s' = 0.4)
                   /\ Rmin 0.4 (s + (0.008 * k * x - 0.4 * (1 - x))) <= s').
  { rewrite Hs'. unfold Rmax, Rmin. split_tests; repeat split; intros; lra. }
  destruct Hrange as [Hr [Hlt [Heq Hmin]]].
  repeat split; try assumption; try lra; try (apply Hr).
  destruct (hover_position_after now delta car carData controls)
    as [car' [Hcar' _]].
  exists car'. exact Hcar'.
Qed.

Lemma frames_snoc (nows : list Z) (now : Z) (r : CarGame.Refs) :
  CarGame.frames (nows ++ [now]) delta r
  = CarGame.updateCar now delta (CarGame.frames nows delta r).
Proof.
  revert r. induction nows as [| n nows IH]; intros r; [reflexivity |].
  cbn. apply IH.
Qed.

Lemma forward_frames (nows : list Z) (r : CarGame.Refs) :
  forward_held r ->
  forward_held (CarGame.frames nows delta r) /\
  Rmin 0.4 (CarGame.speed (CarGame.carDataRef r)
            + INR (List.length nows) * forward_gain delta)
  <= CarGame.speed (CarGame.carDataRef (CarGame.frames nows delta r)).
Proof.
  revert r. induction nows as [| now nows IH]; intros r Hr.
  - split; [exact Hr |]. cbn [CarGame.frames List.length INR].
    destruct Hr as [_ [_ [_ [_ [_ [_ Hs]]]]]].
    unfold Rmin. split_tests; lra.
  - destruct (forward_frame now r Hr) as [Hr1 [_ [_ Hmin]]].
    destruct (IH _ Hr1) as [Hr2 Hmin2].
    split; [exact Hr2 |].
    cbn [CarGame.frames]. change (List.length (now :: nows)) with (S (List.length nows)).
    rewrite S_INR. pose proof gain_pos as Hg.
    pose proof (pos_INR (List.length nows)) as Hn.
    revert Hmin Hmin2. unfold Rmin. split_tests; intros; nra.
Qed.

End HoldForward.

(** C3. In the hover tank, from any speed in [0, maxSpeed], with [forward]
    held and [backward] released at every frame and one capped elapsed time
    0 < delta <= 0.1 for all frames: while the speed is below maxSpeed every
    frame makes it strictly greater; it never exceeds maxSpeed; once it is
    maxSpeed the clamp keeps it there; and it does reach maxSpeed after
    finitely many frames. The constants are those of [carData0]. *)
Theorem forward_speed_rises_to_max :
  forall (delta : R) (car : THREE.Object3D) (carData : CarGame.CarData)
         (controls : CarGame.Controls),
    0 < delta <= 0.1 ->
    CarGame.acceleration carData = 0.008 ->
    CarGame.friction carData = 0.99 ->
    CarGame.maxSpeed carData = 0.4 ->
    CarGame.forward controls = true ->
    CarGame.backward controls = false ->
    0 <= CarGame.speed carData <= CarGame.maxSpeed carData ->
    let speedAfter (nows : list Z) :=
      CarGame.speed
        (CarGame.carDataRef
           (CarGame.frames nows delta
              (CarGame.mkRefs (Some car) carData controls))) in
    (forall nows now,
        speedAfter nows < CarGame.maxSpeed carData ->
        speedAfter nows < speedAfter (nows ++ [now])) /\
    (forall nows, speedAfter nows <= CarGame.maxSpeed carData) /\
    (forall nows now,
        speedAfter nows = CarGame.maxSpeed carData ->
        speedAfter (nows ++ [now]) = CarGame.maxSpeed carData) /\
    (exists N : nat,
        forall nows, (N <= List.length nows)%nat ->
                     speedAfter nows = CarGame.maxSpeed carData).
Proof.
  intros delta car carData controls Hd Ha Hf Hm Hfw Hbw Hs speedAfter.
  set (r := CarGame.mkRefs (Some car) carData controls) in *.
  assert (Hr : forward_held r).
  { unfold forward_held, r. cbn. rewrite Hm in Hs.
    repeat split; try assumption; try lra. now exists car. }
  rewrite Hm.
  assert (Hle : forall nows, speedAfter nows <= 0.4).
  { intros nows. destruct (forward_frames delta Hd nows r Hr) as [Hh _].
    destruct Hh as [_ [_ [_ [_ [_ [_ Hb]]]]]]. apply Hb. }
  repeat split.
  - intros nows now Hlt. unfold speedAfter. rewrite frames_snoc.
    destruct (forward_frames delta Hd nows r Hr) as [Hh _].
    destruct (forward_frame delta Hd now _ Hh) as [_ [Hstep _]].
    apply Hstep. exact Hlt.
  - exact Hle.
  - intros nows now Heq. unfold speedAfter. rewrite frames_snoc.
    destruct (forward_frames delta Hd nows r Hr) as [Hh _].
    destruct (forward_frame delta Hd now _ Hh) as [_ [_ [Hstep _]]].
    apply Hstep. exact Heq.
  - pose proof (gain_pos delta Hd) as Hg.
    set (q := 0.4 / forward_gain delta).
    assert (Hq : 0 < q) by (apply Rdiv_lt_0_compat; lra).
    destruct (archimed q) as [Hup _].
    exists (Z.to_nat (up q)). intros nows Hlen.
    apply Rle_antisym; [apply Hle |].
    destruct (forward_frames delta Hd nows r Hr) as [_ Hmin].
    fold (speedAfter nows) in Hmin.
    assert (Hn : q <= INR (List.length nows)).
    { apply le_INR in Hlen. rewrite INR_IZR_INZ in Hlen.
      rewrite Z2Nat.id in Hlen; [lra |].
      apply le_IZR. lra. }
    assert (Hprod : 0.4 <= INR (List.length nows) * forward_gain delta).
    { apply Rmult_le_compat_r with (r := forward_gain delta) in Hn; [| lra].
      unfold q in Hn. replace (0.4 / forward_gain delta * forward_gain delta)
        with 0.4 in Hn by (field; lra). exact Hn. }
    unfold r in Hmin. cbn [CarGame.carDataRef] in Hmin.
    revert Hmin. unfold Rmin. split_tests; intros; lra.
Qed.

Lemma forward_speed_rises_witness :
  let controls := CarGame.mkControls true false false false false in
  let speedAfter (nows : list Z) :=
    CarGame.speed
      (CarGame.carDataRef
         (CarGame.frames nows 0.016
            (CarGame.mkRefs (Some CarGame.car0) CarGame.carData0 controls))) in
  0 < 0.016 <= 0.1 /\
  0 <= CarGame.speed CarGame.carData0 <= CarGame.maxSpeed CarGame.carData0 /\
  speedAfter [] < CarGame.maxSpeed CarGame.carData0 /\
  speedAfter [] < speedAfter ([] ++ [16%Z]).
Proof.
  intros controls speedAfter.
  assert (Hd : 0 < 0.016 <= 0.1) by lra.
  assert (Hs : 0 <= CarGame.speed CarGame.carData0
               <= CarGame.maxSpeed CarGame.carData0) by (cbn; lra).
  assert (H0 : speedAfter [] < CarGame.maxSpeed CarGame.carData0)
    by (cbn; lra).
  repeat (split; [assumption |]).
  exact (proj1 (forward_speed_rises_to_max 0.016 CarGame.car0 CarGame.carData0
                  controls Hd eq_refl eq_refl eq_refl eq_refl eq_refl Hs)
               [] 16%Z H0).
Defined.

(** ** The enemy: attacks and their cooldown *)

Lemma useFrame_attack_or_not (now : Z) (delta : R)
    (playerPosition : THREE.Vector3) (c : Enemy.Instance) :
  let result := Enemy.useFrame now delta playerPosition c in
  (snd result = [] /\
   Enemy.lastAttackTime (fst result) = Enemy.lastAttackTime c)
  \/
  (snd result = [EnemyType.attackPower (Enemy.enemy c)] /\
   (now - Enemy.lastAttackTime c > Enemy.attackCooldown)%Z /\
   Enemy.lastAttackTime (fst result) = now).
Proof.
  unfold Enemy.useFrame.
  destruct (Enemy.group c) as [g |]; [| left; split; reflexivity].
  destruct (EnemyType.isDead (Enemy.enemy c)); [left; split; reflexivity |].
  destruct (Num.leb _ (EnemyType.attackRadius (Enemy.enemy c))
            && negb (GameTypes.EnemyKind_eqb (EnemyType.type (Enemy.enemy c))
                                   GameTypes.deer)).
  - destruct (Z.gtb_spec (now - Enemy.lastAttackTime c) Enemy.attackCooldown)
      as [Hgt | Hle].
    + right. cbn. repeat split. lia.
    + left. cbn. split; reflexivity.
  - destruct (Num.leb _ (EnemyType.detectionRadius (Enemy.enemy c))).
    + destruct (GameTypes.EnemyKind_eqb (EnemyType.type (Enemy.enemy c)) GameTypes.deer);
        left; split; reflexivity.
    + left; split; reflexivity.
Qed.

Lemma callTakeDamage_keeps_lastAttackTime (amount : R) (c : Enemy.Instance) :
  Enemy.lastAttackTime (fst (Enemy.callTakeDamage amount c))
  = Enemy.lastAttackTime c.
Proof.
  unfold Enemy.callTakeDamage.
  destruct (Enemy.group c); [| reflexivity].
  destruct (Enemy.group_takeDamage c) as [f |]; [| reflexivity].
  destruct (f amount). reflexivity.
Qed.

(** Along a run every attack comes more than the cooldown after the value
    [lastAttackTime] had at the start, and after every earlier attack. *)
Lemma run_attack_times (evs : list Enemy.Event) (c : Enemy.Instance) :
  let times := map fst (snd (Enemy.run evs c)) in
  Forall (fun t => (t - Enemy.lastAttackTime c > Enemy.attackCooldown)%Z) times
  /\ Sorted.StronglySorted
       (fun t1 t2 => (t2 - t1 > Enemy.attackCooldown)%Z) times.
Proof.
  revert c. induction evs as [| ev evs IH]; intros c.
  - cbn. split; constructor.
  - destruct ev as [now delta playerPosition | amount |].
    + cbn [Enemy.run].
      pose proof (useFrame_attack_or_not now delta playerPosition c) as Hstep.
      destruct (Enemy.useFrame now delta playerPosition c) as [c1 attacks].
      cbn [fst snd] in Hstep.
      specialize (IH c1). destruct (Enemy.run evs c1) as [c2 later].
      cbn [fst snd] in IH |- *. destruct IH as [IHall IHsorted].
      destruct Hstep as [[-> Hlast] | [-> [Hgt Hlast]]].
      * cbn. rewrite Hlast in IHall. split; assumption.
      * cbn. rewrite Hlast in IHall. split.
        -- constructor; [exact Hgt |].
           eapply Forall_impl; [| exact IHall].
           unfold Enemy.attackCooldown in *. cbn beta. intros t Ht. lia.
        -- constructor; assumption.
    + cbn [Enemy.run]. specialize (IH (fst (Enemy.callTakeDamage amount c))).
      rewrite callTakeDamage_keeps_lastAttackTime in IH. exact IH.
    + cbn [Enemy.run]. exact (IH (Enemy.attackAnimationEnd c)).
Qed.

(** C4. An enemy calls [onAttackPlayer] in a frame only when
    [now - lastAttackTime] exceeds the cooldown of 1000 ms, and that frame
    stores [now] in [lastAttackTime]; a frame without an attack leaves
    [lastAttackTime] alone. Hence along any run of frames, damage calls and
    timers of one enemy, any two attacks are more than 1000 ms apart on the
    clock the frames read. *)
Theorem attacks_respect_cooldown :
  Enemy.attackCooldown = 1000%Z
  /\
  (forall (now : Z) (delta : R) (playerPosition : THREE.Vector3)
          (c : Enemy.Instance),
      let result := Enemy.useFrame now delta playerPosition c in
      (snd result = [] /\
       Enemy.lastAttackTime (fst result) = Enemy.lastAttackTime c)
      \/
      (snd result = [EnemyType.attackPower (Enemy.enemy c)] /\
       (now - Enemy.lastAttackTime c > 1000)%Z /\
       Enemy.lastAttackTime (fst result) = now))
  /\
  (forall (evs : list Enemy.Event) (c : Enemy.Instance),
      Sorted.StronglySorted (fun t1 t2 => (t2 - t1 > 1000)%Z)
        (map fst (snd (Enemy.run evs c)))).
Proof.
  split; [reflexivity | split].
  - exact useFrame_attack_or_not.
  - intros evs c. exact (proj2 (run_attack_times evs c)).
Qed.

(** The cooldown at work: a wolf one unit from the player attacks in the
    frame at 5000 ms, not in the frame at 5500 ms, and again at 6001 ms. *)
Lemma wolf_one_away :
  THREE.distanceTo (THREE.Vec3 0 0 0) (THREE.Vec3 0 0 1) = 1.
Proof.
  unfold THREE.distanceTo, Math.sqrt. cbn.
  replace ((0 - 0) * (0 - 0) + (0 - 0) * (0 - 0) + (0 - 1) * (0 - 1))
    with 1 by lra.
  apply sqrt_1.
Qed.

Example wolf_attacks_on_cooldown :
  let wolf := Enemy.mount (Enemy.mkProps "wolf-0" (0, 0, 0) GameTypes.wolf) in
  let player := THREE.Vec3 0 0 1 in
  snd (Enemy.run [Enemy.Frame 5000 0.016 player;
                  Enemy.Frame 5500 0.016 player;
                  Enemy.Frame 6001 0.016 player] wolf)
  = [(5000%Z, 10); (6001%Z, 10)].
Proof.
  cbn - [THREE.distanceTo Num.leb].
  repeat (rewrite wolf_one_away; rewrite leb_true by lra;
          cbn - [THREE.distanceTo Num.leb]).
  reflexivity.
Qed.

(** ** Damage to the player *)

Lemma ceilZ_charact (a : R) (m : Z) :
  IZR m - 1 < a <= IZR m -> Math.ceilZ a = m.
Proof.
  intros [Hlo Hhi]. unfold Math.ceilZ, Int_part.
  assert (Hup : (1 - m)%Z = up (- a)).
  { apply tech_up; rewrite minus_IZR; lra. }
  rewrite <- Hup. lia.
Qed.

Lemma ceil_of_integer (m : Z) : Math.ceil (IZR m) = IZR m.
Proof. unfold Math.ceil. f_equal. apply ceilZ_charact. lra. Qed.

(** Half of a whole number, rounded up. *)
Lemma ceil_half (n : Z) : Math.ceil (IZR n / 2) = IZR ((n + 1) / 2).
Proof.
  unfold Math.ceil. f_equal. apply ceilZ_charact.
  pose proof (Z.div_mod (n + 1) 2 ltac:(lia)) as Hdiv.
  pose proof (Z.mod_pos_bound (n + 1) 2 ltac:(lia)) as Hmod.
  set (q := ((n + 1) / 2)%Z) in *.
  assert (Hn : (2 * q - 1 <= n <= 2 * q)%Z) by lia.
  destruct Hn as [H1 H2]. apply IZR_le in H1, H2.
  rewrite minus_IZR, mult_IZR in H1. rewrite mult_IZR in H2. lra.
Qed.

(** The health [handleEnemyAttack] leaves: the damage it uses, subtracted
    and floored at 0. *)
Lemma handleEnemyAttack_health (controls : GameTypes.GameControls) (damage : R)
    (prev : GameTypes.GameState) :
  GameTypes.playerHealth (Game.handleEnemyAttack controls damage prev)
  = Rmax 0 (GameTypes.playerHealth prev
            - (if GameTypes.block controls then Math.ceil (damage / 2)
               else damage)).
Proof.
  unfold Game.handleEnemyAttack, Math.max.
  set (actual := if GameTypes.block controls then _ else _).
  unfold Num.leb.
  destruct (Rle_dec (Rmax 0 (GameTypes.playerHealth prev - actual)) 0) as [H | H];
    destruct (GameTypes.isGameActive prev); cbn; try reflexivity.
  revert H. unfold Rmax. split_tests; intros; lra.
Qed.

(** C10. With the block flag active, [handleEnemyAttack] subtracts
    ceil(damage / 2) from [playerHealth] (and floors the result at 0): a
    blocked hit of 15 takes 8, so health 100 becomes 92; and for every
    positive whole number of damage the blocked damage is a positive whole
    number. *)
Theorem blocked_damage_is_rounded_up :
  (forall (controls : GameTypes.GameControls) (damage : R)
          (prev : GameTypes.GameState),
      GameTypes.block controls = true ->
      GameTypes.playerHealth (Game.handleEnemyAttack controls damage prev)
      = Rmax 0 (GameTypes.playerHealth prev - Math.ceil (damage / 2)))
  /\
  Math.ceil (15 / 2) = 8
  /\
  (forall controls : GameTypes.GameControls,
      GameTypes.block controls = true ->
      GameTypes.playerHealth
        (Game.handleEnemyAttack controls 15 Game.gameState0) = 92)
  /\
  (forall n : Z,
      (0 < n)%Z ->
      exists m : Z, (0 < m)%Z /\ Math.ceil (IZR n / 2) = IZR m).
Proof.
  assert (H15 : Math.ceil (15 / 2) = 8).
  { change 15 with (IZR 15). rewrite ceil_half. reflexivity. }
  repeat split.
  - intros controls damage prev Hb.
    rewrite handleEnemyAttack_health, Hb. reflexivity.
  - exact H15.
  - intros controls Hb. rewrite handleEnemyAttack_health, Hb, H15. cbn.
    unfold Rmax. split_tests; lra.
  - intros n Hn. exists ((n + 1) / 2)%Z. split; [| apply ceil_half].
    apply Z.div_str_pos. lia.
Qed.

Lemma blocked_damage_witness :
  let controls := GameTypes.mkGameControls false false false false false true in
  GameTypes.block controls = true /\
  (0 < 15)%Z /\
  GameTypes.playerHealth (Game.handleEnemyAttack controls 15 Game.gameState0)
  = 92 /\
  exists m : Z, (0 < m)%Z /\ Math.ceil (IZR 15 / 2) = IZR m.
Proof.
  intros controls.
  assert (H1 : GameTypes.block controls = true) by reflexivity.
  assert (H2 : (0 < 15)%Z) by lia.
  split; [exact H1 | split; [exact H2 | split]].
  - exact (proj1 (proj2 (proj2 blocked_damage_is_rounded_up)) controls H1).
  - exact (proj2 (proj2 (proj2 blocked_damage_is_rounded_up)) 15%Z H2).
Defined.

(** C5, as the code has it. A damage event lowers [playerHealth] by the full
    damage when the block flag is inactive and by ceil(damage / 2) when it
    is active, which is exactly half for an even whole damage; the result
    is floored at 0. A player at health 100 who takes an unblocked hit of 20
    and then a blocked hit of 20 ends at health 70. *)
Theorem damage_full_or_half_rounded_up :
  (forall (controls : GameTypes.GameControls) (damage : R)
          (prev : GameTypes.GameState),
      GameTypes.block controls = false ->
      GameTypes.playerHealth (Game.handleEnemyAttack controls damage prev)
      = Rmax 0 (GameTypes.playerHealth prev - damage))
  /\
  (forall (controls : GameTypes.GameControls) (damage : R)
          (prev : GameTypes.GameState),
      GameTypes.block controls = true ->
      GameTypes.playerHealth (Game.handleEnemyAttack controls damage prev)
      = Rmax 0 (GameTypes.playerHealth prev - Math.ceil (damage / 2)))
  /\
  (forall k : Z, Math.ceil (IZR (2 * k) / 2) = IZR (2 * k) / 2)
  /\
  (forall (free blocking : GameTypes.GameControls),
      GameTypes.block free = false ->
      GameTypes.block blocking = true ->
      GameTypes.playerHealth
        (Game.handleEnemyAttack blocking 20
           (Game.handleEnemyAttack free 20 Game.gameState0)) = 70).
Proof.
  repeat split.
  - intros controls damage prev Hb.
    rewrite handleEnemyAttack_health, Hb. reflexivity.
  - intros controls damage prev Hb.
    rewrite handleEnemyAttack_health, Hb. reflexivity.
  - intros k. rewrite ceil_half.
    replace ((2 * k + 1) / 2)%Z with k.
    + rewrite mult_IZR. lra.
    + apply Z.div_unique with (r := 1%Z); lia.
  - intros free blocking Hf Hb.
    rewrite !handleEnemyAttack_health, Hf, Hb.
    change 20 with (IZR 20) at 1. rewrite ceil_half.
    change ((20 + 1) / 2)%Z with 10%Z. cbn.
    unfold Rmax. split_tests; lra.
Qed.

Lemma damage_full_or_half_witness :
  let free := Game.controls0 in
  let blocking := GameTypes.mkGameControls false false false false false true in
  GameTypes.block free = false /\
  GameTypes.block blocking = true /\
  GameTypes.playerHealth
    (Game.handleEnemyAttack blocking 20
       (Game.handleEnemyAttack free 20 Game.gameState0)) = 70.
Proof.
  intros free blocking.
  assert (H1 : GameTypes.block free = false) by reflexivity.
  assert (H2 : GameTypes.block blocking = true) by reflexivity.
  split; [exact H1 | split; [exact H2 |]].
  exact (proj2 (proj2 (proj2 damage_full_or_half_rounded_up))
           free blocking H1 H2).
Defined.

(** The same two hits as frames of a bear one unit from the player: an
    attack of 20 at 5000 ms with the block flag off, the next at 6001 ms
    with the block flag on. *)
Example bear_hits_unblocked_then_blocked :
  let bear := Enemy.mount (Enemy.mkProps "bear-1" (0, 0, 0) GameTypes.bear) in
  let w0 := Game.mkWorld Game.gameState0 Game.controls0 (THREE.Vec3 0 0 1)
              [Game.mkEntry "bear-1" GameTypes.bear (0, 0, 0)] [bear] in
  let w1 := Game.enemyFrames 5000 0.016 w0 in
  let w2 :=
    Game.enemyFrames 6001 0.016
      (Game.setControls
         (GameTypes.mkGameControls false false false false false true) w1) in
  GameTypes.playerHealth (Game.gameState w1) = 80 /\
  GameTypes.playerHealth (Game.gameState w2) = 70.
Proof.
  cbn zeta. unfold Game.enemyFrames, Game.onAttackPlayer, Game.setControls.
  cbn - [THREE.distanceTo Num.leb Game.handleEnemyAttack].
  repeat (rewrite wolf_one_away; rewrite leb_true by lra;
          cbn - [THREE.distanceTo Num.leb Game.handleEnemyAttack]).
  rewrite !handleEnemyAttack_health. cbn [GameTypes.block Game.controls0].
  change 20 with (IZR 20) at 2. rewrite ceil_half.
  change ((20 + 1) / 2)%Z with 10%Z. cbn.
  unfold Rmax. split; split_tests; lra.
Qed.

(** C5 as stated fails: a blocked hit of 15 on health 100 leaves 92, which
    is not 100 - 15/2; and an unblocked hit of 20 on health 10 leaves 0,
    which is not 10 - 20. *)
Lemma blocked_odd_hit_is_not_halved :
  let blocking := GameTypes.mkGameControls false false false false false true in
  GameTypes.playerHealth
    (Game.handleEnemyAttack blocking 15 Game.gameState0)
  <> GameTypes.playerHealth Game.gameState0 - 15 / 2
  /\
  GameTypes.playerHealth
    (Game.handleEnemyAttack Game.controls0 20
       (GameTypes.mkGameState true 10 0))
  <> 10 - 20.
Proof.
  intros blocking. split.
  - rewrite handleEnemyAttack_health. cbn [GameTypes.block blocking].
    change 15 with (IZR 15) at 1. rewrite ceil_half.
    change ((15 + 1) / 2)%Z with 8%Z. cbn.
    unfold Rmax. split_tests; lra.
  - rewrite handleEnemyAttack_health. cbn.
    unfold Rmax. split_tests; lra.
Qed.

(** ** Damage to an enemy *)

Lemma takeDamage_survives (enemy : EnemyType.t) (amount : R) :
  amount < EnemyType.health enemy ->
  Enemy.takeDamage enemy amount
  = (fun prev => EnemyType.with_health_isDead prev
                   (EnemyType.health enemy - amount) false,
     []).
Proof.
  intros H. unfold Enemy.takeDamage.
  assert (E : Math.max 0 (EnemyType.health enemy - amount)
              = EnemyType.health enemy - amount).
  { unfold Math.max, Rmax. split_tests; lra. }
  rewrite E, leb_false by lra. reflexivity.
Qed.

Lemma takeDamage_kills (enemy : EnemyType.t) (amount : R) :
  EnemyType.health enemy <= amount ->
  Enemy.takeDamage enemy amount
  = (fun prev => EnemyType.with_health_isDead prev 0 true,
     [EnemyType.id enemy]).
Proof.
  intros H. unfold Enemy.takeDamage.
  assert (E : Math.max 0 (EnemyType.health enemy - amount) = 0).
  { unfold Math.max, Rmax. split_tests; lra. }
  rewrite E, leb_true by lra. reflexivity.
Qed.

(** Frames, damage calls and timers leave [group.takeDamage] as the effect
    of the first render stored it. *)
Lemma useFrame_keeps_takeDamage (now : Z) (delta : R)
    (playerPosition : THREE.Vector3) (c : Enemy.Instance) :
  Enemy.group_takeDamage (fst (Enemy.useFrame now delta playerPosition c))
  = Enemy.group_takeDamage c
  /\ Enemy.props (fst (Enemy.useFrame now delta playerPosition c))
     = Enemy.props c.
Proof.
  unfold Enemy.useFrame.
  destruct (Enemy.group c) as [g |]; [| split; reflexivity].
  destruct (EnemyType.isDead (Enemy.enemy c)); [split; reflexivity |].
  repeat match goal with
         | |- context [if ?b then _ else _] =>
             match type of b with
             | bool => destruct b
             end
         end; split; reflexivity.
Qed.

Lemma run_keeps_takeDamage (evs : list Enemy.Event) (c : Enemy.Instance) :
  Enemy.group_takeDamage (fst (Enemy.run evs c)) = Enemy.group_takeDamage c.
Proof.
  revert c. induction evs as [| ev evs IH]; intros c; [reflexivity |].
  destruct ev as [now delta playerPosition | amount |]; cbn [Enemy.run].
  - pose proof (useFrame_keeps_takeDamage now delta playerPosition c) as [H _].
    destruct (Enemy.useFrame now delta playerPosition c) as [c1 attacks].
    specialize (IH c1). destruct (Enemy.run evs c1) as [c2 later].
    cbn [fst] in *. congruence.
  - rewrite IH. unfold Enemy.callTakeDamage.
    destruct (Enemy.group c); [| reflexivity].
    destruct (Enemy.group_takeDamage c) as [f |] eqn:E; [| exact E].
    destruct (f amount). exact E.
  - rewrite IH. reflexivity.
Qed.

(** Whatever has happened to a mounted enemy, a call of [group.takeDamage]
    computes the new health from the health of the first render. *)
Lemma stored_takeDamage_is_of_first_render (p : Enemy.Props)
    (evs : list Enemy.Event) (amount : R) :
  let c := fst (Enemy.run evs (Enemy.mount p)) in
  Enemy.group_takeDamage c = Some (Enemy.takeDamage (Enemy.initialState p)).
Proof. cbn zeta. rewrite run_keeps_takeDamage. reflexivity. Qed.

(** Had each call used the [takeDamage] of the current render, hits of 20
    and 30 on a wolf would bring its health from 50 to 30 and to 0, with one
    [onDeath] call, which removes it and adds 10 to the score. *)
Lemma takeDamage_of_current_render_kills_wolf :
  let p := Enemy.mkProps "wolf-0" (0, 0, 0) GameTypes.wolf in
  let e0 := Enemy.initialState p in
  let hit1 := Enemy.takeDamage e0 20 in
  let e1 := fst hit1 e0 in
  let hit2 := Enemy.takeDamage e1 30 in
  let e2 := fst hit2 e1 in
  let w0 := Game.mkWorld Game.gameState0 Game.controls0 (THREE.Vec3 0 0 0)
              [Game.mkEntry "wolf-0" GameTypes.wolf (0, 0, 0)]
              [Enemy.mount p] in
  let w2 := Game.render (Game.onDeath (snd hit1 ++ snd hit2) w0) in
  EnemyType.health e1 = 30 /\ EnemyType.health e2 = 0 /\
  EnemyType.isDead e2 = true /\
  snd hit1 ++ snd hit2 = ["wolf-0"%string] /\
  GameTypes.score (Game.gameState w2) = 10 /\
  Game.enemies w2 = [] /\ Game.scene w2 = [].
Proof.
  intros p e0 hit1 e1 hit2 e2 w0 w2.
  assert (H1 : hit1 = (fun prev => EnemyType.with_health_isDead prev
                                     (EnemyType.health e0 - 20) false, [])).
  { apply takeDamage_survives. cbn. lra. }
  assert (He1 : EnemyType.health e1 = 30).
  { unfold e1. rewrite H1. cbn. lra. }
  assert (H2 : hit2 = (fun prev => EnemyType.with_health_isDead prev 0 true,
                       [EnemyType.id e1])).
  { apply takeDamage_kills. rewrite He1. lra. }
  unfold w2, e2. rewrite H2, H1. cbn. repeat split; try reflexivity.
  - exact He1.
  - lra.
Qed.

(** C6 on the code. A mounted wolf (health 50) whose [group.takeDamage] is
    called with 20 and then with 30 has health 30 and then 20: the stored
    function is the one of the first render and subtracts from 50 each
    time. No [onDeath] call is made, the wolf stays in the collection and
    the score stays 0. *)
Theorem wolf_survives_hits_of_20_and_30 :
  let p := Enemy.mkProps "wolf-0" (0, 0, 0) GameTypes.wolf in
  let w0 := Game.mkWorld Game.gameState0 Game.controls0 (THREE.Vec3 0 0 0)
              [Game.mkEntry "wolf-0" GameTypes.wolf (0, 0, 0)]
              [Enemy.mount p] in
  let r1 := Game.hitEnemy "wolf-0" 20 w0 in
  let r2 := Game.hitEnemy "wolf-0" 30 (fst r1) in
  map (fun c => EnemyType.health (Enemy.enemy c)) (Game.scene (fst r1)) = [30]
  /\ map (fun c => EnemyType.health (Enemy.enemy c)) (Game.scene (fst r2))
     = [20]
  /\ map (fun c => EnemyType.isDead (Enemy.enemy c)) (Game.scene (fst r2))
     = [false]
  /\ snd r1 ++ snd r2 = []
  /\ GameTypes.score (Game.gameState (fst r2)) = 0
  /\ map Game.id (Game.enemies (fst r2)) = ["wolf-0"%string].
Proof.
  intros p w0 r1 r2. unfold r2, r1, w0, Game.hitEnemy, Game.deliver.
  repeat (cbn - [Enemy.takeDamage Enemy.initialState];
          rewrite takeDamage_survives by (cbn; lra)).
  cbn. repeat split; try reflexivity; f_equal; lra.
Qed.

(** ** The player: the boundary of the map *)

Lemma length_nonneg (v : THREE.Vector3) : 0 <= THREE.length v.
Proof. unfold THREE.length, Math.sqrt. apply sqrt_pos. Qed.

Lemma length_zero : THREE.length (THREE.Vec3 0 0 0) = 0.
Proof.
  unfold THREE.length, Math.sqrt. cbn.
  replace (0 * 0 + 0 * 0 + 0 * 0) with 0 by lra. apply sqrt_0.
Qed.

Lemma length_zero_inv (v : THREE.Vector3) :
  THREE.length v = 0 -> v = THREE.Vec3 0 0 0.
Proof.
  destruct v as [a b c]. unfold THREE.length, Math.sqrt. cbn. intros H.
  apply sqrt_eq_0 in H; [| nra].
  assert (a = 0) by nra. assert (b = 0) by nra. assert (c = 0) by nra.
  subst. reflexivity.
Qed.

(** The group after the movement part, for a non-zero input direction. *)
Lemma movement_with_input_is_bounded (controls : GameTypes.GameControls)
    (delta : R) (cam : Player.Camera) (c : Player.Instance)
    (g : THREE.Object3D) :
  Player.inputDirection controls
    (THREE.normalize (THREE.set_y (Player.camera_forward cam) 0))
    (THREE.normalize (THREE.set_y (Player.camera_right cam) 0))
  <> THREE.Vec3 0 0 0 ->
  let g' := fst (fst (fst (fst (Player.movement controls delta cam c g)))) in
  - 50 <= THREE.x (THREE.position g') <= 50 /\
  - 50 <= THREE.z (THREE.position g') <= 50.
Proof.
  intros Hdir. unfold Player.movement.
  set (d := Player.inputDirection _ _ _) in *.
  assert (Hlen : 0 < THREE.length d).
  { destruct (Rle_lt_or_eq_dec _ _ (length_nonneg d)) as [H | H]; [exact H |].
    symmetry in H. apply length_zero_inv in H. contradiction. }
  rewrite eqb_false by lra. rewrite andb_false_r.
  rewrite gtb_true by lra.
  cbn [fst THREE.position THREE.set_position THREE.x THREE.z].
  unfold Player.boundaryLimit. split; split_minmax; lra.
Qed.

(** The group after the movement part, when only [moveBackward] is held. *)
Lemma movement_backward_only (delta : R) (cam : Player.Camera)
    (c : Player.Instance) (g : THREE.Object3D) (attack block : bool) :
  let controls :=
    GameTypes.mkGameControls false true false false attack block in
  let g' := fst (fst (fst (fst (Player.movement controls delta cam c g)))) in
  let moveDistance := PlayerType.moveSpeed (Player.player c) * delta * 60 in
  THREE.position g'
  = THREE.Vec3
      (THREE.x (THREE.position g)
       + - sin (THREE.rotation_y g) * moveDistance)
      (THREE.y (THREE.position g))
      (THREE.z (THREE.position g)
       + - cos (THREE.rotation_y g) * moveDistance)
  /\ THREE.rotation_y g' = THREE.rotation_y g.
Proof.
  intros controls g' moveDistance. unfold g', Player.movement, controls.
  cbn [Player.inputDirection GameTypes.moveForward GameTypes.moveRight
       GameTypes.moveLeft GameTypes.moveBackward].
  rewrite length_zero, eqb_true by reflexivity.
  cbn. split; reflexivity.
Qed.

Lemma useFrame_group (controls : GameTypes.GameControls) (delta : R)
    (cam : Player.Camera) (c : Player.Instance) (g : THREE.Object3D) :
  Player.group c = Some g ->
  Player.group (fst (Player.useFrame controls delta cam c))
  = Some (fst (fst (fst (fst (Player.movement controls delta cam c g))))).
Proof.
  intros Hg. unfold Player.useFrame. rewrite Hg.
  destruct (Player.movement controls delta cam c g)
    as [[[[g1 us] animation] direction] moved].
  cbn [fst].
  repeat match goal with
         | |- context [if ?b then _ else _] => destruct b
         end; reflexivity.
Qed.

(** C9. In a frame of the player, whenever the input direction combined
    from the forward, right and left keys is not the zero vector, the x and
    z coordinates of the player after the frame lie in [-50, 50]. When only
    the backward key is held the frame adds the backward vector, scaled by
    the move distance, to the position and applies no bound: from z = -50 a
    backward frame leads to z = -50.15. *)
Theorem boundary_applies_except_backward_only :
  (forall (controls : GameTypes.GameControls) (delta : R)
          (cam : Player.Camera) (c : Player.Instance) (g : THREE.Object3D),
      Player.group c = Some g ->
      Player.inputDirection controls
        (THREE.normalize (THREE.set_y (Player.camera_forward cam) 0))
        (THREE.normalize (THREE.set_y (Player.camera_right cam) 0))
      <> THREE.Vec3 0 0 0 ->
      exists g',
        Player.group (fst (Player.useFrame controls delta cam c)) = Some g' /\
        - 50 <= THREE.x (THREE.position g') <= 50 /\
        - 50 <= THREE.z (THREE.position g') <= 50)
  /\
  (forall (attack block : bool) (delta : R) (cam : Player.Camera)
          (c : Player.Instance) (g : THREE.Object3D),
      Player.group c = Some g ->
      let controls :=
        GameTypes.mkGameControls false true false false attack block in
      let moveDistance := PlayerType.moveSpeed (Player.player c) * delta * 60 in
      exists g',
        Player.group (fst (Player.useFrame controls delta cam c)) = Some g' /\
        THREE.x (THREE.position g')
        = THREE.x (THREE.position g)
          + - sin (THREE.rotation_y g) * moveDistance /\
        THREE.z (THREE.position g')
        = THREE.z (THREE.position g)
          + - cos (THREE.rotation_y g) * moveDistance)
  /\
  (forall (cam : Player.Camera) (c : Player.Instance),
      Player.group c = Some (THREE.Obj (THREE.Vec3 0 0 (- 50)) 0) ->
      PlayerType.moveSpeed (Player.player c) = 0.15 ->
      let controls :=
        GameTypes.mkGameControls false true false false false false in
      exists g',
        Player.group (fst (Player.useFrame controls (1 / 60) cam c)) = Some g'
        /\ THREE.z (THREE.position g') = - 50.15).
Proof.
  repeat split.
  - intros controls delta cam c g Hg Hdir.
    eexists. split; [apply useFrame_group; exact Hg |].
    apply movement_with_input_is_bounded. exact Hdir.
  - intros attack block delta cam c g Hg controls moveDistance.
    eexists. split; [apply useFrame_group; exact Hg |].
    destruct (movement_backward_only delta cam c g attack block) as [Hp _].
    fold controls in Hp. rewrite Hp. cbn [THREE.x THREE.z]. split; reflexivity.
  - intros cam c Hg Hspeed controls.
    eexists. split; [apply useFrame_group; exact Hg |].
    destruct (movement_backward_only (1 / 60) cam c
                (THREE.Obj (THREE.Vec3 0 0 (- 50)) 0) false false) as [Hp _].
    fold controls in Hp. rewrite Hp, Hspeed.
    cbn [THREE.x THREE.z THREE.position THREE.rotation_y]. rewrite cos_0. lra.
Qed.

Lemma forward_input_is_not_zero :
  Player.inputDirection
    (GameTypes.mkGameControls true false false false false false)
    (THREE.normalize (THREE.set_y (THREE.Vec3 0 0 (- 1)) 0))
    (THREE.normalize (THREE.set_y (THREE.Vec3 1 0 0) 0))
  <> THREE.Vec3 0 0 0.
Proof.
  cbn [Player.inputDirection GameTypes.moveForward GameTypes.moveRight
       GameTypes.moveLeft].
  assert (Hlen : THREE.length (THREE.set_y (THREE.Vec3 0 0 (- 1)) 0) = 1).
  { unfold THREE.length, Math.sqrt. cbn.
    replace (0 * 0 + 0 * 0 + - 1 * - 1) with 1 by lra. apply sqrt_1. }
  unfold THREE.normalize. rewrite Hlen.
  destruct (Req_dec_T 1 0) as [H | _]; [lra |].
  intros H. apply (f_equal THREE.z) in H. cbn in H. lra.
Qed.

Lemma boundary_witness :
  let cam := Player.mkCamera (THREE.Vec3 0 3 5) (THREE.Vec3 0 0 (- 1))
                             (THREE.Vec3 1 0 0) in
  let forward := GameTypes.mkGameControls true false false false false false in
  let backward := GameTypes.mkGameControls false true false false false false in
  let edge :=
    Player.mkInstance Player.player0 "idle"
      (Some (THREE.Obj (THREE.Vec3 0 0 (- 50)) 0))
      (THREE.Vec3 0 1.5 (- 5)) (THREE.Vec3 0 0 0) (THREE.Vec3 0 0 0)
      (THREE.Vec3 0 0 1) in
  Player.group Player.mount = Some (THREE.Obj (THREE.Vec3 0 0 0) 0) /\
  (exists g',
      Player.group (fst (Player.useFrame forward 0.016 cam Player.mount))
      = Some g' /\
      - 50 <= THREE.x (THREE.position g') <= 50 /\
      - 50 <= THREE.z (THREE.position g') <= 50) /\
  (exists g',
      Player.group (fst (Player.useFrame backward (1 / 60) cam edge))
      = Some g' /\
      THREE.z (THREE.position g') = - 50.15).
Proof.
  intros cam forward backward edge.
  split; [reflexivity | split].
  - exact (proj1 boundary_applies_except_backward_only forward 0.016 cam
             Player.mount (THREE.Obj (THREE.Vec3 0 0 0) 0) eq_refl
             forward_input_is_not_zero).
  - exact (proj2 (proj2 boundary_applies_except_backward_only) cam edge
             eq_refl eq_refl).
Defined.

(** ** The enemy: chase and flee *)

Lemma sqrt_one_plus_sqr (a b : R) :
  a <> 0 ->
  sqrt (1 + (b / a)²) = sqrt (a * a + b * b) / Rabs a.
Proof.
  intros Ha.
  assert (Hs : 0 <= a * a + b * b) by nra.
  assert (Habs : 0 < Rabs a) by (apply Rabs_pos_lt; exact Ha).
  assert (Habs2 : Rabs a * Rabs a = a * a).
  { unfold Rabs. destruct (Rcase_abs a); lra. }
  apply sqrt_lem_1.
  - unfold Rsqr. nra.
  - apply Rmult_le_pos; [apply sqrt_pos | left; apply Rinv_0_lt_compat; exact Habs].
  - unfold Rsqr.
    replace (sqrt (a * a + b * b) / Rabs a * (sqrt (a * a + b * b) / Rabs a))
      with (sqrt (a * a + b * b) * sqrt (a * a + b * b) / (Rabs a * Rabs a))
      by (field; lra).
    rewrite sqrt_sqrt by exact Hs. rewrite Habs2. field. exact Ha.
Qed.

(** The angle [Math.atan2 b a] points along (a, b). *)
Lemma atan2_sin_cos (b a : R) :
  a <> 0 \/ b <> 0 ->
  sin (Math.atan2 b a) = b / sqrt (a * a + b * b) /\
  cos (Math.atan2 b a) = a / sqrt (a * a + b * b).
Proof.
  intros Hnz.
  assert (Hs : 0 < a * a + b * b) by (destruct Hnz; nra).
  assert (Hq : 0 < sqrt (a * a + b * b)) by (apply sqrt_lt_R0; exact Hs).
  unfold Math.atan2, Math.PI.
  destruct (Rgt_dec a 0) as [Hpos | Hnpos].
  - rewrite sin_atan, cos_atan, sqrt_one_plus_sqr by lra.
    rewrite Rabs_right by lra. split; field; lra.
  - destruct (Rlt_dec a 0) as [Hneg | Hnneg].
    + assert (Hsin : sin (atan (b / a)) = - b / sqrt (a * a + b * b)).
      { rewrite sin_atan, sqrt_one_plus_sqr by lra.
        rewrite Rabs_left by lra. field; lra. }
      assert (Hcos : cos (atan (b / a)) = - a / sqrt (a * a + b * b)).
      { rewrite cos_atan, sqrt_one_plus_sqr by lra.
        rewrite Rabs_left by lra. field; lra. }
      destruct (Rge_dec b 0).
      * rewrite neg_sin, neg_cos, Hsin, Hcos. split; field; lra.
      * rewrite sin_minus, cos_minus, sin_PI, cos_PI, Hsin, Hcos.
        split; field; lra.
    + assert (a = 0) by lra. subst a.
      replace (0 * 0 + b * b) with (Rsqr b) in * by (unfold Rsqr; lra).
      rewrite sqrt_Rsqr_abs.
      destruct (Rgt_dec b 0).
      * rewrite sin_PI2, cos_PI2, Rabs_right by lra. split; field; lra.
      * destruct (Rlt_dec b 0).
        -- rewrite sin_neg, cos_neg, sin_PI2, cos_PI2, Rabs_left by lra.
           split; field; lra.
        -- destruct Hnz; lra.
Qed.

(** Scaling a point by a positive factor keeps its angle. *)
Lemma atan2_scale (b a k : R) :
  0 < k -> Math.atan2 (b * k) (a * k) = Math.atan2 b a.
Proof.
  intros Hk. unfold Math.atan2.
  assert (Hdiv : a <> 0 -> b * k / (a * k) = b / a) by (intros; field; lra).
  destruct (Rgt_dec a 0), (Rgt_dec (a * k) 0); try nra.
  - rewrite Hdiv by lra. reflexivity.
  - destruct (Rlt_dec a 0), (Rlt_dec (a * k) 0); try nra.
    + rewrite Hdiv by lra.
      destruct (Rge_dec b 0), (Rge_dec (b * k) 0); try nra; reflexivity.
    + destruct (Rgt_dec b 0), (Rgt_dec (b * k) 0); try nra; try reflexivity.
      destruct (Rlt_dec b 0), (Rlt_dec (b * k) 0); try nra; reflexivity.
Qed.

Lemma normalize_positive (v : THREE.Vector3) :
  0 < THREE.length v ->
  THREE.normalize v
  = THREE.Vec3 (THREE.x v * (1 / THREE.length v))
               (THREE.y v * (1 / THREE.length v))
               (THREE.z v * (1 / THREE.length v)).
Proof.
  intros H. unfold THREE.normalize.
  destruct (Req_dec_T (THREE.length v) 0); [lra | reflexivity].
Qed.

Lemma normalize_zero (v : THREE.Vector3) :
  THREE.length v = 0 -> THREE.normalize v = THREE.Vec3 0 0 0.
Proof.
  intros H. unfold THREE.normalize. rewrite H.
  apply length_zero_inv in H. subst v.
  destruct (Req_dec_T 0 0); [| lra].
  unfold THREE.divideScalar, THREE.multiplyScalar. cbn. f_equal; lra.
Qed.

Lemma distanceTo_length (a b : THREE.Vector3) :
  THREE.distanceTo a b = THREE.length (THREE.sub b a) /\
  THREE.distanceTo a b = THREE.length (THREE.sub a b).
Proof.
  unfold THREE.distanceTo, THREE.length, Math.sqrt. cbn.
  split; f_equal; ring.
Qed.

Lemma aggroState_after_frame (e : EnemyType.t) (u : Enemy.Updater)
    (target : Aggro.State) :
  (forall prev, EnemyType.aggroState (u prev) = EnemyType.aggroState prev) ->
  EnemyType.aggroState
    (React.applyUpdates
       (u :: (if negb (Aggro.eqb (EnemyType.aggroState e) target)
              then [fun prev => EnemyType.with_aggroState prev target]
              else []))
       e)
  = target.
Proof.
  intros Hu.
  destruct (Aggro.eqb (EnemyType.aggroState e) target) eqn:E; cbn.
  - rewrite Hu. destruct (EnemyType.aggroState e), target; cbn in E;
      congruence.
  - reflexivity.
Qed.

(** A frame in the chase or flee band moves the group from [from] along the
    vector to [to] and turns it to the angle of that vector. *)
Lemma band_step (g : THREE.Object3D) (from to : THREE.Vector3) (speed : R) :
  let direction := THREE.normalize (THREE.sub to from) in
  let d := THREE.length (THREE.sub to from) in
  let g' :=
    Enemy.moveXZ
      (THREE.set_rotation_y g
         (Math.atan2 (THREE.x direction) (THREE.z direction)))
      direction speed in
  let tx := THREE.x to - THREE.x from in
  let tz := THREE.z to - THREE.z from in
  THREE.x (THREE.position g') = THREE.x (THREE.position g) + tx * (speed / d)
  /\ THREE.y (THREE.position g') = THREE.y (THREE.position g)
  /\ THREE.z (THREE.position g') = THREE.z (THREE.position g) + tz * (speed / d)
  /\ THREE.rotation_y g' = Math.atan2 tx tz.
Proof.
  intros direction d g' tx tz.
  destruct (Rle_lt_or_eq_dec _ _ (length_nonneg (THREE.sub to from)))
    as [Hpos | Hzero].
  - fold d in Hpos.
    assert (Hdir : direction = THREE.Vec3 (tx * (1 / d))
                                 (THREE.y (THREE.sub to from) * (1 / d))
                                 (tz * (1 / d))).
    { unfold direction. rewrite normalize_positive by exact Hpos. reflexivity. }
    unfold g', Enemy.moveXZ. rewrite Hdir.
    cbn [THREE.x THREE.y THREE.z THREE.position THREE.set_position
         THREE.set_rotation_y THREE.rotation_y].
    repeat split.
    + field. lra.
    + field. lra.
    + apply atan2_scale. apply Rdiv_lt_0_compat; lra.
  - symmetry in Hzero.
    assert (Hdir : direction = THREE.Vec3 0 0 0)
      by (apply normalize_zero; exact Hzero).
    pose proof (length_zero_inv _ Hzero) as Hv.
    assert (Htx : tx = 0) by (apply (f_equal THREE.x) in Hv; exact Hv).
    assert (Htz : tz = 0) by (apply (f_equal THREE.z) in Hv; exact Hv).
    unfold g', Enemy.moveXZ. rewrite Hdir, Htx, Htz.
    cbn [THREE.x THREE.y THREE.z THREE.position THREE.set_position
         THREE.set_rotation_y THREE.rotation_y].
    repeat split; lra.
Qed.

(** C2. A live enemy whose group is mounted, at a distance d from the
    player with attackRadius < d <= detectionRadius: after one frame its
    [aggroState] is "chase" if it is a wolf or a bear and "flee" if it is a
    deer, never "attack" or "idle"; it makes no attack. A predator is moved
    in x and z along the vector to the player by 0.05 * delta * 60 (times
    that vector over d) and turned to the angle of that vector; a deer is
    moved along the opposite vector by 0.08 * delta * 60 and turned to the
    angle of the opposite vector. When the two are not on one vertical line
    the heading (sin, cos of the rotation) is the unit vector to the player,
    respectively away from it. *)
Theorem in_detection_band_chases_or_flees :
  forall (now : Z) (delta : R) (playerPosition : THREE.Vector3)
         (c : Enemy.Instance) (g : THREE.Object3D),
    Enemy.group c = Some g ->
    EnemyType.isDead (Enemy.enemy c) = false ->
    let e := Enemy.enemy c in
    let at_ := GameTypes.Vector3_of (EnemyType.position e) in
    let d := THREE.distanceTo at_ playerPosition in
    EnemyType.attackRadius e < d <= EnemyType.detectionRadius e ->
    let result := Enemy.useFrame now delta playerPosition c in
    let after := Enemy.enemy (fst result) in
    let tx := THREE.x playerPosition - THREE.x at_ in
    let tz := THREE.z playerPosition - THREE.z at_ in
    snd result = [] /\
    EnemyType.aggroState after <> Aggro.attack /\
    EnemyType.aggroState after <> Aggro.idle /\
    exists g',
      Enemy.group (fst result) = Some g' /\
      THREE.y (THREE.position g') = THREE.y (THREE.position g) /\
      (EnemyType.type e = GameTypes.wolf \/ EnemyType.type e = GameTypes.bear ->
       EnemyType.aggroState after = Aggro.chase /\
       THREE.x (THREE.position g')
       = THREE.x (THREE.position g) + tx * (0.05 * delta * 60 / d) /\
       THREE.z (THREE.position g')
       = THREE.z (THREE.position g) + tz * (0.05 * delta * 60 / d) /\
       THREE.rotation_y g' = Math.atan2 tx tz /\
       (tx <> 0 \/ tz <> 0 ->
        sin (THREE.rotation_y g') = tx / sqrt (tz * tz + tx * tx) /\
        cos (THREE.rotation_y g') = tz / sqrt (tz * tz + tx * tx)))
      /\
      (EnemyType.type e = GameTypes.deer ->
       EnemyType.aggroState after = Aggro.flee /\
       THREE.x (THREE.position g')
       = THREE.x (THREE.position g) - tx * (0.08 * delta * 60 / d) /\
       THREE.z (THREE.position g')
       = THREE.z (THREE.position g) - tz * (0.08 * delta * 60 / d) /\
       THREE.rotation_y g' = Math.atan2 (- tx) (- tz) /\
       (tx <> 0 \/ tz <> 0 ->
        sin (THREE.rotation_y g') = - tx / sqrt (tz * tz + tx * tx) /\
        cos (THREE.rotation_y g') = - tz / sqrt (tz * tz + tx * tx))).
Proof.
  intros now delta playerPosition c g Hg Hlive e at_ d [Hlo Hhi] result after
         tx tz.
  destruct (distanceTo_length at_ playerPosition) as [Hto Haway].
  fold d in Hto, Haway.
  assert (Hpos : forall prev,
             EnemyType.aggroState
               (EnemyType.with_position_rotation prev
                  (GameTypes.Triple_of (THREE.position g))
                  (0, THREE.rotation_y g, 0))
             = EnemyType.aggroState prev) by reflexivity.
  unfold after, result, Enemy.useFrame. rewrite Hg, Hlive.
  fold e. fold at_. fold d.
  rewrite (leb_false d (EnemyType.attackRadius e)) by exact Hlo.
  rewrite (leb_true d (EnemyType.detectionRadius e)) by exact Hhi.
  cbn [andb].
  destruct (EnemyType.type e) eqn:Hty; cbn [GameTypes.EnemyKind_eqb fst snd
    Enemy.enemy Enemy.group].
  1, 2: rewrite aggroState_after_frame by exact Hpos.
  3: rewrite aggroState_after_frame by exact Hpos.
  1, 2: split; [reflexivity | split; [discriminate | split; [discriminate |]]];
    eexists; split; [reflexivity |];
    destruct (band_step g at_ playerPosition (0.05 * delta * 60))
      as [Hx [Hy [Hz Hrot]]];
    unfold THREE.subVectors; rewrite <- Hto in Hx, Hz;
    split; [exact Hy | split; [| intros Hdeer; discriminate]];
    intros _; split; [reflexivity |];
    split; [exact Hx | split; [exact Hz | split; [exact Hrot |]]];
    intros Hnz; rewrite Hrot; apply atan2_sin_cos; tauto.
  split; [reflexivity | split; [discriminate | split; [discriminate |]]].
  eexists; split; [reflexivity |].
  destruct (band_step g playerPosition at_ (0.08 * delta * 60))
    as [Hx [Hy [Hz Hrot]]].
  rewrite <- Haway in Hx, Hz.
  split; [exact Hy | split; [intros [H | H]; discriminate |]].
  intros _. split; [reflexivity |].
  assert (Ex : THREE.x at_ - THREE.x playerPosition = - tx) by (unfold tx; lra).
  assert (Ez : THREE.z at_ - THREE.z playerPosition = - tz) by (unfold tz; lra).
  rewrite Ex, Ez in *.
  split; [rewrite Hx; lra | split; [rewrite Hz; lra | split; [exact Hrot |]]].
  intros Hnz. rewrite Hrot.
  replace (tz * tz + tx * tx) with (- tz * - tz + - tx * - tx) by ring.
  apply atan2_sin_cos. destruct Hnz; [right | left]; lra.
Qed.

Lemma wolf_five_away :
  THREE.distanceTo (THREE.Vec3 0 0 0) (THREE.Vec3 0 0 5) = 5.
Proof.
  unfold THREE.distanceTo, Math.sqrt. cbn.
  replace ((0 - 0) * (0 - 0) + (0 - 0) * (0 - 0) + (0 - 5) * (0 - 5))
    with (5 * 5) by lra.
  apply sqrt_square. lra.
Qed.

Lemma in_detection_band_witness :
  let wolf := Enemy.mount (Enemy.mkProps "wolf-0" (0, 0, 0) GameTypes.wolf) in
  let player := THREE.Vec3 0 0 5 in
  let d := THREE.distanceTo
             (GameTypes.Vector3_of (EnemyType.position (Enemy.enemy wolf)))
             player in
  Enemy.group wolf = Some (THREE.Obj (THREE.Vec3 0 0 0) 0) /\
  EnemyType.isDead (Enemy.enemy wolf) = false /\
  EnemyType.attackRadius (Enemy.enemy wolf) < d
    <= EnemyType.detectionRadius (Enemy.enemy wolf) /\
  EnemyType.aggroState
    (Enemy.enemy (fst (Enemy.useFrame 0 0.016 player wolf)))
  <> Aggro.idle.
Proof.
  intros wolf player d.
  assert (Hd : EnemyType.attackRadius (Enemy.enemy wolf) < d
               <= EnemyType.detectionRadius (Enemy.enemy wolf)).
  { unfold d. cbn [wolf Enemy.mount Enemy.enemy Enemy.initialState
                   EnemyType.position GameTypes.Vector3_of
                   EnemyType.attackRadius EnemyType.detectionRadius
                   Enemy.type Enemy.baseStats Enemy.stat_attackRadius
                   Enemy.stat_detectionRadius Enemy.initialPosition].
    unfold player. rewrite wolf_five_away. lra. }
  split; [reflexivity | split; [reflexivity | split; [exact Hd |]]].
  exact (proj1 (proj2 (proj2
           (in_detection_band_chases_or_flees 0%Z 0.016 player wolf
              (THREE.Obj (THREE.Vec3 0 0 0) 0) eq_refl eq_refl Hd)))).
Defined.

(** ** The sword of the player *)

(** As the game delivers it, every blow that lands takes 20 from the health
    of the first render. *)
Lemma cos_attack_arc_lt_1 : Math.cos (Game.attackAngle / 2) < 1.
Proof.
  unfold Math.cos, Game.attackAngle, Math.PI.
  rewrite <- cos_0. pose proof PI_RGT_0.
  apply cos_decreasing_1; lra.
Qed.

Lemma wolf_in_front_is_hit :
  Game.isHit (THREE.Vec3 0 0 0) (THREE.Vec3 0 0 1) (THREE.Vec3 0 0 1) = true.
Proof.
  unfold Game.isHit.
  assert (Hlen : THREE.length
                   (THREE.subVectors (THREE.Vec3 0 0 1) (THREE.Vec3 0 0 0)) = 1).
  { unfold THREE.length, Math.sqrt. cbn.
    replace ((0 - 0) * (0 - 0) + (0 - 0) * (0 - 0) + (1 - 0) * (1 - 0))
      with 1 by lra.
    apply sqrt_1. }
  rewrite Hlen, leb_true by (unfold Game.attackRange; lra).
  rewrite normalize_positive, Hlen by lra.
  apply gtb_true. pose proof cos_attack_arc_lt_1.
  unfold THREE.dot. cbn. lra.
Qed.

Lemma sword_blow_on_wolf (e : EnemyType.t) (state : GameTypes.GameState) :
  Game.handlePlayerAttack (THREE.Vec3 0 0 0) (THREE.Vec3 0 0 1)
    (wolf_world e state)
  = (wolf_world
       (EnemyType.with_health_isDead e
          (EnemyType.health (Enemy.initialState wolf_props) - 20) false)
       state,
     []).
Proof.
  unfold Game.handlePlayerAttack, wolf_world, Game.deliver.
  cbn - [Game.isHit Enemy.takeDamage Enemy.initialState].
  rewrite wolf_in_front_is_hit.
  cbn - [Enemy.takeDamage Enemy.initialState].
  rewrite takeDamage_survives by (cbn; lra).
  reflexivity.
Qed.

Lemma three_sword_blows_leave_wolf_at_30 :
  let blow (w : Game.World) :=
    fst (Game.handlePlayerAttack (THREE.Vec3 0 0 0) (THREE.Vec3 0 0 1) w) in
  let w3 := blow (blow (blow (wolf_world (Enemy.initialState wolf_props)
                                Game.gameState0))) in
  map (fun c => EnemyType.health (Enemy.enemy c)) (Game.scene w3) = [30] /\
  map Game.id (Game.enemies w3) = ["wolf-0"%string] /\
  GameTypes.score (Game.gameState w3) = 0.
Proof.
  cbn beta zeta. repeat (rewrite sword_blow_on_wolf; cbn [fst]).
  cbn. repeat split; try reflexivity. f_equal. lra.
Qed.

(** ** The enemies the game reaches are live and mounted *)

Lemma applyUpdates_isDead (us : list Enemy.Updater) (e : EnemyType.t) :
  Forall (fun u => forall prev, EnemyType.isDead (u prev) = EnemyType.isDead prev)
         us ->
  EnemyType.isDead (React.applyUpdates us e) = EnemyType.isDead e.
Proof.
  intros H. revert e. induction H as [| u us Hu _ IH]; intros e; [reflexivity |].
  cbn. unfold React.applyUpdates in IH. rewrite IH. apply Hu.
Qed.

Lemma useFrame_keeps_life (now : Z) (delta : R)
    (playerPosition : THREE.Vector3) (c : Enemy.Instance) :
  let c' := fst (Enemy.useFrame now delta playerPosition c) in
  EnemyType.isDead (Enemy.enemy c') = EnemyType.isDead (Enemy.enemy c) /\
  (Enemy.group c <> None -> Enemy.group c' <> None).
Proof.
  unfold Enemy.useFrame.
  destruct (Enemy.group c) as [g |] eqn:Hg; [| cbn; rewrite Hg; tauto].
  destruct (EnemyType.isDead (Enemy.enemy c)) eqn:Hd;
    [cbn; rewrite Hg, Hd; split; [reflexivity | discriminate] |].
  repeat match goal with
         | |- context [if ?b then _ else _] =>
             match type of b with
             | bool => destruct b
             end
         end;
    cbn [fst Enemy.enemy Enemy.group]; (split; [| discriminate]);
    rewrite applyUpdates_isDead; try exact Hd;
    repeat constructor.
Qed.

(** The sword is the only caller of [group.takeDamage], with 20: along the
    frames, sword blows and timers of a game no enemy is ever marked dead,
    and its group stays mounted. *)
Lemma enemies_stay_live_and_mounted (p : Enemy.Props) (evs : list Enemy.Event) :
  Forall (fun ev => forall amount, ev = Enemy.TakeDamage amount -> amount = 20)
         evs ->
  let c := fst (Enemy.run evs (Enemy.mount p)) in
  EnemyType.isDead (Enemy.enemy c) = false /\ Enemy.group c <> None.
Proof.
  intros Hevs.
  assert (Hgen : forall c,
             EnemyType.isDead (Enemy.enemy c) = false ->
             Enemy.group c <> None ->
             Enemy.group_takeDamage c
             = Some (Enemy.takeDamage (Enemy.initialState p)) ->
             EnemyType.isDead (Enemy.enemy (fst (Enemy.run evs c))) = false /\
             Enemy.group (fst (Enemy.run evs c)) <> None).
  { induction Hevs as [| ev evs Hev _ IH]; intros c Hd Hg Hf; [tauto |].
    destruct ev as [now delta playerPosition | amount |]; cbn [Enemy.run].
    - pose proof (useFrame_keeps_life now delta playerPosition c) as [H1 H2].
      pose proof (useFrame_keeps_takeDamage now delta playerPosition c)
        as [H3 _].
      destruct (Enemy.useFrame now delta playerPosition c) as [c1 attacks].
      specialize (IH c1). destruct (Enemy.run evs c1) as [c2 later].
      cbn [fst] in *. apply IH; [congruence | tauto | congruence].
    - rewrite (Hev amount eq_refl). apply IH.
      + unfold Enemy.callTakeDamage. rewrite Hf.
        destruct (Enemy.group c); [| exact Hd].
        rewrite takeDamage_survives by (destruct p as [i pos []]; cbn; lra).
        reflexivity.
      + unfold Enemy.callTakeDamage. rewrite Hf.
        destruct (Enemy.group c) eqn:E; [| contradiction].
        destruct (Enemy.takeDamage (Enemy.initialState p) 20). cbn.
        rewrite E. discriminate.
      + unfold Enemy.callTakeDamage. rewrite Hf.
        destruct (Enemy.group c); [| exact Hf].
        destruct (Enemy.takeDamage (Enemy.initialState p) 20). exact Hf.
    - apply IH; [exact Hd | exact Hg | exact Hf]. }
  apply Hgen; [reflexivity | discriminate | reflexivity].
Qed.


(** * Further properties of the code *)

(** ** The hover tank: steering, heading and movement *)

Lemma hover_steering_after (now : Z) (delta : R) (car : THREE.Object3D)
    (carData : CarGame.CarData) (controls : CarGame.Controls) :
  CarGame.steeringAngle
    (CarGame.carDataRef
       (CarGame.updateCar now delta
          (CarGame.mkRefs (Some car) carData controls)))
  = CarGame.clampSteering carData
      (CarGame.applySteering controls
         (CarGame.steeringSpeed carData * delta * 60)
         (CarGame.steeringReturn carData * delta * 60)
         (CarGame.steeringAngle carData)).
Proof. reflexivity. Qed.


Lemma hover_steering_in_limits (now : Z) (delta : R) (car : THREE.Object3D)
    (carData : CarGame.CarData) (controls : CarGame.Controls) :
  0 <= CarGame.maxSteeringAngle carData ->
  Rabs (CarGame.steeringAngle
          (CarGame.carDataRef
             (CarGame.updateCar now delta
                (CarGame.mkRefs (Some car) carData controls))))
  <= CarGame.maxSteeringAngle carData.
Proof.
  intros Hm. rewrite hover_steering_after. unfold CarGame.clampSteering.
  pose proof (clamp_between
                (CarGame.applySteering controls
                   (CarGame.steeringSpeed carData * delta * 60)
                   (CarGame.steeringReturn carData * delta * 60)
                   (CarGame.steeringAngle carData))
                (- CarGame.maxSteeringAngle carData)
                (CarGame.maxSteeringAngle carData)) as H.
  apply Rabs_le. lra.
Qed.

Lemma hover_speed_in_limits (now : Z) (delta : R) (car : THREE.Object3D)
    (carData : CarGame.CarData) (controls : CarGame.Controls) :
  0 <= CarGame.maxSpeed carData ->
  Rabs (CarGame.speed
          (CarGame.carDataRef
             (CarGame.updateCar now delta
                (CarGame.mkRefs (Some car) carData controls))))
  <= CarGame.maxSpeed carData.
Proof.
  intros Hm. rewrite hover_speed_after. unfold CarGame.clampSpeed.
  pose proof (clamp_between
                (CarGame.applyFriction carData delta
                   (CarGame.applyBraking controls
                      (CarGame.acceleration carData * delta * 60)
                      (CarGame.brakeStrength carData * delta * 60)
                      (CarGame.applyAcceleration controls
                         (CarGame.acceleration carData * delta * 60)
                         (CarGame.speed carData))))
                (- CarGame.maxSpeed carData * 0.5)
                (CarGame.maxSpeed carData)) as H.
  apply Rabs_le. lra.
Qed.

(** X1. After a frame of the hover tank the steering angle lies in
    [-maxSteeringAngle, maxSteeringAngle], whatever the state, the flags and
    the elapsed time, for a created car and a non-negative
    [maxSteeringAngle] (0.05 in the code, which the frame leaves alone). *)
Theorem steering_within_limits_after_frame :
  forall (now : Z) (delta : R) (car : THREE.Object3D)
         (carData : CarGame.CarData) (controls : CarGame.Controls),
    0 <= CarGame.maxSteeringAngle carData ->
    let after :=
      CarGame.carDataRef
        (CarGame.updateCar now delta
           (CarGame.mkRefs (Some car) carData controls)) in
    CarGame.maxSteeringAngle after = CarGame.maxSteeringAngle carData /\
    Rabs (CarGame.steeringAngle after) <= CarGame.maxSteeringAngle after.
Proof.
  intros now delta car carData controls Hm after.
  split; [reflexivity |].
  change (CarGame.maxSteeringAngle after) with (CarGame.maxSteeringAngle carData).
  apply hover_steering_in_limits. exact Hm.
Qed.

Lemma steering_within_limits_witness :
  0 <= CarGame.maxSteeringAngle CarGame.carData0 /\
  Rabs (CarGame.steeringAngle
          (CarGame.carDataRef
             (CarGame.updateCar 0 0.1
                (CarGame.mkRefs (Some CarGame.car0) CarGame.carData0
                   (CarGame.mkControls false false true false false)))))
  <= CarGame.maxSteeringAngle CarGame.carData0.
Proof.
  assert (H : 0 <= CarGame.maxSteeringAngle CarGame.carData0) by (cbn; lra).
  split; [exact H |].
  exact (proj2 (steering_within_limits_after_frame 0%Z 0.1 CarGame.car0
                  CarGame.carData0
                  (CarGame.mkControls false false true false false) H)).
Defined.

(** X2. With neither [left] nor [right] held, a steering angle within its
    limits relaxes toward 0 by the scaled return rate and stops at 0: its
    size after the frame is max(0, size before - steeringReturn * delta * 60)
    and it never changes sign. *)
Theorem steering_returns_without_overshoot :
  forall (now : Z) (delta : R) (car : THREE.Object3D)
         (carData : CarGame.CarData) (forward backward shoot : bool),
    0 <= CarGame.steeringReturn carData * delta * 60 ->
    Rabs (CarGame.steeringAngle carData) <= CarGame.maxSteeringAngle carData ->
    let before := CarGame.steeringAngle carData in
    let after :=
      CarGame.steeringAngle
        (CarGame.carDataRef
           (CarGame.updateCar now delta
              (CarGame.mkRefs (Some car) carData
                 (CarGame.mkControls forward backward false false shoot)))) in
    Rabs after
    = Rmax 0 (Rabs before - CarGame.steeringReturn carData * delta * 60)
    /\ 0 <= before * after.
Proof.
  intros now delta car carData forward backward shoot Hret Hlim before after.
  unfold after. rewrite hover_steering_after.
  unfold CarGame.clampSteering, CarGame.applySteering.
  cbn [CarGame.left CarGame.right]. fold before.
  set (ret := CarGame.steeringReturn carData * delta * 60) in *.
  set (m := CarGame.maxSteeringAngle carData) in *.
  fold before in Hlim.
  assert (Hb : - m <= before <= m)
    by (revert Hlim; unfold Rabs; destruct (Rcase_abs before); lra).
  unfold Math.max, Math.min, Rmax, Rmin, Rabs.
  split_tests; split; nra.
Qed.

Lemma steering_returns_witness :
  let carData := CarGame.set_steeringAngle CarGame.carData0 0.05 in
  0 <= CarGame.steeringReturn carData * (1 / 60) * 60 /\
  Rabs (CarGame.steeringAngle carData) <= CarGame.maxSteeringAngle carData /\
  Rabs (CarGame.steeringAngle
          (CarGame.carDataRef
             (CarGame.updateCar 0 (1 / 60)
                (CarGame.mkRefs (Some CarGame.car0) carData
                   (CarGame.mkControls true false false false false)))))
  = Rmax 0 (Rabs (CarGame.steeringAngle carData)
            - CarGame.steeringReturn carData * (1 / 60) * 60).
Proof.
  intros carData.
  assert (H1 : 0 <= CarGame.steeringReturn carData * (1 / 60) * 60)
    by (cbn; lra).
  assert (H2 : Rabs (CarGame.steeringAngle carData)
               <= CarGame.maxSteeringAngle carData).
  { cbn. rewrite Rabs_right; lra. }
  split; [exact H1 | split; [exact H2 |]].
  exact (proj1 (steering_returns_without_overshoot 0%Z (1 / 60) CarGame.car0
                  carData true false false H1 H2)).
Defined.

Lemma abs_times_sign (s : R) : Math.abs s * Math.sign s = s.
Proof.
  unfold Math.abs, Math.sign, Rabs. split_tests; lra.
Qed.

Lemma hover_heading_after (now : Z) (delta : R) (car : THREE.Object3D)
    (carData : CarGame.CarData) (controls : CarGame.Controls) :
  let after :=
    CarGame.updateCar now delta (CarGame.mkRefs (Some car) carData controls) in
  exists car',
    CarGame.carRef after = Some car' /\
    THREE.rotation_y car'
    = THREE.rotation_y car
      + CarGame.steeringAngle (CarGame.carDataRef after)
        * Math.abs (CarGame.speed (CarGame.carDataRef after))
        / CarGame.maxSpeed carData
        * Math.sign (CarGame.speed (CarGame.carDataRef after)) /\
    CarGame.direction (CarGame.carDataRef after)
    = THREE.Vec3 (sin (THREE.rotation_y car')) 0 (cos (THREE.rotation_y car')).
Proof.
  intros after. eexists. split; [reflexivity |]. split; [reflexivity |].
  match goal with
  | |- _ = THREE.Vec3 (sin ?r) _ _ =>
      change (THREE.Vec3 (0 * cos r + 1 * sin r) 0 (1 * cos r - 0 * sin r)
              = THREE.Vec3 (sin r) 0 (cos r))
  end.
  f_equal; lra.
Qed.

(** X3. A frame of the hover tank turns the heading by
    steeringAngle * speed / maxSpeed, taken after the frame's own updates:
    the turn follows the sign of the speed (it reverses when reversing), is
    nil at rest, and is never larger than [maxSteeringAngle]. *)
Theorem heading_turn_is_speed_proportional :
  forall (now : Z) (delta : R) (car : THREE.Object3D)
         (carData : CarGame.CarData) (controls : CarGame.Controls),
    0 < CarGame.maxSpeed carData ->
    0 <= CarGame.maxSteeringAngle carData ->
    let after :=
      CarGame.updateCar now delta (CarGame.mkRefs (Some car) carData controls) in
    let angle := CarGame.steeringAngle (CarGame.carDataRef after) in
    let speed := CarGame.speed (CarGame.carDataRef after) in
    exists car',
      CarGame.carRef after = Some car' /\
      THREE.rotation_y car' - THREE.rotation_y car
      = angle * speed / CarGame.maxSpeed carData /\
      Rabs (THREE.rotation_y car' - THREE.rotation_y car)
      <= CarGame.maxSteeringAngle carData.
Proof.
  intros now delta car carData controls Hm Ha after angle speed.
  destruct (hover_heading_after now delta car carData controls)
    as [car' [Hcar [Hrot _]]].
  fold after in Hcar, Hrot. fold angle speed in Hrot.
  exists car'. split; [exact Hcar |].
  assert (Hturn : THREE.rotation_y car' - THREE.rotation_y car
                  = angle * speed / CarGame.maxSpeed carData).
  { rewrite Hrot. pose proof (abs_times_sign speed) as Hs.
    replace (angle * Math.abs speed / CarGame.maxSpeed carData * Math.sign speed)
      with (angle * (Math.abs speed * Math.sign speed)
            / CarGame.maxSpeed carData) by (field; lra).
    rewrite Hs. lra. }
  split; [exact Hturn |]. rewrite Hturn.
  pose proof (hover_speed_in_limits now delta car carData controls
                (Rlt_le _ _ Hm)) as Hsp.
  pose proof (hover_steering_in_limits now delta car carData controls Ha)
    as Han.
  fold after in Hsp, Han. fold speed in Hsp. fold angle in Han.
  unfold Rdiv. rewrite !Rabs_mult.
  rewrite (Rabs_right (/ CarGame.maxSpeed carData))
    by (left; apply Rinv_0_lt_compat; exact Hm).
  assert (Hq : Rabs speed * / CarGame.maxSpeed carData <= 1).
  { apply Rmult_le_reg_r with (r := CarGame.maxSpeed carData); [exact Hm |].
    rewrite Rmult_assoc, Rinv_l by lra. lra. }
  pose proof (Rabs_pos angle). pose proof (Rabs_pos speed).
  assert (0 <= Rabs speed * / CarGame.maxSpeed carData).
  { apply Rmult_le_pos; [assumption | left; apply Rinv_0_lt_compat; exact Hm]. }
  rewrite Rmult_assoc. nra.
Qed.

(** X4. In a frame the hover tank moves, in the horizontal plane, a distance
    equal to the size of its speed after the frame, along the unit vector of
    its new heading: at most [maxSpeed] per frame, whatever the elapsed
    time. *)
Theorem hover_moves_by_its_speed :
  forall (now : Z) (delta : R) (car : THREE.Object3D)
         (carData : CarGame.CarData) (controls : CarGame.Controls),
    0 <= CarGame.maxSpeed carData ->
    let after :=
      CarGame.updateCar now delta (CarGame.mkRefs (Some car) carData controls) in
    let speed := CarGame.speed (CarGame.carDataRef after) in
    exists car',
      CarGame.carRef after = Some car' /\
      let dx := THREE.x (THREE.position car') - THREE.x (THREE.position car) in
      let dz := THREE.z (THREE.position car') - THREE.z (THREE.position car) in
      dx = sin (THREE.rotation_y car') * speed /\
      dz = cos (THREE.rotation_y car') * speed /\
      sqrt (dx * dx + dz * dz) = Rabs speed /\
      sqrt (dx * dx + dz * dz) <= CarGame.maxSpeed carData.
Proof.
  intros now delta car carData controls Hm after speed.
  destruct (hover_heading_after now delta car carData controls)
    as [car' [Hcar [_ Hdir]]].
  destruct (hover_position_after now delta car carData controls)
    as [car2 [Hcar2 Hpos]].
  fold after in Hcar, Hdir, Hcar2, Hpos.
  assert (car2 = car') by congruence. subst car2.
  exists car'. split; [exact Hcar |].
  rewrite Hpos, Hdir. cbn [THREE.x THREE.y THREE.z]. fold speed.
  set (h := THREE.rotation_y car').
  assert (Hdx : THREE.x (THREE.position car) + sin h * speed
                - THREE.x (THREE.position car) = sin h * speed) by lra.
  assert (Hdz : THREE.z (THREE.position car) + cos h * speed
                - THREE.z (THREE.position car) = cos h * speed) by lra.
  cbn zeta. rewrite Hdx, Hdz.
  assert (Hlen : sqrt (sin h * speed * (sin h * speed)
                       + cos h * speed * (cos h * speed)) = Rabs speed).
  { replace (sin h * speed * (sin h * speed) + cos h * speed * (cos h * speed))
      with (Rsqr speed).
    - apply sqrt_Rsqr_abs.
    - pose proof (sin2_cos2 h) as H. unfold Rsqr in *. nra. }
  repeat split; try exact Hlen.
  rewrite Hlen. unfold speed, after.
  apply hover_speed_in_limits. exact Hm.
Qed.

Lemma hover_moves_witness :
  0 <= CarGame.maxSpeed CarGame.carData0 /\
  exists car',
    CarGame.carRef
      (CarGame.updateCar 0 0.1
         (CarGame.mkRefs (Some CarGame.car0) CarGame.carData0
            (CarGame.mkControls true false true false false)))
    = Some car' /\
    sqrt ((THREE.x (THREE.position car') - THREE.x (THREE.position CarGame.car0))
          * (THREE.x (THREE.position car')
             - THREE.x (THREE.position CarGame.car0))
          + (THREE.z (THREE.position car')
             - THREE.z (THREE.position CarGame.car0))
            * (THREE.z (THREE.position car')
               - THREE.z (THREE.position CarGame.car0)))
    <= CarGame.maxSpeed CarGame.carData0.
Proof.
  assert (H : 0 <= CarGame.maxSpeed CarGame.carData0) by (cbn; lra).
  split; [exact H |].
  destruct (hover_moves_by_its_speed 0%Z 0.1 CarGame.car0 CarGame.carData0
              (CarGame.mkControls true false true false false) H)
    as [car' [Hcar [_ [_ [_ Hle]]]]].
  exists car'. split; [exact Hcar | exact Hle].
Defined.

(** The friction factor of a frame, for a friction constant in (0, 1). *)
Lemma friction_factor_range (f k : R) :
  0 < f < 1 -> 0 <= k -> 0 < Rpower f k <= 1.
Proof.
  intros [Hf0 Hf1] Hk. unfold Rpower. split; [apply exp_pos |].
  pose proof (ln_le_minus_1 f Hf0) as Hl.
  destruct (Req_dec_T (k * ln f) 0) as [E | E].
  - rewrite E, exp_0. lra.
  - left. rewrite <- exp_0. apply exp_increasing. nra.
Qed.

Lemma hover_coasting_frame (now : Z) (delta : R) (car : THREE.Object3D)
    (carData : CarGame.CarData) (left right shoot : bool) :
  0 <= delta ->
  0 < CarGame.friction carData < 1 ->
  0 <= CarGame.maxSpeed carData ->
  - CarGame.maxSpeed carData * 0.5 <= CarGame.speed carData
    <= CarGame.maxSpeed carData ->
  CarGame.speed
    (CarGame.carDataRef
       (CarGame.updateCar now delta
          (CarGame.mkRefs (Some car) carData
             (CarGame.mkControls false false left right shoot))))
  = CarGame.speed carData * Rpower (CarGame.friction carData) (delta * 60).
Proof.
  intros Hd Hf Hm Hs. rewrite hover_speed_after.
  unfold CarGame.clampSpeed, CarGame.applyFriction, CarGame.applyBraking,
    CarGame.applyAcceleration, Math.pow.
  cbn [CarGame.forward CarGame.backward].
  destruct (friction_factor_range (CarGame.friction carData) (delta * 60) Hf)
    as [Hx0 Hx1]; [lra |].
  set (x := Rpower (CarGame.friction carData) (delta * 60)) in *.
  set (s := CarGame.speed carData) in *.
  set (m := CarGame.maxSpeed carData) in *.
  assert (H1 : s * x <= m) by nra.
  assert (H2 : - m * 0.5 <= s * x) by nra.
  unfold Math.max, Math.min, Rmax, Rmin. split_tests; lra.
Qed.

(** X5. With [forward] and [backward] released the hover tank only loses
    speed to friction: after n frames at one elapsed time delta >= 0 its
    speed is the speed before times (friction^(delta*60))^n, for a friction
    constant in (0, 1) (0.99 in the code). The speed keeps its sign and is
    never snapped to zero: a moving tank never comes to an exact stop. *)
Theorem hover_coasting_decays_without_stopping :
  forall (delta : R) (car : THREE.Object3D) (carData : CarGame.CarData)
         (left right shoot : bool) (nows : list Z),
    0 <= delta ->
    0 < CarGame.friction carData < 1 ->
    0 <= CarGame.maxSpeed carData ->
    - CarGame.maxSpeed carData * 0.5 <= CarGame.speed carData
      <= CarGame.maxSpeed carData ->
    let after :=
      CarGame.speed
        (CarGame.carDataRef
           (CarGame.frames nows delta
              (CarGame.mkRefs (Some car) carData
                 (CarGame.mkControls false false left right shoot)))) in
    after = CarGame.speed carData
            * Rpower (CarGame.friction carData) (delta * 60)
              ^ List.length nows
    /\ (CarGame.speed carData <> 0 -> after <> 0).
Proof.
  intros delta car carData left right shoot nows Hd Hf Hm Hs after.
  destruct (friction_factor_range (CarGame.friction carData) (delta * 60) Hf)
    as [Hx0 Hx1]; [lra |].
  assert (Hform : after = CarGame.speed carData
                          * Rpower (CarGame.friction carData) (delta * 60)
                            ^ List.length nows).
  { unfold after. clear after. revert car carData Hf Hm Hs Hx0 Hx1.
    induction nows as [| now nows IH]; intros car carData Hf Hm Hs Hx0 Hx1.
    - cbn. lra.
    - cbn [CarGame.frames List.length pow].
      pose proof (hover_coasting_frame now delta car carData left right shoot
                    Hd Hf Hm Hs) as Hstep.
      destruct (hover_position_after now delta car carData
                  (CarGame.mkControls false false left right shoot))
        as [car' [Hcar _]].
      set (r' := CarGame.updateCar now delta _) in *.
      assert (Hr' : r' = CarGame.mkRefs (Some car') (CarGame.carDataRef r')
                           (CarGame.mkControls false false left right shoot)).
      { unfold r' in *. unfold CarGame.updateCar in *.
        cbn [CarGame.carRef CarGame.carDataRef CarGame.controlsRef] in *.
        injection Hcar as <-. reflexivity. }
      rewrite Hr'.
      assert (Hf' : CarGame.friction (CarGame.carDataRef r')
                    = CarGame.friction carData) by reflexivity.
      assert (Hm' : CarGame.maxSpeed (CarGame.carDataRef r')
                    = CarGame.maxSpeed carData) by reflexivity.
      rewrite IH.
      + rewrite Hstep, Hf'. ring.
      + rewrite Hf'. exact Hf.
      + rewrite Hm'. exact Hm.
      + rewrite Hm', Hstep.
        set (x := Rpower (CarGame.friction carData) (delta * 60)) in *.
        split; nra.
      + rewrite Hf'. exact Hx0.
      + rewrite Hf'. exact Hx1. }
  split; [exact Hform |].
  intros Hnz. rewrite Hform.
  apply Rmult_integral_contrapositive_currified; [exact Hnz |].
  apply pow_nonzero. lra.
Qed.

Lemma hover_coasting_witness :
  let carData := CarGame.set_speed CarGame.carData0 0.4 in
  0 <= 0.016 /\
  0 < CarGame.friction carData < 1 /\
  0 <= CarGame.maxSpeed carData /\
  - CarGame.maxSpeed carData * 0.5 <= CarGame.speed carData
    <= CarGame.maxSpeed carData /\
  CarGame.speed carData <> 0 /\
  CarGame.speed
    (CarGame.carDataRef
       (CarGame.frames [16%Z; 32%Z; 48%Z] 0.016
          (CarGame.mkRefs (Some CarGame.car0) carData
             (CarGame.mkControls false false false false false))))
  <> 0.
Proof.
  intros carData.
  assert (H1 : 0 <= 0.016) by lra.
  assert (H2 : 0 < CarGame.friction carData < 1) by (cbn; lra).
  assert (H3 : 0 <= CarGame.maxSpeed carData) by (cbn; lra).
  assert (H4 : - CarGame.maxSpeed carData * 0.5 <= CarGame.speed carData
               <= CarGame.maxSpeed carData) by (cbn; lra).
  assert (H5 : CarGame.speed carData <> 0) by (cbn; lra).
  repeat (split; [assumption |]).
  exact (proj2 (hover_coasting_decays_without_stopping 0.016 CarGame.car0
                  carData false false false [16%Z; 32%Z; 48%Z] H1 H2 H3 H4)
               H5).
Defined.

(** ** The hover tank: [animate], shooting, projectiles and explosions *)

Ltac split_state_tests :=
  repeat match goal with
         | |- context [Rle_dec ?a ?b] => destruct (Rle_dec a b)
         | |- context [Rgt_dec ?a ?b] => destruct (Rgt_dec a b)
         | |- context [Rge_dec ?a ?b] => destruct (Rge_dec a b)
         end.

(** What [updateProjectile] does to the state besides the scene, the
    scheduled explosions and the id counter: nothing. *)
Lemma updateProjectile_frame (delta : R) (p : Tank.Projectile) (s : Tank.State) :
  let s' := snd (Tank.updateProjectile delta p s) in
  Tank.refs s' = Tank.refs s /\
  Tank.cameraRef s' = Tank.cameraRef s /\
  Tank.rendererRef s' = Tank.rendererRef s /\
  Tank.lastTimeRef s' = Tank.lastTimeRef s /\
  (Tank.sceneRef s = None -> Tank.sceneRef s' = None) /\
  (Tank.sceneRef s <> None -> Tank.sceneRef s' <> None).
Proof.
  unfold Tank.updateProjectile, Tank.createExplosion, Tank.animateExplosion.
  destruct (Tank.active p); cbn [negb]; [| cbn; tauto].
  destruct (Tank.sceneRef s) as [children |] eqn:E;
    split_state_tests; cbn; rewrite ?E; cbn;
    repeat split; try reflexivity; try discriminate; try tauto.
Qed.

Lemma updateProjectiles_fold_inv (P : Tank.State -> Prop) (delta : R) :
  (forall p s, P s -> P (snd (Tank.updateProjectile delta p s))) ->
  forall (ps done : list Tank.Projectile) (s : Tank.State),
    P s ->
    P (snd (fold_left
              (fun '(done, s) p =>
                 let '(p1, s1) := Tank.updateProjectile delta p s in
                 (done ++ [p1], s1))
              ps (done, s))).
Proof.
  intros Hstep ps. induction ps as [| p ps IH]; intros done s Hs; [exact Hs |].
  cbn [fold_left]. specialize (Hstep p s Hs).
  destruct (Tank.updateProjectile delta p s) as [p1 s1]. cbn [snd] in Hstep.
  cbn zeta. apply IH. exact Hstep.
Qed.

Lemma updateProjectiles_frame (delta : R) (s : Tank.State) :
  let s' := Tank.updateProjectiles delta s in
  Tank.refs s' = Tank.refs s /\
  Tank.cameraRef s' = Tank.cameraRef s /\
  Tank.rendererRef s' = Tank.rendererRef s /\
  Tank.lastTimeRef s' = Tank.lastTimeRef s.
Proof.
  unfold Tank.updateProjectiles.
  destruct (Tank.sceneRef s); [| cbn; tauto].
  pose proof (updateProjectiles_fold_inv
                (fun s' => Tank.refs s' = Tank.refs s /\
                           Tank.cameraRef s' = Tank.cameraRef s /\
                           Tank.rendererRef s' = Tank.rendererRef s /\
                           Tank.lastTimeRef s' = Tank.lastTimeRef s)
                delta) as H.
  specialize (H ltac:(intros p s0 [H1 [H2 [H3 H4]]];
                      destruct (updateProjectile_frame delta p s0)
                        as [G1 [G2 [G3 [G4 _]]]];
                      cbn zeta in *; repeat split; congruence)
                (Tank.projectilesRef s) [] s
                ltac:(repeat split)).
  destruct (fold_left _ (Tank.projectilesRef s) ([], s)) as [ps s1].
  exact H.
Qed.

(** [animate] is [updateCar] at the capped elapsed time, then
    [updateProjectiles], then the camera. *)
Lemma animate_refs (now : Z) (time : R) (s : Tank.State) :
  Tank.refs (Tank.animate now time s)
  = CarGame.updateCar now
      (CarGame.cappedDelta (CarGame.frameDelta (Tank.lastTimeRef s) time))
      (Tank.refs s)
  /\ Tank.lastTimeRef (Tank.animate now time s) = time.
Proof.
  unfold Tank.animate.
  set (s1 := Tank.mkState _ _ _ _ time _ _ _).
  destruct (updateProjectiles_frame
              (CarGame.cappedDelta
                 (CarGame.frameDelta (Tank.lastTimeRef s) time)) s1)
    as [H1 [_ [_ H2]]].
  set (s2 := Tank.updateProjectiles _ s1) in *.
  destruct (Tank.rendererRef s2); [| split; assumption].
  destruct (Tank.sceneRef s2); [| split; assumption].
  destruct (Tank.cameraRef s2); [| split; assumption].
  destruct (CarGame.carRef (Tank.refs s2)); split; assumption.
Qed.




Lemma heading_turn_witness :
  0 < CarGame.maxSpeed CarGame.carData0 /\
  0 <= CarGame.maxSteeringAngle CarGame.carData0 /\
  exists car',
    CarGame.carRef
      (CarGame.updateCar 0 0.1
         (CarGame.mkRefs (Some CarGame.car0) CarGame.carData0
            (CarGame.mkControls true false true false false)))
    = Some car' /\
    Rabs (THREE.rotation_y car' - THREE.rotation_y CarGame.car0)
    <= CarGame.maxSteeringAngle CarGame.carData0.
Proof.
  assert (H1 : 0 < CarGame.maxSpeed CarGame.carData0) by (cbn; lra).
  assert (H2 : 0 <= CarGame.maxSteeringAngle CarGame.carData0) by (cbn; lra).
  split; [exact H1 | split; [exact H2 |]].
  destruct (heading_turn_is_speed_proportional 0%Z 0.1 CarGame.car0
              CarGame.carData0
              (CarGame.mkControls true false true false false) H1 H2)
    as [car' [Hcar [_ Hle]]].
  exists car'. split; [exact Hcar | exact Hle].
Defined.

(** *** Shooting *)

Lemma handleShoot_misfire (now : Z) (s : Tank.State) :
  fires now s = false -> Tank.handleShoot now s = s.
Proof.
  unfold fires, Tank.handleShoot.
  destruct (CarGame.carRef (Tank.refs s)); [| reflexivity].
  destruct (Tank.sceneRef s); [| reflexivity].
  intros ->. reflexivity.
Qed.

Lemma handleShoot_fire (now : Z) (s : Tank.State) :
  fires now s = true ->
  let s' := Tank.handleShoot now s in
  CarGame.lastShotTime (CarGame.carDataRef (Tank.refs s')) = now /\
  CarGame.reloadTime (CarGame.carDataRef (Tank.refs s'))
  = CarGame.reloadTime (CarGame.carDataRef (Tank.refs s)) /\
  exists car,
    CarGame.carRef (Tank.refs s) = Some car /\
    Tank.projectilesRef s'
    = Tank.projectilesRef s
      ++ [Tank.mkProjectile
            (Tank.mkMesh (Tank.nextId s)
               (THREE.add
                  (THREE.applyAxisAngleY (THREE.Vec3 0 1.8 4.5)
                     (THREE.rotation_y car))
                  (THREE.position car)))
            (THREE.multiplyScalar
               (CarGame.direction (CarGame.carDataRef (Tank.refs s))) 0.8)
            true 0].
Proof.
  unfold fires, Tank.handleShoot.
  destruct (CarGame.carRef (Tank.refs s)) as [car |]; [| discriminate].
  destruct (Tank.sceneRef s); [| discriminate].
  intros ->. cbn. repeat split. exists car. split; reflexivity.
Qed.

Lemma updateCar_keeps_reload (now : Z) (delta : R) (r : CarGame.Refs) :
  CarGame.lastShotTime (CarGame.carDataRef (CarGame.updateCar now delta r))
  = CarGame.lastShotTime (CarGame.carDataRef r) /\
  CarGame.reloadTime (CarGame.carDataRef (CarGame.updateCar now delta r))
  = CarGame.reloadTime (CarGame.carDataRef r).
Proof.
  unfold CarGame.updateCar. destruct (CarGame.carRef r); split; reflexivity.
Qed.

(** What an event does to the reload clock: a shot stores its clock
    reading, anything else leaves [lastShotTime] alone; [reloadTime] never
    changes. *)
Lemma step_reload (ev : Tank.Event) (s : Tank.State) :
  let last (s : Tank.State) :=
    CarGame.lastShotTime (CarGame.carDataRef (Tank.refs s)) in
  let reload (s : Tank.State) :=
    CarGame.reloadTime (CarGame.carDataRef (Tank.refs s)) in
  reload (Tank.step ev s) = reload s /\
  ((shotOf ev s = [] /\ last (Tank.step ev s) = last s) \/
   (exists now, shotOf ev s = [now] /\ (now - last s > reload s)%Z /\
                last (Tank.step ev s) = now)).
Proof.
  cbn zeta.
  assert (Hshoot : forall now c,
             let s1 := Tank.withControls s c in
             CarGame.reloadTime
               (CarGame.carDataRef (Tank.refs (Tank.handleShoot now s1)))
             = CarGame.reloadTime (CarGame.carDataRef (Tank.refs s)) /\
             (((if fires now s then [now] else []) = [] /\
               CarGame.lastShotTime
                 (CarGame.carDataRef (Tank.refs (Tank.handleShoot now s1)))
               = CarGame.lastShotTime (CarGame.carDataRef (Tank.refs s))) \/
              (exists t, (if fires now s then [now] else []) = [t] /\
                         (t - CarGame.lastShotTime
                                (CarGame.carDataRef (Tank.refs s))
                          > CarGame.reloadTime
                              (CarGame.carDataRef (Tank.refs s)))%Z /\
                         CarGame.lastShotTime
                           (CarGame.carDataRef
                              (Tank.refs (Tank.handleShoot now s1)))
                         = t))).
  { intros now c s1.
    assert (Hf : fires now s1 = fires now s) by reflexivity.
    destruct (fires now s) eqn:E.
    - destruct (handleShoot_fire now s1 Hf) as [H1 [H2 _]].
      split; [exact H2 |]. right. exists now. repeat split; [| exact H1].
      unfold fires in E.
      destruct (CarGame.carRef (Tank.refs s)); [| discriminate].
      destruct (Tank.sceneRef s); [| discriminate].
      apply andb_prop in E. destruct E as [_ E]. apply Z.gtb_lt in E. lia.
    - rewrite (handleShoot_misfire now s1 Hf). split; [reflexivity |].
      left. split; reflexivity. }
  destruct ev as [now key | key | now control | control | now time |];
    cbn [Tank.step shotOf].
  - unfold Tank.handleKeyDown.
    destruct (Tank.controlOfKey key) as [[] |];
      try (split; [reflexivity | left; split; reflexivity]).
    unfold Tank.handleButtonDown. cbn [Tank.isShoot]. apply Hshoot.
  - unfold Tank.handleKeyUp.
    destruct (Tank.controlOfKey key);
      split; try reflexivity; left; split; reflexivity.
  - destruct control;
      try (split; [reflexivity | left; split; reflexivity]).
    unfold Tank.handleButtonDown. cbn [Tank.isShoot]. apply Hshoot.
  - split; [reflexivity | left; split; reflexivity].
  - destruct (animate_refs now time s) as [Hrefs _]. rewrite Hrefs.
    destruct (updateCar_keeps_reload now
                (CarGame.cappedDelta
                   (CarGame.frameDelta (Tank.lastTimeRef s) time))
                (Tank.refs s)) as [H1 H2].
    split; [exact H2 | left; split; [reflexivity | exact H1]].
  - split; [reflexivity | left; split; reflexivity].
Qed.

Lemma shots_after_last (evs : list Tank.Event) (s : Tank.State) :
  (0 <= CarGame.reloadTime (CarGame.carDataRef (Tank.refs s)))%Z ->
  let reload := CarGame.reloadTime (CarGame.carDataRef (Tank.refs s)) in
  Forall (fun t =>
            (t - CarGame.lastShotTime (CarGame.carDataRef (Tank.refs s))
             > reload)%Z)
         (shotTimes evs s)
  /\ StronglySorted (fun t1 t2 => (t2 - t1 > reload)%Z) (shotTimes evs s).
Proof.
  revert s. induction evs as [| ev evs IH]; intros s Hr reload.
  - cbn. split; constructor.
  - cbn [shotTimes].
    destruct (step_reload ev s) as [Hrel Hstep]. cbn beta in Hrel, Hstep.
    specialize (IH (Tank.step ev s)). rewrite Hrel in IH.
    destruct (IH Hr) as [IHall IHsorted]. fold reload in IHall, IHsorted.
    destruct Hstep as [[-> Hlast] | [now [-> [Hgt Hlast]]]]; cbn [app].
    + rewrite Hlast in IHall. split; assumption.
    + rewrite Hlast in IHall. fold reload in Hgt. split.
      * constructor; [exact Hgt |].
        eapply Forall_impl; [| exact IHall]. cbn beta. intros t Ht.
        unfold reload in *. lia.
      * constructor; assumption.
Qed.

(** X7. The cannon. [handleShoot] fires only when the car and the scene
    exist and more than [reloadTime] has passed on the clock since the last
    shot; a shot appends one active projectile with the car's direction
    times 0.8 as velocity and stores the clock reading;
    otherwise the call changes nothing. So along any run of key, button and
    animation events the shots are pairwise more than [reloadTime] (1000 ms)
    apart, however often the key repeats. *)
Theorem shots_respect_reload_time :
  (forall (now : Z) (s : Tank.State),
      fires now s = false -> Tank.handleShoot now s = s)
  /\
  (forall (now : Z) (s : Tank.State),
      fires now s = true ->
      (now - CarGame.lastShotTime (CarGame.carDataRef (Tank.refs s))
       > CarGame.reloadTime (CarGame.carDataRef (Tank.refs s)))%Z /\
      CarGame.lastShotTime
        (CarGame.carDataRef (Tank.refs (Tank.handleShoot now s))) = now /\
      exists p,
        Tank.projectilesRef (Tank.handleShoot now s)
        = Tank.projectilesRef s ++ [p] /\
        Tank.active p = true /\ Tank.lifeTime p = 0 /\
        Tank.velocity p
        = THREE.multiplyScalar
            (CarGame.direction (CarGame.carDataRef (Tank.refs s))) 0.8)
  /\
  (forall (evs : list Tank.Event) (s : Tank.State),
      CarGame.reloadTime (CarGame.carDataRef (Tank.refs s)) = 1000%Z ->
      StronglySorted (fun t1 t2 => (t2 - t1 > 1000)%Z) (shotTimes evs s)).
Proof.
  split; [exact handleShoot_misfire | split].
  - intros now s Hf.
    destruct (handleShoot_fire now s Hf) as [H1 [_ [car [_ Hp]]]].
    split; [| split; [exact H1 |]].
    + unfold fires in Hf.
      destruct (CarGame.carRef (Tank.refs s)); [| discriminate].
      destruct (Tank.sceneRef s); [| discriminate].
      apply andb_prop in Hf. destruct Hf as [_ Hf]. apply Z.gtb_lt in Hf. lia.
    + eexists. split; [exact Hp |]. cbn. repeat split.
  - intros evs s Hr.
    pose proof (shots_after_last evs s) as H. rewrite Hr in H.
    apply H. lia.
Qed.

Lemma shots_respect_reload_time_witness :
  fires 5000 Tank.state0 = true /\
  CarGame.reloadTime (CarGame.carDataRef (Tank.refs Tank.state0)) = 1000%Z /\
  CarGame.lastShotTime
    (CarGame.carDataRef (Tank.refs (Tank.handleShoot 5000 Tank.state0)))
  = 5000%Z /\
  StronglySorted (fun t1 t2 => (t2 - t1 > 1000)%Z)
    (shotTimes [Tank.KeyDown 5000 " "; Tank.KeyDown 5030 " ";
                Tank.KeyDown 6001 " "] Tank.state0).
Proof.
  assert (H1 : fires 5000 Tank.state0 = true) by reflexivity.
  assert (H2 : CarGame.reloadTime (CarGame.carDataRef (Tank.refs Tank.state0))
               = 1000%Z) by reflexivity.
  split; [exact H1 | split; [exact H2 | split]].
  - exact (proj1 (proj2 (proj1 (proj2 shots_respect_reload_time)
                           5000%Z Tank.state0 H1))).
  - exact (proj2 (proj2 shots_respect_reload_time) _ Tank.state0 H2).
Defined.

Example held_space_bar_fires_once_a_second :
  shotTimes [Tank.KeyDown 5000 " "; Tank.KeyDown 5030 " ";
             Tank.KeyDown 6001 " "] Tank.state0
  = [5000%Z; 6001%Z].
Proof. reflexivity. Qed.

(** *** Projectiles *)

Lemma updateProjectile_advanced (delta : R) (p : Tank.Projectile)
    (s : Tank.State) :
  fst (Tank.updateProjectile delta p s) = advanced delta p.
Proof.
  unfold advanced, Tank.updateProjectile.
  destruct (Tank.active p); cbn [negb]; [| reflexivity].
  destruct (Rle_dec _ 0.3); destruct (Rgt_dec _ 5); reflexivity.
Qed.

Lemma advanced_spec (delta : R) (p : Tank.Projectile) :
  Tank.active (advanced delta p) = true ->
  Tank.active p = true /\
  Tank.id (Tank.mesh (advanced delta p)) = Tank.id (Tank.mesh p) /\
  Tank.position (Tank.mesh (advanced delta p))
  = THREE.add (Tank.position (Tank.mesh p)) (Tank.velocity p) /\
  Tank.velocity (advanced delta p)
  = THREE.set_y (Tank.velocity p) (THREE.y (Tank.velocity p) - 0.01) /\
  Tank.lifeTime (advanced delta p) = Tank.lifeTime p + delta /\
  THREE.y (Tank.position (Tank.mesh (advanced delta p))) > 0.3 /\
  Tank.lifeTime (advanced delta p) <= 5.
Proof.
  unfold advanced, Tank.updateProjectile.
  destruct (Tank.active p) eqn:E; cbn [negb].
  - destruct (Rle_dec _ 0.3) as [Hy | Hy]; destruct (Rgt_dec _ 5) as [Hl | Hl];
      cbn; intros H; try discriminate.
    cbn in Hy. repeat split; lra.
  - cbn. rewrite E. discriminate.
Qed.

Lemma updateProjectiles_fold_projectiles (delta : R)
    (ps done : list Tank.Projectile) (s : Tank.State) :
  fst (fold_left
         (fun '(done, s) p =>
            let '(p1, s1) := Tank.updateProjectile delta p s in
            (done ++ [p1], s1))
         ps (done, s))
  = done ++ map (advanced delta) ps.
Proof.
  revert done s. induction ps as [| p ps IH]; intros done s.
  - cbn. now rewrite app_nil_r.
  - cbn [fold_left map].
    pose proof (updateProjectile_advanced delta p s) as Hp.
    destruct (Tank.updateProjectile delta p s) as [p1 s1]. cbn [fst] in Hp.
    cbn zeta. rewrite IH, Hp, <- app_assoc. reflexivity.
Qed.

Lemma updateProjectiles_array (delta : R) (s : Tank.State) :
  Tank.sceneRef s <> None ->
  Tank.projectilesRef (Tank.updateProjectiles delta s)
  = filter Tank.active (map (advanced delta) (Tank.projectilesRef s))
  /\ Tank.sceneRef (Tank.updateProjectiles delta s) <> None.
Proof.
  intros Hscene.
  assert (Hsc : Tank.sceneRef
                  (snd (fold_left
                          (fun '(done, s) p =>
                             let '(p1, s1) := Tank.updateProjectile delta p s in
                             (done ++ [p1], s1))
                          (Tank.projectilesRef s) ([], s))) <> None).
  { apply (updateProjectiles_fold_inv
             (fun s' => Tank.sceneRef s' <> None) delta); [| exact Hscene].
    intros p s0 H0. apply (updateProjectile_frame delta p s0). exact H0. }
  pose proof (updateProjectiles_fold_projectiles delta
                (Tank.projectilesRef s) [] s) as Hps.
  unfold Tank.updateProjectiles.
  destruct (Tank.sceneRef s) eqn:E; [| contradiction].
  destruct (fold_left _ (Tank.projectilesRef s) ([], s)) as [ps s1].
  cbn [fst snd] in *. cbn. rewrite Hps. split; [reflexivity | exact Hsc].
Qed.

(** A projectile still in the array after some frames, traced back. *)
Lemma projectile_in_flight (deltas : list R) (s : Tank.State)
    (q : Tank.Projectile) :
  Tank.sceneRef s <> None ->
  In q (Tank.projectilesRef (projectileFrames deltas s)) ->
  exists p,
    In p (Tank.projectilesRef s) /\
    Tank.id (Tank.mesh q) = Tank.id (Tank.mesh p) /\
    THREE.y (Tank.velocity q)
    = THREE.y (Tank.velocity p) - 0.01 * INR (List.length deltas) /\
    THREE.y (Tank.position (Tank.mesh q))
    = THREE.y (Tank.position (Tank.mesh p))
      + INR (List.length deltas) * THREE.y (Tank.velocity p)
      - 0.005 * INR (List.length deltas) * (INR (List.length deltas) - 1) /\
    (deltas <> [] ->
     Tank.active q = true /\
     THREE.y (Tank.position (Tank.mesh q)) > 0.3 /\ Tank.lifeTime q <= 5).
Proof.
  revert s. induction deltas as [| d ds IH]; intros s Hscene Hq.
  - exists q. cbn in *.
    split; [exact Hq | split; [reflexivity | split; [lra | split; [lra |]]]].
    intros Hne. contradiction.
  - unfold projectileFrames in Hq. cbn [fold_left] in Hq.
    fold (projectileFrames ds (Tank.updateProjectiles d s)) in Hq.
    destruct (updateProjectiles_array d s Hscene) as [Harr Hscene'].
    destruct (IH _ Hscene' Hq) as [p' [Hin [Hid [Hv [Hy Hlast]]]]].
    rewrite Harr in Hin. apply filter_In in Hin. destruct Hin as [Hin Hact].
    apply in_map_iff in Hin. destruct Hin as [p [<- Hp]].
    destruct (advanced_spec d p Hact)
      as [_ [Hid' [Hpos [Hvel [_ [Habove Hlife]]]]]].
    assert (Hfinal : Tank.active q = true /\
                     THREE.y (Tank.position (Tank.mesh q)) > 0.3 /\
                     Tank.lifeTime q <= 5).
    { destruct ds as [| d' ds'].
      - cbn in Hq. rewrite Harr in Hq. apply filter_In in Hq.
        destruct Hq as [Hq Hqa]. apply in_map_iff in Hq.
        destruct Hq as [p0 [<- _]].
        destruct (advanced_spec d p0 Hqa) as [_ [_ [_ [_ [_ [H1 H2]]]]]].
        split; [exact Hqa | split; [exact H1 | exact H2]].
      - apply Hlast. discriminate. }
    exists p. split; [exact Hp |].
    split; [rewrite Hid, Hid'; reflexivity |].
    change (List.length (d :: ds)) with (S (List.length ds)). rewrite S_INR.
    split; [| split; [| intros _; exact Hfinal]].
    + rewrite Hv, Hvel. cbn [THREE.y THREE.set_y]. lra.
    + rewrite Hy, Hpos, Hvel. cbn [THREE.y THREE.add THREE.set_y]. nra.
Qed.

(** Gravity wins: from some frame on the height formula is at most 0.3. *)
Lemma fall_bound (y v : R) :
  exists N : nat,
    forall n : nat,
      (N <= n)%nat ->
      y + INR n * v - 0.005 * INR n * (INR n - 1) <= 0.3.
Proof.
  set (M := 1 + 200 * (Rabs v + 1) + Rabs y).
  assert (HM : 0 < M).
  { unfold M. pose proof (Rabs_pos v). pose proof (Rabs_pos y). lra. }
  destruct (archimed M) as [Hup _].
  exists (Z.to_nat (up M)). intros n Hn.
  assert (Hbig : M <= INR n).
  { apply le_INR in Hn. rewrite INR_IZR_INZ in Hn.
    rewrite Z2Nat.id in Hn; [lra |]. apply le_IZR. lra. }
  unfold M in Hbig.
  pose proof (Rabs_pos v) as Hv0. pose proof (Rabs_pos y) as Hy0.
  pose proof (Rle_abs v) as Hv. pose proof (Rle_abs y) as Hy.
  assert (H1 : v - 0.005 * (INR n - 1) <= - 1) by lra.
  assert (H2 : INR n * (v - 0.005 * (INR n - 1)) <= - INR n) by nra.
  lra.
Qed.

Lemma fall_bound_all (ps : list Tank.Projectile) :
  exists N : nat,
    forall (p : Tank.Projectile) (n : nat),
      In p ps -> (N <= n)%nat ->
      THREE.y (Tank.position (Tank.mesh p))
      + INR n * THREE.y (Tank.velocity p)
      - 0.005 * INR n * (INR n - 1) <= 0.3.
Proof.
  induction ps as [| p ps [N IH]].
  - exists O. intros p n [].
  - destruct (fall_bound (THREE.y (Tank.position (Tank.mesh p)))
                (THREE.y (Tank.velocity p))) as [Np Hp].
    exists (Nat.max N Np). intros p0 n [<- | Hin] Hn.
    + apply Hp. lia.
    + apply IH; [exact Hin | lia].
Qed.

(** X8. Projectiles. After [updateProjectiles] (with a scene) every
    projectile left in the array is active, higher than 0.3 and at most 5 s
    old. Each frame takes 0.01 from the vertical velocity whatever the
    elapsed time, so a projectile still in the array after n frames is at
    height y0 + n * vy0 - 0.005 * n * (n - 1); hence, without a new shot,
    the array is empty after finitely many frames. *)
Theorem projectiles_fall_and_leave :
  forall s : Tank.State,
    Tank.sceneRef s <> None ->
    (forall (delta : R) (q : Tank.Projectile),
        In q (Tank.projectilesRef (Tank.updateProjectiles delta s)) ->
        Tank.active q = true /\
        THREE.y (Tank.position (Tank.mesh q)) > 0.3 /\
        Tank.lifeTime q <= 5)
    /\
    (forall (deltas : list R) (q : Tank.Projectile),
        In q (Tank.projectilesRef (projectileFrames deltas s)) ->
        exists p,
          In p (Tank.projectilesRef s) /\
          Tank.id (Tank.mesh q) = Tank.id (Tank.mesh p) /\
          THREE.y (Tank.position (Tank.mesh q))
          = THREE.y (Tank.position (Tank.mesh p))
            + INR (List.length deltas) * THREE.y (Tank.velocity p)
            - 0.005 * INR (List.length deltas)
              * (INR (List.length deltas) - 1))
    /\
    (exists N : nat,
        forall deltas : list R,
          (N <= List.length deltas)%nat ->
          Tank.projectilesRef (projectileFrames deltas s) = []).
Proof.
  intros s Hscene. split; [| split].
  - intros delta q Hq.
    destruct (projectile_in_flight [delta] s q Hscene Hq)
      as [_ [_ [_ [_ [_ H]]]]].
    apply H. discriminate.
  - intros deltas q Hq.
    destruct (projectile_in_flight deltas s q Hscene Hq)
      as [p [Hp [Hid [_ [Hy _]]]]].
    exists p. repeat split; assumption.
  - destruct (fall_bound_all (Tank.projectilesRef s)) as [N HN].
    exists (S N). intros deltas Hlen.
    destruct (Tank.projectilesRef (projectileFrames deltas s)) as [| q qs] eqn:E;
      [reflexivity |].
    assert (Hq : In q (Tank.projectilesRef (projectileFrames deltas s)))
      by (rewrite E; left; reflexivity).
    destruct (projectile_in_flight deltas s q Hscene Hq)
      as [p [Hp [_ [_ [Hy Hlast]]]]].
    assert (Hne : deltas <> []) by (destruct deltas; [cbn in Hlen; lia | discriminate]).
    destruct (Hlast Hne) as [_ [Habove _]].
    specialize (HN p (List.length deltas) Hp ltac:(lia)). lra.
Qed.

Lemma projectiles_fall_witness :
  let s := Tank.handleShoot 5000 Tank.state0 in
  Tank.sceneRef s <> None /\
  exists N : nat,
    forall deltas : list R,
      (N <= List.length deltas)%nat ->
      Tank.projectilesRef (projectileFrames deltas s) = [].
Proof.
  intros s.
  assert (H : Tank.sceneRef s <> None) by (cbn; discriminate).
  split; [exact H |].
  exact (proj2 (proj2 (projectiles_fall_and_leave s H))).
Defined.

(** *** Explosions *)

Lemma explosionFrames_spec (n : nat) (e e' : Tank.Explosion) :
  explosionFrames n e = Some e' ->
  Tank.explosion e' = Tank.explosion e /\
  Tank.scale e' = Tank.scale e + 0.1 * INR n /\
  Tank.opacity e' = Tank.opacity e - 0.05 * INR n /\
  ((1 <= n)%nat ->
   Tank.scale e' < 1.6 /\
   Tank.mesh_scale e' = Tank.scale e' /\
   Tank.material_opacity e' = Rmax 0 (Tank.opacity e')).
Proof.
  revert e. induction n as [| n IH]; intros e H.
  - cbn in H. injection H as <-. cbn.
    split; [reflexivity | split; [lra | split; [lra | lia]]].
  - cbn [explosionFrames] in H.
    unfold Tank.animateExplosion in H.
    destruct (Rge_dec (Tank.scale e) 1.5) as [Hge | Hlt]; [discriminate |].
    destruct (IH _ H) as [Hm [Hs [Ho Hlast]]]. cbn in Hm, Hs, Ho.
    rewrite S_INR. split; [exact Hm |]. split; [lra |]. split; [lra |].
    intros _. destruct n as [| n].
    + cbn in H. injection H as <-. cbn. unfold Math.max.
      split; [lra | split; reflexivity].
    + apply Hlast. lia.
Qed.

Lemma explosionFrames_ends (e : Tank.Explosion) :
  exists N : nat,
    forall n : nat, (N <= n)%nat -> explosionFrames n e = None.
Proof.
  set (M := (1.6 - Tank.scale e) / 0.1).
  destruct (archimed (Rmax 0 M)) as [Hup _].
  pose proof (Rmax_l 0 M) as H0. pose proof (Rmax_r 0 M) as HM.
  exists (S (Z.to_nat (up (Rmax 0 M)))). intros n Hn.
  destruct (explosionFrames n e) as [e' |] eqn:E; [| reflexivity].
  destruct (explosionFrames_spec n e e' E) as [_ [Hs [_ Hlast]]].
  destruct (Hlast ltac:(lia)) as [Hlt _].
  assert (Hbig : M <= INR n).
  { assert (Hle : (Z.to_nat (up (Rmax 0 M)) <= n)%nat) by lia.
    apply le_INR in Hle. rewrite INR_IZR_INZ in Hle.
    rewrite Z2Nat.id in Hle; [lra |]. apply le_IZR. lra. }
  unfold M in Hbig.
  assert (1.6 - Tank.scale e <= 0.1 * INR n).
  { apply (Rmult_le_compat_l 0.1) in Hbig; [| lra].
    replace (0.1 * ((1.6 - Tank.scale e) / 0.1)) with (1.6 - Tank.scale e)
      in Hbig by (field; lra).
    exact Hbig. }
  lra.
Qed.

Lemma animateExplosions_scheduled (s : Tank.State) :
  Tank.scheduled (Tank.animateExplosions s)
  = flat_map (fun e => match Tank.animateExplosion e with
                       | Some e1 => [e1]
                       | None => []
                       end) (Tank.scheduled s).
Proof.
  unfold Tank.animateExplosions. cbn [Tank.scheduled].
  induction (Tank.scheduled s) as [| e es IH]; [reflexivity |].
  cbn [map flat_map]. rewrite IH. reflexivity.
Qed.

Lemma in_fold_remove (finished children : list nat) (c : nat) :
  In c (fold_left (fun c m => Tank.remove m c) finished children)
  <-> In c children /\ ~ In c finished.
Proof.
  revert children. induction finished as [| m ms IH]; intros children.
  - cbn. tauto.
  - cbn [fold_left]. rewrite IH. unfold Tank.remove. rewrite filter_In.
    cbn [In]. rewrite Bool.negb_true_iff, Nat.eqb_neq. intuition congruence.
Qed.

Lemma animateExplosions_scene (s : Tank.State) (c : nat) :
  In c (sceneChildren (Tank.animateExplosions s)) ->
  In c (sceneChildren s) /\
  forall e, In e (Tank.scheduled s) -> c = Tank.id (Tank.explosion e) ->
            Tank.animateExplosion e <> None.
Proof.
  unfold sceneChildren, Tank.animateExplosions. cbn [Tank.sceneRef].
  destruct (Tank.sceneRef s) as [children |]; cbn [option_map]; [| intros []].
  rewrite in_fold_remove. intros [Hc Hfin]. split; [exact Hc |].
  intros e He -> Hnone. apply Hfin.
  apply in_flat_map. exists (e, Tank.animateExplosion e).
  split; [apply in_map_iff; exists e; split; [reflexivity | exact He] |].
  rewrite Hnone. left. reflexivity.
Qed.

Lemma animateExplosions_iter_scheduled (n : nat) (s : Tank.State)
    (e' : Tank.Explosion) :
  In e' (Tank.scheduled (Nat.iter n Tank.animateExplosions s)) ->
  exists e, In e (Tank.scheduled s) /\ explosionFrames n e = Some e'.
Proof.
  revert s. induction n as [| n IH]; intros s H.
  - exists e'. split; [exact H | reflexivity].
  - rewrite Nat.iter_succ_r in H. destruct (IH _ H) as [e1 [H1 Hn]].
    rewrite animateExplosions_scheduled in H1. apply in_flat_map in H1.
    destruct H1 as [e [He H1]].
    destruct (Tank.animateExplosion e) as [e2 |] eqn:E; [| destruct H1].
    destruct H1 as [<- | []].
    exists e. split; [exact He |]. cbn [explosionFrames]. rewrite E. exact Hn.
Qed.

Lemma animateExplosions_iter_scene (n : nat) (s : Tank.State) (c : nat) :
  In c (sceneChildren (Nat.iter n Tank.animateExplosions s)) ->
  In c (sceneChildren s) /\
  forall e, In e (Tank.scheduled s) -> c = Tank.id (Tank.explosion e) ->
            explosionFrames n e <> None.
Proof.
  revert s. induction n as [| n IH]; intros s H.
  - split; [exact H |]. intros e _ _. discriminate.
  - rewrite Nat.iter_succ_r in H. destruct (IH _ H) as [Hc Hlater].
    destruct (animateExplosions_scene s c Hc) as [Hc0 Hnow].
    split; [exact Hc0 |]. intros e He Hid.
    specialize (Hnow e He Hid). cbn [explosionFrames].
    destruct (Tank.animateExplosion e) as [e1 |] eqn:E; [| contradiction].
    apply (Hlater e1).
    + rewrite animateExplosions_scheduled. apply in_flat_map.
      exists e. split; [exact He |]. rewrite E. left. reflexivity.
    + rewrite Hid. unfold Tank.animateExplosion in E.
      destruct (Rge_dec (Tank.scale e) 1.5); [discriminate |].
      injection E as <-. reflexivity.
Qed.

Lemma explosionFrames_end_all (es : list Tank.Explosion) :
  exists N : nat,
    forall (e : Tank.Explosion) (n : nat),
      In e es -> (N <= n)%nat -> explosionFrames n e = None.
Proof.
  induction es as [| e es [N IH]].
  - exists O. intros e n [].
  - destruct (explosionFrames_ends e) as [Ne He].
    exists (Nat.max N Ne). intros e0 n [<- | Hin] Hn.
    + apply He. lia.
    + apply IH; [exact Hin | lia].
Qed.

(** X9. Explosions. Every call of [animateExplosion] that reschedules
    itself adds 0.1 to the scale and takes 0.05 from the opacity; the scale
    written to the mesh stays below 1.6 and the material opacity is never
    negative. Every scheduled explosion ends: after finitely many animation
    frames none is scheduled any more and the mesh of each has left the
    scene. *)
Theorem explosions_grow_fade_and_leave :
  (forall (n : nat) (e e' : Tank.Explosion),
      (1 <= n)%nat ->
      explosionFrames n e = Some e' ->
      Tank.scale e' = Tank.scale e + 0.1 * INR n /\
      Tank.opacity e' = Tank.opacity e - 0.05 * INR n /\
      Tank.mesh_scale e' = Tank.scale e' /\ Tank.mesh_scale e' < 1.6 /\
      Tank.material_opacity e' = Rmax 0 (Tank.opacity e') /\
      0 <= Tank.material_opacity e')
  /\
  (forall s : Tank.State,
      exists N : nat,
        forall n : nat,
          (N <= n)%nat ->
          Tank.scheduled (Nat.iter n Tank.animateExplosions s) = [] /\
          forall e, In e (Tank.scheduled s) ->
                    ~ In (Tank.id (Tank.explosion e))
                         (sceneChildren
                            (Nat.iter n Tank.animateExplosions s))).
Proof.
  split.
  - intros n e e' Hn H.
    destruct (explosionFrames_spec n e e' H) as [_ [Hs [Ho Hlast]]].
    destruct (Hlast Hn) as [Hlt [Hms Hmo]].
    repeat split; try assumption; try lra.
    rewrite Hmo. apply Rmax_l.
  - intros s. destruct (explosionFrames_end_all (Tank.scheduled s)) as [N HN].
    exists N. intros n Hn. split.
    + destruct (Tank.scheduled (Nat.iter n Tank.animateExplosions s))
        as [| e' es] eqn:E; [reflexivity |].
      destruct (animateExplosions_iter_scheduled n s e') as [e [He Hrun]];
        [rewrite E; left; reflexivity |].
      rewrite (HN e n He Hn) in Hrun. discriminate.
    + intros e He Hin.
      destruct (animateExplosions_iter_scene n s _ Hin) as [_ Hlive].
      apply (Hlive e He eq_refl). apply HN; assumption.
Qed.

Lemma explosions_witness :
  let e := Tank.mkExplosion (Tank.mkMesh 0 (THREE.Vec3 3 0.5 4)) 0.1 1 1 0.8 in
  let e' := Tank.mkExplosion (Tank.mkMesh 0 (THREE.Vec3 3 0.5 4))
              (0.1 + 0.1) (1 - 0.05) (0.1 + 0.1) (Math.max 0 (1 - 0.05)) in
  (1 <= 1)%nat /\
  explosionFrames 1 e = Some e' /\
  Tank.scale e' = Tank.scale e + 0.1 * INR 1 /\
  Tank.opacity e' = Tank.opacity e - 0.05 * INR 1 /\
  Tank.mesh_scale e' = Tank.scale e' /\ Tank.mesh_scale e' < 1.6 /\
  Tank.material_opacity e' = Rmax 0 (Tank.opacity e') /\
  0 <= Tank.material_opacity e'.
Proof.
  intros e e'.
  assert (H1 : (1 <= 1)%nat) by lia.
  assert (H2 : explosionFrames 1 e = Some e').
  { cbn [explosionFrames]. unfold Tank.animateExplosion. cbn [Tank.scale e].
    destruct (Rge_dec 0.1 1.5); [lra | reflexivity]. }
  split; [exact H1 |]. split; [exact H2 |].
  exact (proj1 explosions_grow_fade_and_leave 1%nat e e' H1 H2).
Defined.

(** X10. The explosion [createExplosion] makes: it is in the scene, above the
    ground at height 0.5 where the projectile fell, and after its first
    call of [animateExplosion] it has scale 0.2; thirteen more calls take it
    to 1.5 and the fourteenth removes it. *)
Theorem created_explosion_lasts_14_frames (position : THREE.Vector3)
    (s : Tank.State) (children : list nat) :
  Tank.sceneRef s = Some children ->
  exists e,
    Tank.scheduled (Tank.createExplosion position s) = Tank.scheduled s ++ [e] /\
    Tank.sceneRef (Tank.createExplosion position s)
    = Some (children ++ [Tank.id (Tank.explosion e)]) /\
    Tank.position (Tank.explosion e) = THREE.set_y position 0.5 /\
    Tank.scale e = 0.2 /\
    (exists e', explosionFrames 13 e = Some e' /\ Tank.material_opacity e' = 0.3) /\
    explosionFrames 14 e = None.
Proof.
  intros Hscene.
  assert (Hstep : forall m sc op msc mop,
             sc < 1.5 ->
             Tank.animateExplosion (Tank.mkExplosion m sc op msc mop)
             = Some (Tank.mkExplosion m (sc + 0.1) (op - 0.05) (sc + 0.1)
                                      (Math.max 0 (op - 0.05)))).
  { intros m sc op msc mop Hsc. unfold Tank.animateExplosion. cbn.
    destruct (Rge_dec sc 1.5); [lra | reflexivity]. }
  assert (Hstop : forall m sc op msc mop,
             sc >= 1.5 ->
             Tank.animateExplosion (Tank.mkExplosion m sc op msc mop) = None).
  { intros m sc op msc mop Hsc. unfold Tank.animateExplosion. cbn.
    destruct (Rge_dec sc 1.5); [reflexivity | lra]. }
  unfold Tank.createExplosion. rewrite Hscene. rewrite Hstep by lra.
  eexists. cbn [Tank.scheduled Tank.sceneRef].
  split; [reflexivity |]. split; [reflexivity |].
  cbn [Tank.explosion Tank.position Tank.scale].
  split; [reflexivity |]. split; [lra |].
  split.
  - eexists. split.
    + cbn [explosionFrames]. do 13 (rewrite Hstep by lra). reflexivity.
    + cbn [Tank.material_opacity]. unfold Math.max.
      rewrite Rmax_right by lra. lra.
  - cbn [explosionFrames]. do 13 (rewrite Hstep by lra).
    rewrite Hstop by lra. reflexivity.
Qed.

Lemma created_explosion_witness :
  Tank.sceneRef Tank.state0 = Some [] /\
  exists e,
    Tank.scheduled (Tank.createExplosion (THREE.Vec3 3 0.2 4) Tank.state0)
    = Tank.scheduled Tank.state0 ++ [e] /\
    Tank.sceneRef (Tank.createExplosion (THREE.Vec3 3 0.2 4) Tank.state0)
    = Some ([] ++ [Tank.id (Tank.explosion e)]) /\
    Tank.position (Tank.explosion e) = THREE.set_y (THREE.Vec3 3 0.2 4) 0.5 /\
    Tank.scale e = 0.2 /\
    (exists e', explosionFrames 13 e = Some e' /\ Tank.material_opacity e' = 0.3) /\
    explosionFrames 14 e = None.
Proof.
  split; [reflexivity |].
  exact (created_explosion_lasts_14_frames (THREE.Vec3 3 0.2 4) Tank.state0 []
           eq_refl).
Defined.

(** ** The plain driving model *)

Lemma plain_frames_snoc (n : nat) (g : SimpleJS.Globals) :
  SimpleJSLoop.frames (S n) g = SimpleJS.updateCar (SimpleJSLoop.frames n g).
Proof.
  revert g. induction n as [| n IH]; intros g; [reflexivity |].
  change (SimpleJSLoop.frames (S (S n)) g)
    with (SimpleJSLoop.frames (S n) (SimpleJS.updateCar g)).
  rewrite IH. reflexivity.
Qed.

(** What no frame changes: the flags and the constants of the car. *)
Lemma plain_frame_keeps (g : SimpleJS.Globals) :
  let after := SimpleJS.updateCar g in
  SimpleJS.controls after = SimpleJS.controls g /\
  SimpleJS.maxSpeed (SimpleJS.carData after)
  = SimpleJS.maxSpeed (SimpleJS.carData g) /\
  SimpleJS.deceleration (SimpleJS.carData after)
  = SimpleJS.deceleration (SimpleJS.carData g) /\
  THREE.y (THREE.position (SimpleJS.car after)) = 0.
Proof. cbn. repeat split. Qed.

Lemma plain_frames_keep (n : nat) (g : SimpleJS.Globals) :
  let after := SimpleJSLoop.frames n g in
  SimpleJS.controls after = SimpleJS.controls g /\
  SimpleJS.maxSpeed (SimpleJS.carData after)
  = SimpleJS.maxSpeed (SimpleJS.carData g) /\
  SimpleJS.deceleration (SimpleJS.carData after)
  = SimpleJS.deceleration (SimpleJS.carData g).
Proof.
  induction n as [| n IH]; [cbn; repeat split |].
  rewrite plain_frames_snoc.
  destruct (plain_frame_keeps (SimpleJSLoop.frames n g)) as [H1 [H2 [H3 _]]].
  cbn zeta in *. rewrite H1, H2, H3. exact IH.
Qed.






(** X12. The geometry of a frame of the plain model, whatever the state and
    the flags: the car is put on the ground, [direction] is the unit vector
    of the new heading, the car moves along it by the new speed, and the
    camera is placed 10 behind the car and 5 above it, at distance
    sqrt(125). *)
Theorem plain_frame_geometry :
  forall g : SimpleJS.Globals,
    let after := SimpleJS.updateCar g in
    let heading := THREE.rotation_y (SimpleJS.car after) in
    let v := SimpleJS.speed (SimpleJS.carData after) in
    SimpleJS.direction (SimpleJS.carData after)
    = THREE.Vec3 (sin heading) 0 (cos heading) /\
    THREE.length (SimpleJS.direction (SimpleJS.carData after)) = 1 /\
    THREE.position (SimpleJS.car after)
    = THREE.Vec3
        (THREE.x (THREE.position (SimpleJS.car g)) + sin heading * v)
        0
        (THREE.z (THREE.position (SimpleJS.car g)) + cos heading * v) /\
    THREE.sub (SimpleJS.camera_position after) (THREE.position (SimpleJS.car after))
    = THREE.Vec3 (- sin heading * 10) 5 (- cos heading * 10) /\
    THREE.distanceTo (SimpleJS.camera_position after)
                     (THREE.position (SimpleJS.car after))
    = sqrt 125.
Proof.
  intros g after heading v.
  assert (Hdir : SimpleJS.direction (SimpleJS.carData after)
                 = THREE.Vec3 (sin heading) 0 (cos heading)).
  { change (SimpleJS.direction (SimpleJS.carData after))
      with (THREE.applyAxisAngleY (THREE.Vec3 0 0 1) heading).
    unfold THREE.applyAxisAngleY, Math.sin, Math.cos. cbn.
    f_equal; lra. }
  assert (Hcam : THREE.sub (SimpleJS.camera_position after)
                           (THREE.position (SimpleJS.car after))
                 = THREE.Vec3 (- sin heading * 10) 5 (- cos heading * 10)).
  { change (SimpleJS.camera_position after)
      with (THREE.add (THREE.position (SimpleJS.car after))
              (THREE.Vec3
                 (- THREE.x (SimpleJS.direction (SimpleJS.carData after)) * 10)
                 5
                 (- THREE.z (SimpleJS.direction (SimpleJS.carData after)) * 10))).
    rewrite Hdir. unfold THREE.sub, THREE.add. cbn [THREE.x THREE.y THREE.z].
    f_equal; lra. }
  split; [exact Hdir |]. split; [| split; [| split; [exact Hcam |]]].
  - rewrite Hdir. unfold THREE.length, THREE.dot, Math.sqrt.
    cbn [THREE.x THREE.y THREE.z].
    replace (sin heading * sin heading + 0 * 0 + cos heading * cos heading)
      with 1; [apply sqrt_1 |].
    pose proof (sin2_cos2 heading) as H. unfold Rsqr in H. lra.
  - pose proof (plain_position_after g) as Hp. cbn zeta in Hp.
    fold after in Hp. rewrite Hdir in Hp. exact Hp.
  - rewrite (proj2 (distanceTo_length _ _)), Hcam.
    unfold THREE.length, THREE.dot, Math.sqrt. cbn [THREE.x THREE.y THREE.z].
    f_equal. pose proof (sin2_cos2 heading) as H. unfold Rsqr in H. nra.
Qed.

(** ** The camera of the hover tank *)

Lemma length_multiplyScalar (v : THREE.Vector3) (k : R) :
  0 <= k ->
  THREE.length (THREE.multiplyScalar v k) = k * THREE.length v.
Proof.
  intros Hk. unfold THREE.length, THREE.multiplyScalar, Math.sqrt.
  cbn [THREE.x THREE.y THREE.z].
  replace (THREE.x v * k * (THREE.x v * k) + THREE.y v * k * (THREE.y v * k)
           + THREE.z v * k * (THREE.z v * k))
    with (k * k * (THREE.x v * THREE.x v + THREE.y v * THREE.y v
                   + THREE.z v * THREE.z v)) by ring.
  rewrite sqrt_mult_alt by nra. rewrite sqrt_square by exact Hk. reflexivity.
Qed.

(** X13. The camera of the hover tank. On a mounted component (renderer,
    scene, camera and car present) [animate] moves the camera a twentieth
    of the way to its target, the point 10 behind and 5 above the car as
    the frame has just placed and turned it: the vector from the target to
    the camera is multiplied by 0.95, and so is their distance. The target
    is always sqrt(125) from the car. *)
Theorem camera_closes_a_twentieth_of_the_gap :
  forall (now : Z) (time : R) (s : Tank.State) (children : list nat)
         (camera : THREE.Vector3) (car : THREE.Object3D),
    Tank.rendererRef s = true ->
    Tank.sceneRef s = Some children ->
    Tank.cameraRef s = Some camera ->
    CarGame.carRef (Tank.refs s) = Some car ->
    exists (camera' : THREE.Vector3) (car' : THREE.Object3D),
      Tank.cameraRef (Tank.animate now time s) = Some camera' /\
      CarGame.carRef (Tank.refs (Tank.animate now time s)) = Some car' /\
      let target :=
        THREE.add (THREE.position car')
          (THREE.applyAxisAngleY (THREE.Vec3 0 5 (- 10))
                                 (THREE.rotation_y car')) in
      THREE.sub camera' target
      = THREE.multiplyScalar (THREE.sub camera target) 0.95 /\
      THREE.distanceTo camera' target
      = 0.95 * THREE.distanceTo camera target /\
      THREE.distanceTo target (THREE.position car') = sqrt 125.
Proof.
  intros now time s children camera car Hr Hsc Hcam Hcar.
  unfold Tank.animate.
  set (d := CarGame.cappedDelta
              (CarGame.frameDelta (Tank.lastTimeRef s) time)).
  set (s1 := Tank.mkState _ _ _ _ time _ _ _).
  destruct (updateProjectiles_frame d s1) as [H1 [H2 [H3 _]]].
  destruct (updateProjectiles_array d s1) as [_ H4];
    [cbn; rewrite Hsc; discriminate |].
  cbn zeta in H1, H2, H3. set (s2 := Tank.updateProjectiles d s1) in *.
  cbn [s1 Tank.refs Tank.cameraRef Tank.rendererRef] in H1, H2, H3.
  rewrite H3, Hr, H2, Hcam, H1.
  destruct (Tank.sceneRef s2) as [children2 |]; [| contradiction].
  assert (Hc : exists car',
             CarGame.carRef (CarGame.updateCar now d (Tank.refs s))
             = Some car').
  { unfold CarGame.updateCar. rewrite Hcar. eexists. reflexivity. }
  destruct Hc as [car' Hc]. rewrite Hc.
  exists (THREE.add camera
            (THREE.multiplyScalar
               (THREE.sub
                  (THREE.add (THREE.position car')
                     (THREE.applyAxisAngleY (THREE.Vec3 0 5 (- 10))
                                            (THREE.rotation_y car')))
                  camera) 0.05)), car'.
  cbn [Tank.cameraRef Tank.refs].
  split; [reflexivity |].
  split; [exact Hc |].
  cbn zeta.
  set (target := THREE.add (THREE.position car')
                   (THREE.applyAxisAngleY (THREE.Vec3 0 5 (- 10))
                                          (THREE.rotation_y car'))).
  assert (Hgap : THREE.sub
                   (THREE.add camera
                      (THREE.multiplyScalar (THREE.sub target camera) 0.05))
                   target
                 = THREE.multiplyScalar (THREE.sub camera target) 0.95).
  { unfold THREE.sub, THREE.add, THREE.multiplyScalar.
    cbn [THREE.x THREE.y THREE.z]. f_equal; lra. }
  split; [exact Hgap |]. split.
  - rewrite (proj2 (distanceTo_length _ _)), Hgap.
    rewrite (proj2 (distanceTo_length camera target)).
    apply length_multiplyScalar. lra.
  - rewrite (proj2 (distanceTo_length _ _)).
    unfold target, THREE.length, THREE.sub, THREE.add, THREE.applyAxisAngleY,
      Math.sqrt, Math.sin, Math.cos.
    cbn [THREE.x THREE.y THREE.z]. f_equal.
    pose proof (sin2_cos2 (THREE.rotation_y car')) as H. unfold Rsqr in H.
    nra.
Qed.

Lemma camera_closes_witness :
  exists (camera' : THREE.Vector3) (car' : THREE.Object3D),
    Tank.cameraRef (Tank.animate 5000 16 Tank.state0) = Some camera' /\
    CarGame.carRef (Tank.refs (Tank.animate 5000 16 Tank.state0)) = Some car' /\
    let target :=
      THREE.add (THREE.position car')
        (THREE.applyAxisAngleY (THREE.Vec3 0 5 (- 10))
                               (THREE.rotation_y car')) in
    THREE.sub camera' target
    = THREE.multiplyScalar (THREE.sub (THREE.Vec3 0 5 (- 10)) target) 0.95 /\
    THREE.distanceTo camera' target
    = 0.95 * THREE.distanceTo (THREE.Vec3 0 5 (- 10)) target /\
    THREE.distanceTo target (THREE.position car') = sqrt 125.
Proof.
  exact (camera_closes_a_twentieth_of_the_gap 5000 16 Tank.state0 []
           (THREE.Vec3 0 5 (- 10)) CarGame.car0
           eq_refl eq_refl eq_refl eq_refl).
Defined.

(** ** The control flags *)

Lemma lastWrite_snoc {E : Type} (sel : E -> option bool) (es : list E)
    (e : E) (b : bool) :
  lastWrite sel (es ++ [e]) b
  = match sel e with Some v => v | None => lastWrite sel es b end.
Proof. unfold lastWrite. rewrite fold_left_app. reflexivity. Qed.

Lemma handleShoot_controls (now : Z) (s : Tank.State) :
  CarGame.controlsRef (Tank.refs (Tank.handleShoot now s))
  = CarGame.controlsRef (Tank.refs s).
Proof.
  unfold Tank.handleShoot.
  destruct (CarGame.carRef (Tank.refs s)); [| reflexivity].
  destruct (Tank.sceneRef s); [| reflexivity].
  destruct (_ && _); reflexivity.
Qed.

Lemma updateCar_controls (now : Z) (delta : R) (r : CarGame.Refs) :
  CarGame.controlsRef (CarGame.updateCar now delta r) = CarGame.controlsRef r.
Proof. unfold CarGame.updateCar. destruct (CarGame.carRef r); reflexivity. Qed.

Lemma handleButtonDown_flag (now : Z) (c control : Tank.Control)
    (s : Tank.State) :
  flagOf control
    (CarGame.controlsRef (Tank.refs (Tank.handleButtonDown now c s)))
  = if Control_eqb c control then true
    else flagOf control (CarGame.controlsRef (Tank.refs s)).
Proof.
  unfold Tank.handleButtonDown.
  destruct (Tank.isShoot c); rewrite ?handleShoot_controls;
    destruct c, control; reflexivity.
Qed.

Lemma handleButtonUp_flag (c control : Tank.Control) (s : Tank.State) :
  flagOf control (CarGame.controlsRef (Tank.refs (Tank.handleButtonUp c s)))
  = if Control_eqb c control then false
    else flagOf control (CarGame.controlsRef (Tank.refs s)).
Proof. destruct c, control; reflexivity. Qed.

Lemma step_flag (ev : Tank.Event) (control : Tank.Control) (s : Tank.State) :
  flagOf control (CarGame.controlsRef (Tank.refs (Tank.step ev s)))
  = match pressOf control ev with
    | Some v => v
    | None => flagOf control (CarGame.controlsRef (Tank.refs s))
    end.
Proof.
  destruct ev as [now key | key | now c | c | now time |];
    cbn [Tank.step pressOf].
  - unfold Tank.handleKeyDown. destruct (Tank.controlOfKey key) as [c |];
      [| reflexivity].
    rewrite handleButtonDown_flag. destruct (Control_eqb c control); reflexivity.
  - unfold Tank.handleKeyUp. destruct (Tank.controlOfKey key) as [c |];
      [| reflexivity].
    rewrite handleButtonUp_flag. destruct (Control_eqb c control); reflexivity.
  - rewrite handleButtonDown_flag. destruct (Control_eqb c control); reflexivity.
  - rewrite handleButtonUp_flag. destruct (Control_eqb c control); reflexivity.
  - rewrite (proj1 (animate_refs now time s)), updateCar_controls. reflexivity.
  - reflexivity.
Qed.

Lemma lowerAscii_idempotent (c : ascii) :
  JSString.lowerAscii (JSString.lowerAscii c) = JSString.lowerAscii c.
Proof.
  destruct c as [[] [] [] [] [] [] [] []]; reflexivity.
Qed.

Lemma toLowerCase_idempotent (s : string) :
  JSString.toLowerCase (JSString.toLowerCase s) = JSString.toLowerCase s.
Proof.
  induction s as [| c s IH]; [reflexivity |].
  cbn. rewrite lowerAscii_idempotent. f_equal. exact IH.
Qed.

(** X14. The control flags of the hover tank. A flag is written by the
    handlers of its own control only (its key in either case, its arrow
    key, or its touch button): after any run of key, button and animation
    events it holds what the last of these wrote, a press giving true and a
    release false, and its old value if there was none. A shot, a frame and
    an explosion leave every flag alone; a key is read through
    [toLowerCase], so its case does not matter. *)
Theorem flags_follow_last_press_or_release :
  (forall (evs : list Tank.Event) (s : Tank.State) (control : Tank.Control),
      flagOf control (CarGame.controlsRef (Tank.refs (Tank.run evs s)))
      = lastWrite (pressOf control) evs
          (flagOf control (CarGame.controlsRef (Tank.refs s))))
  /\
  (forall key : string,
      Tank.controlOfKey (JSString.toLowerCase key) = Tank.controlOfKey key)
  /\
  Tank.controlOfKey "W" = Some Tank.forward /\
  Tank.controlOfKey "ArrowDown" = Some Tank.backward /\
  Tank.controlOfKey " " = Some Tank.shoot /\
  Tank.controlOfKey "Enter" = None.
Proof.
  split; [| split; [| repeat split]].
  - intros evs. induction evs as [| ev evs IH] using rev_ind; intros s control.
    + reflexivity.
    + unfold Tank.run. rewrite fold_left_app. cbn [fold_left].
      fold (Tank.run evs s). rewrite step_flag, lastWrite_snoc, IH.
      reflexivity.
  - intros key. unfold Tank.controlOfKey.
    rewrite toLowerCase_idempotent. reflexivity.
Qed.

Lemma handle_flags (e : UseGameControls.DomEvent)
    (c : GameTypes.GameControls) :
  let after := UseGameControls.handle e c in
  let write (sel : UseGameControls.DomEvent -> option bool) (old : bool) :=
    match sel e with Some v => v | None => old end in
  GameTypes.moveForward after = write (keyOf "KeyW") (GameTypes.moveForward c) /\
  GameTypes.moveBackward after = write (keyOf "KeyS") (GameTypes.moveBackward c) /\
  GameTypes.moveLeft after = write (keyOf "KeyA") (GameTypes.moveLeft c) /\
  GameTypes.moveRight after = write (keyOf "KeyD") (GameTypes.moveRight c) /\
  GameTypes.attack after = write (buttonOf 0) (GameTypes.attack c) /\
  GameTypes.block after = write (buttonOf 2) (GameTypes.block c).
Proof.
  cbn zeta.
  destruct e as [code | code | button | button |];
    cbn [UseGameControls.handle keyOf buttonOf].
  - unfold UseGameControls.setKey.
    destruct (String.eqb code "KeyW") eqn:EW;
      [apply String.eqb_eq in EW; subst code; cbn; repeat split |].
    destruct (String.eqb code "KeyS") eqn:ES;
      [apply String.eqb_eq in ES; subst code; cbn; repeat split |].
    destruct (String.eqb code "KeyA") eqn:EA;
      [apply String.eqb_eq in EA; subst code; cbn; repeat split |].
    destruct (String.eqb code "KeyD") eqn:ED; cbn; repeat split.
  - unfold UseGameControls.setKey.
    destruct (String.eqb code "KeyW") eqn:EW;
      [apply String.eqb_eq in EW; subst code; cbn; repeat split |].
    destruct (String.eqb code "KeyS") eqn:ES;
      [apply String.eqb_eq in ES; subst code; cbn; repeat split |].
    destruct (String.eqb code "KeyA") eqn:EA;
      [apply String.eqb_eq in EA; subst code; cbn; repeat split |].
    destruct (String.eqb code "KeyD") eqn:ED; cbn; repeat split.
  - unfold UseGameControls.setButton.
    destruct (button =? 0)%Z eqn:E0;
      [apply Z.eqb_eq in E0; subst button; cbn; repeat split |].
    destruct (button =? 2)%Z eqn:E2; cbn; repeat split.
  - unfold UseGameControls.setButton.
    destruct (button =? 0)%Z eqn:E0;
      [apply Z.eqb_eq in E0; subst button; cbn; repeat split |].
    destruct (button =? 2)%Z eqn:E2; cbn; repeat split.
  - repeat split.
Qed.

(** X15. The control flags of the action game. Each flag has one writer:
    the keys with the codes KeyW, KeyS, KeyA and KeyD write the four
    movement flags, mouse button 0 writes [attack] and button 2 writes
    [block]. After any run of events a flag holds what the last event of
    its writer gave it (true on down, false on up), and its old value if
    there was none; other keys, other buttons and the context menu write
    nothing. *)
Theorem game_controls_follow_last_event :
  forall (es : list UseGameControls.DomEvent) (c : GameTypes.GameControls),
    let after := UseGameControls.run es c in
    GameTypes.moveForward after
    = lastWrite (keyOf "KeyW") es (GameTypes.moveForward c) /\
    GameTypes.moveBackward after
    = lastWrite (keyOf "KeyS") es (GameTypes.moveBackward c) /\
    GameTypes.moveLeft after
    = lastWrite (keyOf "KeyA") es (GameTypes.moveLeft c) /\
    GameTypes.moveRight after
    = lastWrite (keyOf "KeyD") es (GameTypes.moveRight c) /\
    GameTypes.attack after = lastWrite (buttonOf 0) es (GameTypes.attack c) /\
    GameTypes.block after = lastWrite (buttonOf 2) es (GameTypes.block c).
Proof.
  intros es c. cbn zeta.
  induction es as [| e es IH] using rev_ind.
  - repeat split.
  - unfold UseGameControls.run. rewrite fold_left_app. cbn [fold_left].
    fold (UseGameControls.run es c).
    destruct (handle_flags e (UseGameControls.run es c))
      as [H1 [H2 [H3 [H4 [H5 H6]]]]].
    destruct IH as [I1 [I2 [I3 [I4 [I5 I6]]]]].
    cbn zeta in *. rewrite !lastWrite_snoc.
    rewrite H1, H2, H3, H4, H5, H6, I1, I2, I3, I4, I5, I6.
    repeat split.
Qed.

(** ** Driving off in the plain model *)

Lemma plain_frames_keep_acceleration (n : nat) (g : SimpleJS.Globals) :
  SimpleJS.acceleration (SimpleJS.carData (SimpleJSLoop.frames n g))
  = SimpleJS.acceleration (SimpleJS.carData g).
Proof.
  induction n as [| n IH]; [reflexivity |].
  rewrite plain_frames_snoc. exact IH.
Qed.

(** X16. Driving off in the plain model. A key whose lower-case form is
    "w" sets [forward]; while it is held each frame adds [acceleration] to
    the speed until [maxSpeed] caps it: from a speed within the limits, the
    speed after n frames is min(maxSpeed, speed + n * acceleration). *)
Theorem plain_forward_speed_is_capped_ramp :
  forall (key : string) (g : SimpleJS.Globals) (n : nat),
    JSString.toLowerCase key = "w"%string ->
    0 <= SimpleJS.acceleration (SimpleJS.carData g) ->
    - SimpleJS.maxSpeed (SimpleJS.carData g) / 2
    <= SimpleJS.speed (SimpleJS.carData g)
    <= SimpleJS.maxSpeed (SimpleJS.carData g) ->
    SimpleJS.forward (SimpleJS.controls (SimpleJSLoop.keydown key g)) = true /\
    SimpleJS.speed
      (SimpleJS.carData (SimpleJSLoop.frames n (SimpleJSLoop.keydown key g)))
    = Rmin (SimpleJS.maxSpeed (SimpleJS.carData g))
           (SimpleJS.speed (SimpleJS.carData g)
            + INR n * SimpleJS.acceleration (SimpleJS.carData g)).
Proof.
  intros key g n Hkey Hacc Hlim.
  assert (Hf : SimpleJS.forward (SimpleJS.controls (SimpleJSLoop.keydown key g))
               = true).
  { unfold SimpleJSLoop.keydown, SimpleJSLoop.setKey.
    cbn [SimpleJS.controls]. rewrite Hkey. reflexivity. }
  split; [exact Hf |].
  set (g1 := SimpleJSLoop.keydown key g) in *.
  change (SimpleJS.maxSpeed (SimpleJS.carData g))
    with (SimpleJS.maxSpeed (SimpleJS.carData g1)).
  change (SimpleJS.speed (SimpleJS.carData g))
    with (SimpleJS.speed (SimpleJS.carData g1)).
  change (SimpleJS.acceleration (SimpleJS.carData g))
    with (SimpleJS.acceleration (SimpleJS.carData g1)) in Hacc |- *.
  change (SimpleJS.maxSpeed (SimpleJS.carData g))
    with (SimpleJS.maxSpeed (SimpleJS.carData g1)) in Hlim.
  change (SimpleJS.speed (SimpleJS.carData g))
    with (SimpleJS.speed (SimpleJS.carData g1)) in Hlim.
  clearbody g1. clear g Hkey.
  induction n as [| n IH].
  - cbn [SimpleJSLoop.frames INR]. rewrite Rmult_0_l, Rplus_0_r.
    rewrite Rmin_right by lra. reflexivity.
  - rewrite plain_frames_snoc, plain_speed_after.
    destruct (plain_frames_keep n g1) as [Hc [Hmax _]]. cbn zeta in Hc, Hmax.
    pose proof (plain_frames_keep_acceleration n g1) as Ha.
    unfold SimpleJS.applyControls, SimpleJS.applySpeedLimits.
    rewrite Hc, Hf. cbn [SimpleJS.maxSpeed SimpleJS.set_speed].
    rewrite Hmax, Ha, IH, S_INR.
    pose proof (pos_INR n) as Hn.
    assert (Ht : 0 <= INR n * SimpleJS.acceleration (SimpleJS.carData g1))
      by (apply Rmult_le_pos; assumption).
    set (t := INR n * SimpleJS.acceleration (SimpleJS.carData g1)) in *.
    replace ((INR n + 1) * SimpleJS.acceleration (SimpleJS.carData g1))
      with (t + SimpleJS.acceleration (SimpleJS.carData g1))
      by (unfold t; ring).
    unfold Rmin. split_tests; lra.
Qed.

Lemma plain_forward_witness :
  SimpleJS.forward
    (SimpleJS.controls (SimpleJSLoop.keydown "W" SimpleJS.globals0)) = true /\
  SimpleJS.speed
    (SimpleJS.carData
       (SimpleJSLoop.frames 60 (SimpleJSLoop.keydown "W" SimpleJS.globals0)))
  = Rmin (SimpleJS.maxSpeed (SimpleJS.carData SimpleJS.globals0))
         (SimpleJS.speed (SimpleJS.carData SimpleJS.globals0)
          + INR 60 * SimpleJS.acceleration (SimpleJS.carData SimpleJS.globals0)).
Proof.
  refine (plain_forward_speed_is_capped_ramp "W" SimpleJS.globals0 60
            eq_refl _ _); cbn; lra.
Defined.

(** ** The action game: what every game keeps *)

Lemma ceil_nonneg (a : R) : 0 <= a -> 0 <= Math.ceil a.
Proof.
  intros Ha. unfold Math.ceil, Math.ceilZ, Int_part.
  destruct (archimed (- a)) as [H1 H2].
  apply IZR_le.
  assert (H : (up (- a) <= 1)%Z).
  { apply le_IZR. lra. }
  lia.
Qed.

Lemma handleEnemyAttack_sound (controls : GameTypes.GameControls)
    (damage : R) (st : GameTypes.GameState) :
  0 <= damage ->
  soundState st ->
  soundState (Game.handleEnemyAttack controls damage st) /\
  GameTypes.playerHealth (Game.handleEnemyAttack controls damage st)
  <= GameTypes.playerHealth st /\
  GameTypes.score (Game.handleEnemyAttack controls damage st)
  = GameTypes.score st.
Proof.
  intros Hd [Hh [Hact Hsc]]. unfold Game.handleEnemyAttack.
  set (actual := if GameTypes.block controls then Math.ceil (damage / 2)
                 else damage).
  assert (Ha : 0 <= actual).
  { unfold actual. destruct (GameTypes.block controls); [| exact Hd].
    apply ceil_nonneg. lra. }
  unfold soundState, Num.leb, Math.max, Rmax.
  destruct (GameTypes.isGameActive st) eqn:E;
    split_tests; cbn; rewrite ?E; intuition (try lra; try discriminate).
Qed.

Lemma attacks_sound (controls : GameTypes.GameControls) (damages : list R)
    (st : GameTypes.GameState) :
  Forall (fun d => 0 <= d) damages ->
  soundState st ->
  soundState
    (React.applyUpdates (map (Game.handleEnemyAttack controls) damages) st).
Proof.
  intros Hd. revert st. induction Hd as [| d ds Hd0 _ IH]; intros st Hst.
  - exact Hst.
  - cbn. apply IH. apply handleEnemyAttack_sound; assumption.
Qed.

Lemma applyUpdates_attackPower (us : list Enemy.Updater) (e : EnemyType.t) :
  Forall (fun u => forall prev,
              EnemyType.attackPower (u prev) = EnemyType.attackPower prev) us ->
  EnemyType.attackPower (React.applyUpdates us e) = EnemyType.attackPower e.
Proof.
  intros H. revert e. induction H as [| u us Hu _ IH]; intros e; [reflexivity |].
  cbn. unfold React.applyUpdates in IH. rewrite IH. apply Hu.
Qed.

Lemma useFrame_attackPower (now : Z) (delta : R)
    (playerPosition : THREE.Vector3) (c : Enemy.Instance) :
  EnemyType.attackPower
    (Enemy.enemy (fst (Enemy.useFrame now delta playerPosition c)))
  = EnemyType.attackPower (Enemy.enemy c).
Proof.
  unfold Enemy.useFrame.
  destruct (Enemy.group c) as [g |]; [| reflexivity].
  destruct (EnemyType.isDead (Enemy.enemy c)); [reflexivity |].
  repeat match goal with
         | |- context [if ?b then _ else _] =>
             match type of b with
             | bool => destruct b
             end
         end;
    cbn [fst Enemy.enemy]; rewrite applyUpdates_attackPower;
    try reflexivity; repeat constructor.
Qed.

Lemma useFrame_sound (now : Z) (delta : R) (playerPosition : THREE.Vector3)
    (c : Enemy.Instance) :
  soundEnemy c ->
  soundEnemy (fst (Enemy.useFrame now delta playerPosition c)) /\
  Forall (fun d => 0 <= d) (snd (Enemy.useFrame now delta playerPosition c)).
Proof.
  intros [Hp Hf]. split.
  - split.
    + rewrite useFrame_attackPower. exact Hp.
    + rewrite (proj1 (useFrame_keeps_takeDamage now delta playerPosition c)).
      exact Hf.
  - destruct (useFrame_attack_or_not now delta playerPosition c)
      as [[H _] | [H _]]; cbn zeta in H; rewrite H;
      [constructor | constructor; [exact Hp | constructor]].
Qed.

Lemma callTakeDamage_sound (amount : R) (c : Enemy.Instance) :
  soundEnemy c -> soundEnemy (fst (Enemy.callTakeDamage amount c)).
Proof.
  intros [Hp Hf]. unfold Enemy.callTakeDamage.
  destruct (Enemy.group c); [| exact (conj Hp Hf)].
  destruct (Enemy.group_takeDamage c) as [f |] eqn:E;
    [| split; [exact Hp | cbn; rewrite E; discriminate]].
  destruct (Hf f eq_refl) as [e0 ->]. cbn. split; [exact Hp |].
  intros f Hsome. cbn in Hsome. rewrite E in Hsome. injection Hsome as <-.
  exists e0. reflexivity.
Qed.

Lemma takeDamageIn_sound (target : string) (amount : R)
    (s s' : list Enemy.Instance) (deaths : list string) :
  Forall soundEnemy s ->
  Game.takeDamageIn target amount s = Some (s', deaths) ->
  Forall soundEnemy s'.
Proof.
  intros Hs. revert s' deaths.
  induction Hs as [| c rest Hc Hrest IH]; intros s' deaths H;
    [discriminate |].
  cbn [Game.takeDamageIn] in H.
  destruct (Game.takeDamageIn target amount rest) as [[rest1 deaths1] |].
  - injection H as <- <-. constructor; [exact Hc |]. eapply IH. reflexivity.
  - destruct (Game.isEnemyGroup target c); [| discriminate].
    pose proof (callTakeDamage_sound amount c Hc) as Hc1.
    destruct (Enemy.callTakeDamage amount c) as [c1 deaths1].
    injection H as <- <-. constructor; assumption.
Qed.

Lemma onDeath_sound (deaths : list string) (w : Game.World) :
  soundWorld w -> soundWorld (Game.onDeath deaths w).
Proof.
  unfold Game.onDeath. revert w.
  induction deaths as [| dead deaths IH]; intros w Hw; [exact Hw |].
  cbn [fold_left]. apply IH. destruct Hw as [[Hh [Hact Hsc]] Hs].
  split; [| exact Hs]. cbn. unfold soundState. cbn.
  repeat split; try tauto; lra.
Qed.

Lemma deliver_sound (target : string) (amount : R) (w : Game.World) :
  soundWorld w -> soundWorld (fst (Game.deliver target amount w)).
Proof.
  intros Hw. unfold Game.deliver.
  destruct (Game.takeDamageIn target amount (Game.scene w))
    as [[s deaths] |] eqn:E; [| exact Hw].
  cbn [fst]. apply onDeath_sound. destruct Hw as [Hst Hs].
  split; [exact Hst |]. cbn. eapply takeDamageIn_sound; eassumption.
Qed.

Lemma mount_sound (p : Enemy.Props) : soundEnemy (Enemy.mount p).
Proof.
  split.
  - destruct p as [i pos []]; cbn; lra.
  - intros f H. injection H as <-. eexists. reflexivity.
Qed.

Lemma render_sound (w : Game.World) : soundWorld w -> soundWorld (Game.render w).
Proof.
  intros [Hst Hs]. split; [exact Hst |]. cbn.
  apply Forall_app. split.
  - rewrite Forall_forall in Hs. apply Forall_forall. intros c Hc.
    apply filter_In in Hc. apply Hs. tauto.
  - apply Forall_forall. intros c Hc. apply in_map_iff in Hc.
    destruct Hc as [e [<- _]]. apply mount_sound.
Qed.

Lemma handlePlayerAttack_sound (position direction : THREE.Vector3)
    (w : Game.World) :
  soundWorld w ->
  soundWorld (fst (Game.handlePlayerAttack position direction w)).
Proof.
  intros Hw. unfold Game.handlePlayerAttack.
  assert (Hfold : forall (es : list Game.EnemyEntry) w1 deaths,
             soundWorld w1 ->
             soundWorld
               (fst (fold_left
                       (fun '(w1, deaths) enemy =>
                          match Game.findEnemyRef (Game.id enemy) (Game.scene w)
                          with
                          | Some c =>
                            match Enemy.group c with
                            | Some g =>
                              if Game.isHit position direction (THREE.position g)
                              then
                                let '(w2, deaths2) :=
                                  Game.deliver (Game.id enemy) 20 w1 in
                                (w2, deaths ++ deaths2)
                              else (w1, deaths)
                            | None => (w1, deaths)
                            end
                          | None => (w1, deaths)
                          end)
                       es (w1, deaths)))).
  { induction es as [| e es IH]; intros w1 deaths Hw1; [exact Hw1 |].
    cbn [fold_left].
    destruct (Game.findEnemyRef (Game.id e) (Game.scene w)) as [c |];
      [| apply IH; exact Hw1].
    destruct (Enemy.group c) as [g |]; [| apply IH; exact Hw1].
    destruct (Game.isHit position direction (THREE.position g));
      [| apply IH; exact Hw1].
    pose proof (deliver_sound (Game.id e) 20 w1 Hw1) as Hd.
    destruct (Game.deliver (Game.id e) 20 w1) as [w2 deaths2].
    apply IH. exact Hd. }
  specialize (Hfold (Game.enemies w) w [] Hw).
  destruct (fold_left _ (Game.enemies w) (w, [])) as [w1 deaths].
  cbn [fst] in *. apply render_sound. exact Hfold.
Qed.

Lemma enemyFrames_sound (now : Z) (delta : R) (w : Game.World) :
  soundWorld w -> soundWorld (Game.enemyFrames now delta w).
Proof.
  intros [Hst Hs]. unfold Game.enemyFrames, Game.onAttackPlayer.
  cbn [Game.gameState Game.controls Game.playerPos Game.enemies Game.scene].
  split; cbn [Game.gameState Game.scene].
  - apply attacks_sound; [| exact Hst].
    apply Forall_concat. rewrite map_map. apply Forall_map.
    rewrite Forall_forall in Hs. apply Forall_forall. intros c Hc.
    apply useFrame_sound. apply Hs. exact Hc.
  - rewrite map_map. apply Forall_map.
    rewrite Forall_forall in Hs. apply Forall_forall. intros c Hc.
    apply useFrame_sound. apply Hs. exact Hc.
Qed.

Lemma gameStep_sound (ev : GameEvent) (w : Game.World) :
  soundWorld w -> soundWorld (gameStep ev w).
Proof.
  intros Hw. destruct ev; cbn [gameStep].
  - apply enemyFrames_sound. exact Hw.
  - apply handlePlayerAttack_sound. exact Hw.
  - exact Hw.
  - exact Hw.
  - apply render_sound. destruct Hw as [_ Hs]. split; [| exact Hs].
    cbn. unfold soundState. cbn. repeat split; try lra; try discriminate.
  - apply render_sound. unfold Spawn.effect.
    destruct (negb _); [exact Hw |]. destruct (_ =? _)%nat; exact Hw.
  - apply render_sound. exact Hw.
Qed.

(** X17. What every game keeps. Whatever the frames, sword blows, moves,
    controls, restarts and spawns, in whatever order: the player's health
    stays between 0 and 100, the game is active exactly while the health
    is positive, the score is never negative, and no enemy has a negative
    attack power. An enemy attack never raises the health and never
    changes the score. *)
Theorem game_stays_sound :
  (forall (evs : list GameEvent) (w : Game.World),
      soundWorld w -> soundWorld (gameRun evs w))
  /\
  (forall (controls : GameTypes.GameControls) (damage : R)
          (st : GameTypes.GameState),
      0 <= damage ->
      soundState st ->
      GameTypes.playerHealth (Game.handleEnemyAttack controls damage st)
      <= GameTypes.playerHealth st /\
      GameTypes.score (Game.handleEnemyAttack controls damage st)
      = GameTypes.score st).
Proof.
  split.
  - intros evs. induction evs as [| ev evs IH]; intros w Hw; [exact Hw |].
    cbn [gameRun fold_left]. apply IH. apply gameStep_sound. exact Hw.
  - intros controls damage st Hd Hst.
    apply handleEnemyAttack_sound; assumption.
Qed.

Lemma world0_sound : soundWorld world0.
Proof.
  split; [| constructor]. cbn. unfold soundState. cbn.
  repeat split; try lra; try discriminate.
Defined.

Lemma game_stays_sound_witness :
  soundWorld world0 /\
  soundWorld
    (gameRun [SpawnEffect (fun _ => 0.5); EnemyFrames 2000 0.016;
              PlayerAttack (THREE.Vec3 0 0 0) (THREE.Vec3 0 0 1); Restart]
             world0).
Proof.
  split; [exact world0_sound |].
  exact (proj1 game_stays_sound _ world0 world0_sound).
Defined.

(** ** The reach of the sword *)

Lemma cos_attack_arc_pos : 0 < Math.cos (Game.attackAngle / 2).
Proof.
  unfold Math.cos, Game.attackAngle, Math.PI. pose proof PI_RGT_0.
  apply cos_gt_0; lra.
Qed.

Lemma dot_normalize (v d : THREE.Vector3) :
  0 < THREE.length v ->
  THREE.dot (THREE.normalize v) d = THREE.dot v d / THREE.length v.
Proof.
  intros H. rewrite normalize_positive by exact H.
  unfold THREE.dot. cbn [THREE.x THREE.y THREE.z]. field. lra.
Qed.

Lemma length_unit_scaled (d : THREE.Vector3) (t : R) :
  THREE.length d = 1 -> 0 <= t ->
  THREE.length (THREE.multiplyScalar d t) = t.
Proof.
  intros Hd Ht. rewrite length_multiplyScalar by exact Ht. rewrite Hd. lra.
Qed.

(** X18. The reach of the sword. A group is hit only if it is at most 2.5
    from the attack position, not at that very position, and in front of
    it: the component of the vector to the group along [direction] exceeds
    cos(30 degrees) times the distance, so it is positive. For a unit
    [direction], every group straight ahead at a distance in (0, 2.5] is
    hit. *)
Theorem sword_hits_in_range_and_arc_only :
  (forall position direction enemyPosition : THREE.Vector3,
      Game.isHit position direction enemyPosition = true ->
      0 < THREE.distanceTo enemyPosition position <= Game.attackRange /\
      THREE.dot (THREE.sub enemyPosition position) direction
      > Math.cos (Game.attackAngle / 2)
        * THREE.distanceTo enemyPosition position /\
      THREE.dot (THREE.sub enemyPosition position) direction > 0)
  /\
  (forall (position direction : THREE.Vector3) (t : R),
      THREE.length direction = 1 ->
      0 < t <= Game.attackRange ->
      Game.isHit position direction
        (THREE.add position (THREE.multiplyScalar direction t)) = true).
Proof.
  split.
  - intros position direction enemyPosition.
    unfold Game.isHit, THREE.subVectors.
    rewrite (proj2 (distanceTo_length enemyPosition position)).
    set (v := THREE.sub enemyPosition position).
    pose proof (length_nonneg v) as Hlen. pose proof cos_attack_arc_pos as Hc.
    unfold Num.leb, Num.gtb.
    destruct (Rle_dec (THREE.length v) Game.attackRange) as [Hr |];
      [| discriminate].
    destruct (Rgt_dec _ _) as [Hdot |]; [| discriminate]. intros _.
    destruct (Req_dec_T (THREE.length v) 0) as [H0 | H0].
    + rewrite (normalize_zero v H0) in Hdot. unfold THREE.dot in Hdot.
      cbn [THREE.x THREE.y THREE.z] in Hdot. lra.
    + assert (Hpos : 0 < THREE.length v) by lra.
      rewrite (dot_normalize v direction Hpos) in Hdot.
      assert (Hmul : THREE.dot v direction
                     > Math.cos (Game.attackAngle / 2) * THREE.length v).
      { apply Rlt_gt. apply Rgt_lt in Hdot.
        apply (Rmult_lt_compat_r (THREE.length v)) in Hdot; [| exact Hpos].
        replace (THREE.dot v direction / THREE.length v * THREE.length v)
          with (THREE.dot v direction) in Hdot by (field; lra).
        exact Hdot. }
      split; [lra |]. split; [exact Hmul |]. nra.
  - intros position direction t Hd [Ht0 Ht].
    unfold Game.isHit, THREE.subVectors.
    assert (Hv : THREE.sub (THREE.add position (THREE.multiplyScalar direction t))
                           position
                 = THREE.multiplyScalar direction t).
    { unfold THREE.sub, THREE.add, THREE.multiplyScalar.
      cbn [THREE.x THREE.y THREE.z]. f_equal; lra. }
    rewrite Hv.
    pose proof (length_unit_scaled direction t Hd ltac:(lra)) as Hlen.
    rewrite Hlen. rewrite leb_true by exact Ht.
    rewrite dot_normalize by lra. rewrite Hlen.
    apply gtb_true. pose proof cos_attack_arc_lt_1 as Hc.
    assert (H1 : THREE.dot direction direction = 1).
    { unfold THREE.length, Math.sqrt in Hd. unfold THREE.dot.
      apply (f_equal (fun r => r * r)) in Hd.
      rewrite sqrt_sqrt in Hd; [lra |].
      pose proof (Rle_0_sqr (THREE.x direction)).
      pose proof (Rle_0_sqr (THREE.y direction)).
      pose proof (Rle_0_sqr (THREE.z direction)).
      unfold Rsqr in *. lra. }
    replace (THREE.dot (THREE.multiplyScalar direction t) direction / t)
      with (THREE.dot direction direction).
    + lra.
    + unfold THREE.dot, THREE.multiplyScalar. cbn [THREE.x THREE.y THREE.z].
      field. lra.
Qed.

Lemma sword_hits_witness :
  let position := THREE.Vec3 3 0 4 in
  let direction := THREE.Vec3 0 0 1 in
  let enemyPosition :=
    THREE.add position (THREE.multiplyScalar direction 2) in
  THREE.length direction = 1 /\
  0 < 2 <= Game.attackRange /\
  Game.isHit position direction enemyPosition = true /\
  0 < THREE.distanceTo enemyPosition position <= Game.attackRange /\
  THREE.dot (THREE.sub enemyPosition position) direction
  > Math.cos (Game.attackAngle / 2) * THREE.distanceTo enemyPosition position /\
  THREE.dot (THREE.sub enemyPosition position) direction > 0.
Proof.
  intros position direction enemyPosition.
  assert (H1 : THREE.length direction = 1).
  { unfold THREE.length, Math.sqrt. cbn.
    replace (0 * 0 + 0 * 0 + 1 * 1) with 1 by lra. apply sqrt_1. }
  assert (H2 : 0 < 2 <= Game.attackRange) by (unfold Game.attackRange; lra).
  split; [exact H1 |]. split; [exact H2 |].
  split; [exact (proj2 sword_hits_in_range_and_arc_only
                       position direction 2 H1 H2) |].
  exact (proj1 sword_hits_in_range_and_arc_only position direction
               enemyPosition
               (proj2 sword_hits_in_range_and_arc_only
                      position direction 2 H1 H2)).
Defined.

(** ** The attacks of an enemy *)

Lemma applyUpdates_keeps {A : Type} (field : EnemyType.t -> A)
    (us : list Enemy.Updater) (e : EnemyType.t) :
  Forall (fun u => forall prev, field (u prev) = field prev) us ->
  field (React.applyUpdates us e) = field e.
Proof.
  intros H. revert e. induction H as [| u us Hu _ IH]; intros e; [reflexivity |].
  cbn. unfold React.applyUpdates in IH. rewrite IH. apply Hu.
Qed.

Lemma useFrame_type (now : Z) (delta : R)
    (playerPosition : THREE.Vector3) (c : Enemy.Instance) :
  EnemyType.type
    (Enemy.enemy (fst (Enemy.useFrame now delta playerPosition c)))
  = EnemyType.type (Enemy.enemy c).
Proof.
  unfold Enemy.useFrame.
  destruct (Enemy.group c) as [g |]; [| reflexivity].
  destruct (EnemyType.isDead (Enemy.enemy c)); [reflexivity |].
  repeat match goal with
         | |- context [if ?b then _ else _] =>
             match type of b with
             | bool => destruct b
             end
         end;
    cbn [fst Enemy.enemy];
    rewrite (applyUpdates_keeps EnemyType.type);
    try reflexivity; repeat constructor.
Qed.

Lemma useFrame_deer (now : Z) (delta : R)
    (playerPosition : THREE.Vector3) (c : Enemy.Instance) :
  EnemyType.type (Enemy.enemy c) = GameTypes.deer ->
  snd (Enemy.useFrame now delta playerPosition c) = [].
Proof.
  intros Hdeer. unfold Enemy.useFrame. rewrite Hdeer.
  destruct (Enemy.group c) as [g |]; [| reflexivity].
  destruct (EnemyType.isDead (Enemy.enemy c)); [reflexivity |].
  cbn [GameTypes.EnemyKind_eqb negb]. rewrite Bool.andb_false_r.
  destruct (Num.leb _ (EnemyType.detectionRadius _)); reflexivity.
Qed.

(** X19. The attacks of an enemy. Along any run of frames, calls of
    [group.takeDamage] and attack timers of a mounted enemy, every call of
    [onAttackPlayer] carries the attack power of the enemy's kind (10 for a
    wolf, 20 for a bear), whatever damage the enemy has taken; a deer never
    attacks. *)
Theorem enemy_attacks_with_the_power_of_its_kind :
  forall (p : Enemy.Props) (evs : list Enemy.Event),
    Forall (fun attack =>
              snd attack
              = Enemy.stat_attackPower (Enemy.baseStats (Enemy.type p)) /\
              Enemy.type p <> GameTypes.deer)
           (snd (Enemy.run evs (Enemy.mount p)))
    /\
    (Enemy.type p = GameTypes.deer ->
     snd (Enemy.run evs (Enemy.mount p)) = []).
Proof.
  intros p evs.
  assert (Hgen : forall c,
             EnemyType.type (Enemy.enemy c) = Enemy.type p ->
             EnemyType.attackPower (Enemy.enemy c)
             = Enemy.stat_attackPower (Enemy.baseStats (Enemy.type p)) ->
             Enemy.group_takeDamage c
             = Some (Enemy.takeDamage (Enemy.initialState p)) ->
             Forall (fun attack =>
                       snd attack
                       = Enemy.stat_attackPower
                           (Enemy.baseStats (Enemy.type p)) /\
                       Enemy.type p <> GameTypes.deer)
                    (snd (Enemy.run evs c))).
  { induction evs as [| ev evs IH]; intros c Hty Hpow Hf; [constructor |].
    destruct ev as [now delta playerPosition | amount |]; cbn [Enemy.run].
    - pose proof (useFrame_type now delta playerPosition c) as H1.
      pose proof (useFrame_attackPower now delta playerPosition c) as H2.
      pose proof (useFrame_keeps_takeDamage now delta playerPosition c)
        as [H3 _].
      pose proof (useFrame_attack_or_not now delta playerPosition c) as H4.
      pose proof (useFrame_deer now delta playerPosition c) as H5.
      destruct (Enemy.useFrame now delta playerPosition c) as [c1 attacks].
      cbn [fst snd] in *. cbn zeta in H4.
      specialize (IH c1 ltac:(congruence) ltac:(congruence) ltac:(congruence)).
      destruct (Enemy.run evs c1) as [c2 later]. cbn [snd] in *.
      apply Forall_app. split; [| exact IH].
      destruct H4 as [[-> _] | [-> _]]; [constructor |].
      constructor; [| constructor]. cbn. split; [exact Hpow |].
      intros Hdeer. rewrite Hdeer in Hty. specialize (H5 Hty). discriminate.
    - apply IH.
      + unfold Enemy.callTakeDamage. rewrite Hf.
        destruct (Enemy.group c); exact Hty.
      + unfold Enemy.callTakeDamage. rewrite Hf.
        destruct (Enemy.group c); exact Hpow.
      + unfold Enemy.callTakeDamage. rewrite Hf.
        destruct (Enemy.group c); exact Hf.
    - apply IH; [exact Hty | exact Hpow | exact Hf]. }
  specialize (Hgen (Enemy.mount p) eq_refl eq_refl eq_refl).
  split; [exact Hgen |].
  intros Hdeer.
  destruct (snd (Enemy.run evs (Enemy.mount p))) as [| a l]; [reflexivity |].
  inversion Hgen as [| ? ? [_ Hne] _]. contradiction.
Qed.

Lemma enemy_attacks_witness :
  snd (Enemy.run [Enemy.Frame 2000 0.016 (THREE.Vec3 0 0 0)]
         (Enemy.mount (Enemy.mkProps "deer-0" (0, 0, 1) GameTypes.deer)))
  = [].
Proof.
  exact (proj2 (enemy_attacks_with_the_power_of_its_kind
                  (Enemy.mkProps "deer-0" (0, 0, 1) GameTypes.deer)
                  [Enemy.Frame 2000 0.016 (THREE.Vec3 0 0 0)])
               eq_refl).
Defined.

(** X20. Where an enemy stands still. A live, mounted enemy that is not a
    deer and has the player within its attack radius is in state [attack]
    after the frame and its group has neither moved nor turned; an enemy
    with the player beyond both its detection radius and its attack radius
    is [idle] after the frame, has not moved either and makes no attack.
    The [enemy] state takes over the position and heading of the group. *)
Theorem enemy_stands_when_attacking_or_idle :
  forall (now : Z) (delta : R) (playerPosition : THREE.Vector3)
         (c : Enemy.Instance) (g : THREE.Object3D),
    Enemy.group c = Some g ->
    EnemyType.isDead (Enemy.enemy c) = false ->
    let d := THREE.distanceTo
               (GameTypes.Vector3_of (EnemyType.position (Enemy.enemy c)))
               playerPosition in
    let after := fst (Enemy.useFrame now delta playerPosition c) in
    (d <= EnemyType.attackRadius (Enemy.enemy c) ->
     EnemyType.type (Enemy.enemy c) <> GameTypes.deer ->
     Enemy.group after = Some g /\
     EnemyType.aggroState (Enemy.enemy after) = Aggro.attack /\
     EnemyType.position (Enemy.enemy after)
     = GameTypes.Triple_of (THREE.position g))
    /\
    (d > EnemyType.detectionRadius (Enemy.enemy c) ->
     d > EnemyType.attackRadius (Enemy.enemy c) ->
     Enemy.group after = Some g /\
     EnemyType.aggroState (Enemy.enemy after) = Aggro.idle /\
     EnemyType.position (Enemy.enemy after)
     = GameTypes.Triple_of (THREE.position g) /\
     snd (Enemy.useFrame now delta playerPosition c) = [] /\
     Enemy.lastAttackTime after = Enemy.lastAttackTime c).
Proof.
  intros now delta playerPosition c g Hg Hlive d after.
  subst after. unfold Enemy.useFrame. rewrite Hg, Hlive. fold d.
  split.
  - intros Hd Hkind. rewrite leb_true by exact Hd.
    assert (Hk : GameTypes.EnemyKind_eqb (EnemyType.type (Enemy.enemy c))
                                        GameTypes.deer = false).
    { destruct (EnemyType.type (Enemy.enemy c)); try reflexivity.
      contradiction. }
    rewrite Hk. cbn [negb andb].
    destruct (EnemyType.aggroState (Enemy.enemy c)) eqn:Ea;
      destruct (now - Enemy.lastAttackTime c >? Enemy.attackCooldown)%Z;
      cbn; rewrite ?Ea; repeat split.
  - intros Hfar Hfar2. rewrite leb_false by lra. cbn [andb].
    rewrite leb_false by lra.
    destruct (EnemyType.aggroState (Enemy.enemy c)) eqn:Ea;
      cbn; rewrite ?Ea; repeat split.
Qed.

Lemma enemy_stands_witness :
  let c := Enemy.mount (Enemy.mkProps "wolf-0" (0, 0, 1) GameTypes.wolf) in
  let g := THREE.Obj (THREE.Vec3 0 0 1) 0 in
  let near := fst (Enemy.useFrame 2000 0.016 (THREE.Vec3 0 0 0) c) in
  let far := fst (Enemy.useFrame 2000 0.016 (THREE.Vec3 0 0 100) c) in
  (Enemy.group near = Some g /\
   EnemyType.aggroState (Enemy.enemy near) = Aggro.attack /\
   EnemyType.position (Enemy.enemy near)
   = GameTypes.Triple_of (THREE.position g))
  /\
  (Enemy.group far = Some g /\
   EnemyType.aggroState (Enemy.enemy far) = Aggro.idle /\
   EnemyType.position (Enemy.enemy far)
   = GameTypes.Triple_of (THREE.position g) /\
   snd (Enemy.useFrame 2000 0.016 (THREE.Vec3 0 0 100) c) = [] /\
   Enemy.lastAttackTime far = Enemy.lastAttackTime c).
Proof.
  intros c g near far. split.
  - refine (proj1 (enemy_stands_when_attacking_or_idle 2000 0.016
                     (THREE.Vec3 0 0 0) c g eq_refl eq_refl) _ _).
    + cbn. unfold THREE.distanceTo, Math.sqrt. cbn.
      replace ((0 - 0) * (0 - 0) + (0 - 0) * (0 - 0) + (1 - 0) * (1 - 0))
        with 1 by lra.
      rewrite sqrt_1. lra.
    + discriminate.
  - assert (Hd : THREE.distanceTo (THREE.Vec3 0 0 1) (THREE.Vec3 0 0 100) = 99).
    { unfold THREE.distanceTo, Math.sqrt. cbn.
      replace ((0 - 0) * (0 - 0) + (0 - 0) * (0 - 0) + (1 - 100) * (1 - 100))
        with (99 * 99) by lra.
      apply sqrt_square. lra. }
    refine (proj2 (enemy_stands_when_attacking_or_idle 2000 0.016
                     (THREE.Vec3 0 0 100) c g eq_refl eq_refl) _ _).
    + cbn. cbn in Hd. rewrite Hd. lra.
    + cbn. cbn in Hd. rewrite Hd. lra.
Defined.

(** ** Where enemies appear *)

Lemma length_on_circle (angle distance : R) :
  0 <= distance ->
  THREE.length (THREE.Vec3 (Math.cos angle * distance) 0
                           (Math.sin angle * distance))
  = distance.
Proof.
  intros Hd. unfold THREE.length, Math.sqrt, Math.cos, Math.sin.
  cbn [THREE.x THREE.y THREE.z].
  replace (cos angle * distance * (cos angle * distance) + 0 * 0
           + sin angle * distance * (sin angle * distance))
    with (distance * distance).
  - apply sqrt_square. exact Hd.
  - pose proof (sin2_cos2 angle) as H. unfold Rsqr in H. nra.
Qed.

(** X21. Where enemies appear. The initial batch is three wolves, a bear
    and five deer with nine distinct ids, each on the ground inside the
    square from -20 to 20 (for draws of [Math.random] in [0, 1)). A tick of
    the spawn interval appends one enemy and keeps the others: a bear for a
    draw below 0.2, a deer below 0.6, a wolf otherwise, on the ground at a
    distance of 30 to 40 from the origin. The effect makes the batch only
    for an active game with no enemy, so running it again changes
    nothing. *)
Theorem enemies_appear_in_batch_and_ring :
  (forall random : nat -> R,
      map Game.id (Spawn.initialEnemies random)
      = ["wolf-0"; "wolf-1"; "wolf-2"; "bear-1"; "deer-0"; "deer-1";
         "deer-2"; "deer-3"; "deer-4"]%string /\
      NoDup (map Game.id (Spawn.initialEnemies random)) /\
      map Game.type (Spawn.initialEnemies random)
      = [GameTypes.wolf; GameTypes.wolf; GameTypes.wolf; GameTypes.bear;
         GameTypes.deer; GameTypes.deer; GameTypes.deer; GameTypes.deer;
         GameTypes.deer])
  /\
  (forall random : nat -> R,
      (forall n, 0 <= random n < 1) ->
      Forall (fun e =>
                let v := GameTypes.Vector3_of (Game.position e) in
                - 20 <= THREE.x v < 20 /\ THREE.y v = 0 /\
                - 20 <= THREE.z v < 20)
             (Spawn.initialEnemies random))
  /\
  (forall (spawnChance r_angle r_distance : R) (now : Z)
          (prevEnemies : list Game.EnemyEntry),
      0 <= r_distance < 1 ->
      exists e,
        Spawn.spawnEnemy spawnChance r_angle r_distance now prevEnemies
        = prevEnemies ++ [e] /\
        Game.type e
        = (if Rlt_dec spawnChance 0.2 then GameTypes.bear
           else if Rlt_dec spawnChance 0.6 then GameTypes.deer
           else GameTypes.wolf) /\
        Game.id e
        = (Spawn.typeName (Game.type e) ++ "-" ++ JSString.ofZ now)%string /\
        THREE.y (GameTypes.Vector3_of (Game.position e)) = 0 /\
        30 <= THREE.length (GameTypes.Vector3_of (Game.position e)) < 40)
  /\
  (forall (random random' : nat -> R) (w : Game.World),
      Spawn.effect random' (Spawn.effect random w) = Spawn.effect random w).
Proof.
  split; [| split; [| split]].
  - intros random. split; [reflexivity |]. split; [| reflexivity].
    change (map Game.id (Spawn.initialEnemies random))
      with ["wolf-0"; "wolf-1"; "wolf-2"; "bear-1"; "deer-0"; "deer-1";
            "deer-2"; "deer-3"; "deer-4"]%string.
    repeat constructor; cbn; intuition discriminate.
  - intros random Hr. unfold Spawn.initialEnemies, Spawn.scatter.
    cbn [seq map app].
    repeat (apply Forall_cons;
            [cbn [Game.position GameTypes.Vector3_of THREE.x THREE.y THREE.z];
             match goal with
             | |- _ <= (random ?n - _) * _ < _ /\ _ /\
                  _ <= (random ?m - _) * _ < _ =>
               pose proof (Hr n); pose proof (Hr m);
               split; [lra | split; [reflexivity | lra]]
             end |]).
    apply Forall_nil.
  - intros spawnChance r_angle r_distance now prevEnemies Hr.
    unfold Spawn.spawnEnemy. eexists. split; [reflexivity |].
    cbn [Game.type Game.id Game.position GameTypes.Vector3_of THREE.y].
    split; [unfold Num.ltb; split_tests; reflexivity |].
    split; [reflexivity |]. split; [reflexivity |].
    rewrite length_on_circle by lra. lra.
  - intros random random' w. unfold Spawn.effect.
    destruct (negb (GameTypes.isGameActive (Game.gameState w))) eqn:Ea.
    + rewrite Ea. reflexivity.
    + destruct (List.length (Game.enemies w) =? 0)%nat eqn:El.
      * cbn [Game.gameState Game.enemies]. rewrite Ea. reflexivity.
      * rewrite Ea, El. reflexivity.
Qed.

Lemma enemies_appear_witness :
  Forall (fun e =>
            let v := GameTypes.Vector3_of (Game.position e) in
            - 20 <= THREE.x v < 20 /\ THREE.y v = 0 /\ - 20 <= THREE.z v < 20)
         (Spawn.initialEnemies (fun _ => 0.25))
  /\
  exists e,
    Spawn.spawnEnemy 0.1 0.5 0.5 7000 [] = [] ++ [e] /\
    Game.type e
    = (if Rlt_dec 0.1 0.2 then GameTypes.bear
       else if Rlt_dec 0.1 0.6 then GameTypes.deer
       else GameTypes.wolf) /\
    Game.id e
    = (Spawn.typeName (Game.type e) ++ "-" ++ JSString.ofZ 7000)%string /\
    THREE.y (GameTypes.Vector3_of (Game.position e)) = 0 /\
    30 <= THREE.length (GameTypes.Vector3_of (Game.position e)) < 40.
Proof.
  split.
  - apply (proj1 (proj2 enemies_appear_in_batch_and_ring)). intros _. lra.
  - apply (proj1 (proj2 (proj2 enemies_appear_in_batch_and_ring))). lra.
Defined.

(** ** The player *)

Lemma rem_range (a b : R) :
  0 < b ->
  (exists k : Z, Math.rem a b = a - b * IZR k) /\
  (0 <= a -> 0 <= Math.rem a b < b) /\
  (a < 0 -> - b < Math.rem a b <= 0).
Proof.
  intros Hb. unfold Math.rem, Math.truncZ, Math.floorZ, Math.ceilZ.
  split; [eexists; reflexivity |]. split.
  - intros Ha.
    assert (Hq : 0 <= a / b).
    { apply Rmult_le_pos; [exact Ha |]. apply Rlt_le, Rinv_0_lt_compat, Hb. }
    destruct (Rge_dec (a / b) 0) as [_ | H]; [| lra].
    destruct (base_Int_part (a / b)) as [H1 H2].
    assert (Ha' : a = b * (a / b)) by (field; lra).
    split; nra.
  - intros Ha.
    assert (Hq : a / b < 0).
    { pose proof (Rinv_0_lt_compat b Hb) as Hinv. unfold Rdiv. nra. }
    destruct (Rge_dec (a / b) 0) as [H | _]; [lra |].
    destruct (base_Int_part (- (a / b))) as [H1 H2].
    rewrite opp_IZR.
    assert (Ha' : a = b * (a / b)) by (field; lra).
    split; nra.
Qed.

(** The wrap-around of the rotation difference. *)
Lemma rotDiff_wraps (rotDiff : R) :
  let r := Math.rem (rotDiff + Math.PI) (Math.PI * 2) - Math.PI in
  let adjusted := if Rlt_dec r (- Math.PI) then r + Math.PI * 2 else r in
  - Math.PI <= adjusted < Math.PI /\
  exists k : Z, adjusted = rotDiff + Math.PI * 2 * IZR k.
Proof.
  cbn zeta. unfold Math.PI. pose proof PI_RGT_0 as Hpi.
  destruct (rem_range (rotDiff + PI) (PI * 2) ltac:(lra))
    as [[k Hk] [Hpos Hneg]].
  destruct (Rlt_dec _ _) as [Hlt | Hge].
  - split.
    + destruct (Rle_lt_dec 0 (rotDiff + PI)) as [H | H];
        [specialize (Hpos H) | specialize (Hneg H)]; lra.
    + exists (1 - k)%Z. rewrite Hk, minus_IZR. lra.
  - split.
    + destruct (Rle_lt_dec 0 (rotDiff + PI)) as [H | H];
        [specialize (Hpos H) | specialize (Hneg H)]; lra.
    + exists (- k)%Z. rewrite Hk, opp_IZR. lra.
Qed.

Lemma normalize_unit (v : THREE.Vector3) :
  0 < THREE.length v -> THREE.length (THREE.normalize v) = 1.
Proof.
  intros H. unfold THREE.normalize.
  destruct (Req_dec_T (THREE.length v) 0) as [H0 | _]; [lra |].
  unfold THREE.divideScalar. rewrite length_multiplyScalar.
  - field. lra.
  - apply Rlt_le. apply Rdiv_lt_0_compat; lra.
Qed.

Lemma normalize_y0 (v : THREE.Vector3) :
  THREE.y v = 0 -> THREE.y (THREE.normalize v) = 0.
Proof.
  intros H. unfold THREE.normalize, THREE.divideScalar, THREE.multiplyScalar.
  cbn [THREE.y]. rewrite H. lra.
Qed.

Lemma length_sq (v : THREE.Vector3) :
  THREE.length v * THREE.length v
  = THREE.x v * THREE.x v + THREE.y v * THREE.y v + THREE.z v * THREE.z v.
Proof.
  unfold THREE.length, Math.sqrt. apply sqrt_sqrt.
  pose proof (Rle_0_sqr (THREE.x v)). pose proof (Rle_0_sqr (THREE.y v)).
  pose proof (Rle_0_sqr (THREE.z v)). unfold Rsqr in *. lra.
Qed.

Lemma inputDirection_y0 (controls : GameTypes.GameControls)
    (f r : THREE.Vector3) :
  THREE.y f = 0 -> THREE.y r = 0 ->
  THREE.y (Player.inputDirection controls f r) = 0.
Proof.
  intros Hf Hr. unfold Player.inputDirection.
  destruct (GameTypes.moveForward controls), (GameTypes.moveRight controls),
    (GameTypes.moveLeft controls); cbn; rewrite ?Hf, ?Hr; lra.
Qed.

(** The direction the player walks in when there is input: the normalised
    input direction, with 30% of the backward vector mixed in when
    [moveBackward] is held too. *)
Lemma walking_direction_unit (n : THREE.Vector3) (rotation : R)
    (backward : bool) :
  THREE.length n = 1 -> THREE.y n = 0 ->
  let b := THREE.Vec3 (- Math.sin rotation) 0 (- Math.cos rotation) in
  let dir := if backward
             then THREE.normalize (THREE.add n (THREE.multiplyScalar b 0.3))
             else n in
  THREE.length dir = 1 /\ THREE.y dir = 0.
Proof.
  intros Hn Hy. cbn zeta. destruct backward; [| split; assumption].
  set (v := THREE.add n (THREE.multiplyScalar _ 0.3)).
  assert (Hvy : THREE.y v = 0).
  { unfold v. cbn. rewrite Hy. lra. }
  split; [| apply normalize_y0; exact Hvy].
  apply normalize_unit.
  destruct (Rle_lt_or_eq_dec _ _ (length_nonneg v)) as [H | H]; [exact H |].
  exfalso. symmetry in H. apply length_zero_inv in H.
  pose proof (length_sq n) as Hsq. rewrite Hn in Hsq.
  unfold v, THREE.add, THREE.multiplyScalar, Math.sin, Math.cos in H.
  cbn [THREE.x THREE.y THREE.z] in H. injection H as Hx _ Hz.
  pose proof (sin2_cos2 rotation) as Hsc. unfold Rsqr in Hsc.
  rewrite Hy in Hsq. nra.
Qed.

(** A frame of the player with a non-zero input direction. *)
Lemma movement_with_input (controls : GameTypes.GameControls)
    (delta : R) (cam : Player.Camera) (c : Player.Instance)
    (g : THREE.Object3D) :
  Player.inputDirection controls
    (THREE.normalize (THREE.set_y (Player.camera_forward cam) 0))
    (THREE.normalize (THREE.set_y (Player.camera_right cam) 0))
  <> THREE.Vec3 0 0 0 ->
  let result := Player.movement controls delta cam c g in
  let g' := fst (fst (fst (fst result))) in
  let moveDistance := PlayerType.moveSpeed (Player.player c) * delta * 60 in
  exists (dir : THREE.Vector3) (k : Z),
    THREE.length dir = 1 /\ THREE.y dir = 0 /\
    - Math.PI
    <= Math.atan2 (THREE.x dir) (THREE.z dir) - THREE.rotation_y g
       + Math.PI * 2 * IZR k
    < Math.PI /\
    THREE.rotation_y g'
    = THREE.rotation_y g
      + (Math.atan2 (THREE.x dir) (THREE.z dir) - THREE.rotation_y g
         + Math.PI * 2 * IZR k) * 0.15 /\
    THREE.position g'
    = THREE.Vec3
        (Math.max (- 50)
           (Math.min 50 (THREE.x (THREE.position g)
                         + THREE.x dir * moveDistance)))
        (THREE.y (THREE.position g))
        (Math.max (- 50)
           (Math.min 50 (THREE.z (THREE.position g)
                         + THREE.z dir * moveDistance))) /\
    snd (fst result)
    = THREE.Vec3 (Math.sin (THREE.rotation_y g')) 0
                 (Math.cos (THREE.rotation_y g')) /\
    snd result = [THREE.position g'].
Proof.
  intros Hdir. cbn zeta. unfold Player.movement.
  set (f := THREE.normalize (THREE.set_y (Player.camera_forward cam) 0)) in *.
  set (r := THREE.normalize (THREE.set_y (Player.camera_right cam) 0)) in *.
  set (d := Player.inputDirection controls f r) in *.
  assert (Hlen : 0 < THREE.length d).
  { destruct (Rle_lt_or_eq_dec _ _ (length_nonneg d)) as [H | H]; [exact H |].
    symmetry in H. apply length_zero_inv in H. contradiction. }
  assert (Hdy : THREE.y d = 0).
  { apply inputDirection_y0; apply normalize_y0; reflexivity. }
  rewrite eqb_false by lra. rewrite andb_false_r.
  rewrite gtb_true by lra.
  destruct (walking_direction_unit (THREE.normalize d) (THREE.rotation_y g)
              (GameTypes.moveBackward controls)
              (normalize_unit d Hlen) (normalize_y0 d Hdy)) as [Hu Hy].
  cbn zeta in Hu, Hy.
  unfold Player.backwardVector.
  set (dir := if GameTypes.moveBackward controls then _ else _) in *.
  destruct (rotDiff_wraps
              (Math.atan2 (THREE.x dir) (THREE.z dir) - THREE.rotation_y g))
    as [Hrange [k Hk]].
  cbn zeta in Hrange, Hk.
  exists dir, k.
  split; [exact Hu |]. split; [exact Hy |].
  rewrite <- Hk. split; [exact Hrange |].
  cbn [fst snd THREE.position THREE.rotation_y THREE.set_position
       THREE.set_rotation_y THREE.x THREE.y THREE.z].
  unfold Player.boundaryLimit.
  repeat split.
Qed.



Lemma sqrt_le_of_sq (s a : R) : 0 <= a -> s <= a * a -> sqrt s <= a.
Proof.
  intros Ha Hs. rewrite <- (sqrt_square a Ha). apply sqrt_le_1_alt. exact Hs.
Qed.

Lemma clamp_step (x a : R) :
  - 50 <= x <= 50 ->
  (Math.max (- 50) (Math.min 50 (x + a)) - x)
  * (Math.max (- 50) (Math.min 50 (x + a)) - x) <= a * a.
Proof. intros Hx. split_minmax; nra. Qed.

Lemma movement_step_bounded (controls : GameTypes.GameControls) (delta : R)
    (cam : Player.Camera) (c : Player.Instance) (g : THREE.Object3D) :
  0 <= PlayerType.moveSpeed (Player.player c) * delta * 60 ->
  - 50 <= THREE.x (THREE.position g) <= 50 ->
  - 50 <= THREE.z (THREE.position g) <= 50 ->
  let g' := fst (fst (fst (fst (Player.movement controls delta cam c g)))) in
  THREE.y (THREE.position g') = THREE.y (THREE.position g) /\
  THREE.distanceTo (THREE.position g') (THREE.position g)
  <= PlayerType.moveSpeed (Player.player c) * delta * 60.
Proof.
  intros Hm Hx Hz. cbn zeta.
  set (m := PlayerType.moveSpeed (Player.player c) * delta * 60) in *.
  set (d := Player.inputDirection controls
              (THREE.normalize (THREE.set_y (Player.camera_forward cam) 0))
              (THREE.normalize (THREE.set_y (Player.camera_right cam) 0))).
  destruct (Req_dec_T (THREE.length d) 0) as [H0 | H0].
  - unfold Player.movement. fold d. fold m.
    rewrite H0, eqb_true by reflexivity. rewrite andb_true_r.
    destruct (GameTypes.moveBackward controls).
    + cbn [fst THREE.position THREE.set_position THREE.x THREE.y THREE.z
           Player.backwardVector].
      split; [reflexivity |].
      unfold THREE.distanceTo, Math.sqrt, Math.sin, Math.cos.
      cbn [THREE.x THREE.y THREE.z].
      apply sqrt_le_of_sq; [exact Hm |].
      pose proof (sin2_cos2 (THREE.rotation_y g)) as H. unfold Rsqr in H.
      nra.
    + rewrite gtb_false by lra.
      assert (Hsame : THREE.distanceTo (THREE.position g) (THREE.position g)
                      <= m).
      { unfold THREE.distanceTo, Math.sqrt.
        apply sqrt_le_of_sq; [exact Hm | nra]. }
      destruct (PlayerType.isMoving (Player.player c));
        cbn [fst]; split; try reflexivity; exact Hsame.
  - assert (Hd : d <> THREE.Vec3 0 0 0).
    { intros Hzero. apply H0. rewrite Hzero. apply length_zero. }
    destruct (movement_with_input controls delta cam c g Hd)
      as [dir [k [Hu [Hy [_ [_ [Hpos _]]]]]]].
    cbn zeta in Hpos. fold m in Hpos. rewrite Hpos.
    cbn [THREE.y]. split; [reflexivity |].
    unfold THREE.distanceTo, Math.sqrt. cbn [THREE.x THREE.y THREE.z].
    apply sqrt_le_of_sq; [exact Hm |].
    pose proof (clamp_step (THREE.x (THREE.position g)) (THREE.x dir * m) Hx)
      as Hcx.
    pose proof (clamp_step (THREE.z (THREE.position g)) (THREE.z dir * m) Hz)
      as Hcz.
    pose proof (length_sq dir) as Hsq. rewrite Hu, Hy in Hsq.
    nra.
Qed.

(** X23. The length of a step. For a player inside the square of side 100
    and a non-negative move distance moveSpeed * delta * 60, the group
    after a frame is at most the move distance from where it was, at the
    same height, whatever the keys and the camera; with no movement key
    held it stays where it is and does not turn. *)
Theorem player_step_is_at_most_the_move_distance :
  (forall (controls : GameTypes.GameControls) (delta : R)
          (cam : Player.Camera) (c : Player.Instance) (g : THREE.Object3D),
      Player.group c = Some g ->
      0 <= PlayerType.moveSpeed (Player.player c) * delta * 60 ->
      - 50 <= THREE.x (THREE.position g) <= 50 ->
      - 50 <= THREE.z (THREE.position g) <= 50 ->
      exists g',
        Player.group (fst (Player.useFrame controls delta cam c)) = Some g' /\
        THREE.y (THREE.position g') = THREE.y (THREE.position g) /\
        THREE.distanceTo (THREE.position g') (THREE.position g)
        <= PlayerType.moveSpeed (Player.player c) * delta * 60)
  /\
  (forall (attack block : bool) (delta : R) (cam : Player.Camera)
          (c : Player.Instance) (g : THREE.Object3D),
      Player.group c = Some g ->
      Player.group
        (fst (Player.useFrame
                (GameTypes.mkGameControls false false false false attack block)
                delta cam c))
      = Some g).
Proof.
  split.
  - intros controls delta cam c g Hg Hm Hx Hz.
    eexists. split; [apply useFrame_group; exact Hg |].
    apply movement_step_bounded; assumption.
  - intros attack block delta cam c g Hg.
    rewrite (useFrame_group _ delta cam c g Hg). f_equal.
    unfold Player.movement.
    cbn [Player.inputDirection GameTypes.moveForward GameTypes.moveRight
         GameTypes.moveLeft GameTypes.moveBackward andb].
    rewrite length_zero, gtb_false by lra.
    destruct (PlayerType.isMoving (Player.player c)); reflexivity.
Qed.

Lemma player_step_witness :
  let controls := GameTypes.mkGameControls true false false true false false in
  let cam := Player.mkCamera (THREE.Vec3 0 1.5 (- 5)) (THREE.Vec3 0 0 (- 1))
                             (THREE.Vec3 1 0 0) in
  let g := THREE.Obj (THREE.Vec3 0 0 0) 0 in
  exists g',
    Player.group (fst (Player.useFrame controls 0.016 cam Player.mount))
    = Some g' /\
    THREE.y (THREE.position g') = THREE.y (THREE.position g) /\
    THREE.distanceTo (THREE.position g') (THREE.position g)
    <= PlayerType.moveSpeed (Player.player Player.mount) * 0.016 * 60.
Proof.
  refine (proj1 player_step_is_at_most_the_move_distance
            (GameTypes.mkGameControls true false false true false false)
            0.016
            (Player.mkCamera (THREE.Vec3 0 1.5 (- 5)) (THREE.Vec3 0 0 (- 1))
                             (THREE.Vec3 1 0 0))
            Player.mount (THREE.Obj (THREE.Vec3 0 0 0) 0)
            eq_refl _ _ _); cbn; lra.
Defined.

(** *** Sword blows *)

Lemma applyUpdates_snoc {S : Type} (us : list (S -> S)) (u : S -> S) (s : S) :
  React.applyUpdates (us ++ [u]) s = u (React.applyUpdates us s).
Proof. unfold React.applyUpdates. rewrite fold_left_app. reflexivity. Qed.

Lemma applyUpdates_player_keeps {A : Type} (field : PlayerType.t -> A)
    (us : list (PlayerType.t -> PlayerType.t)) (p : PlayerType.t) :
  Forall (fun u => forall prev, field (u prev) = field prev) us ->
  field (React.applyUpdates us p) = field p.
Proof.
  intros H. revert p. induction H as [| u us Hu _ IH]; intros p; [reflexivity |].
  cbn. unfold React.applyUpdates in IH. rewrite IH. apply Hu.
Qed.

Lemma movement_updates_keep_isAttacking (controls : GameTypes.GameControls)
    (delta : R) (cam : Player.Camera) (c : Player.Instance)
    (g : THREE.Object3D) :
  Forall (fun u => forall prev,
              PlayerType.isAttacking (u prev) = PlayerType.isAttacking prev)
         (snd (fst (fst (fst (Player.movement controls delta cam c g))))).
Proof.
  unfold Player.movement.
  destruct (_ && _); [repeat constructor |].
  destruct (Num.gtb _ _); [repeat constructor |].
  destruct (PlayerType.isMoving _); repeat constructor.
Qed.

Lemma movement_direction (controls : GameTypes.GameControls)
    (delta : R) (cam : Player.Camera) (c : Player.Instance)
    (g : THREE.Object3D) :
  snd (fst (Player.movement controls delta cam c g)) = Player.playerDirection c
  \/ exists r,
      snd (fst (Player.movement controls delta cam c g))
      = THREE.Vec3 (Math.sin r) 0 (Math.cos r).
Proof.
  unfold Player.movement.
  destruct (_ && _); [left; reflexivity |].
  destruct (Num.gtb _ _); [right; eexists; reflexivity |].
  destruct (PlayerType.isMoving _); left; reflexivity.
Qed.

Lemma heading_vector_unit (r : R) :
  THREE.length (THREE.Vec3 (Math.sin r) 0 (Math.cos r)) = 1.
Proof.
  unfold THREE.length, Math.sqrt, Math.sin, Math.cos.
  cbn [THREE.x THREE.y THREE.z].
  replace (sin r * sin r + 0 * 0 + cos r * cos r) with 1; [apply sqrt_1 |].
  pose proof (sin2_cos2 r) as H. unfold Rsqr in H. lra.
Qed.

(** What a frame of the player does about the attack. *)
Lemma useFrame_attack (controls : GameTypes.GameControls) (delta : R)
    (cam : Player.Camera) (c : Player.Instance) :
  let result := Player.useFrame controls delta cam c in
  let calls := Player.onAttack_calls (snd result) in
  (calls = [] /\
   PlayerType.isAttacking (Player.player (fst result))
   = PlayerType.isAttacking (Player.player c))
  \/
  (calls
   = [(GameTypes.Vector3_of (PlayerType.position (Player.player c)),
       Player.playerDirection (fst result))] /\
   GameTypes.attack controls = true /\
   PlayerType.isAttacking (Player.player c) = false /\
   PlayerType.isBlocking (Player.player c) = false /\
   PlayerType.isAttacking (Player.player (fst result)) = true).
Proof.
  cbn zeta. unfold Player.useFrame.
  destruct (Player.group c) as [g |]; [| left; split; reflexivity].
  pose proof (movement_updates_keep_isAttacking controls delta cam c g) as Hus.
  destruct (Player.movement controls delta cam c g)
    as [[[[g1 us] animation] direction] moved].
  cbn [fst snd] in Hus.
  destruct (GameTypes.attack controls);
    destruct (PlayerType.isAttacking (Player.player c)) eqn:Ea;
    destruct (PlayerType.isBlocking (Player.player c)) eqn:Eb;
    destruct (GameTypes.block controls);
    cbn [andb negb fst snd Player.onAttack_calls Player.player
         Player.playerDirection];
    try (left; split; [reflexivity |];
         rewrite ?applyUpdates_snoc; cbn [PlayerType.isAttacking
                                            PlayerType.with_isBlocking];
         rewrite (applyUpdates_player_keeps PlayerType.isAttacking) by exact Hus;
         exact Ea);
    right; repeat split;
    rewrite ?applyUpdates_snoc; reflexivity.
Qed.

Lemma useFrame_direction_unit (controls : GameTypes.GameControls) (delta : R)
    (cam : Player.Camera) (c : Player.Instance) :
  THREE.length (Player.playerDirection c) = 1 ->
  THREE.length
    (Player.playerDirection (fst (Player.useFrame controls delta cam c))) = 1.
Proof.
  intros Hu. unfold Player.useFrame.
  destruct (Player.group c) as [g |]; [| exact Hu].
  pose proof (movement_direction controls delta cam c g) as Hd.
  destruct (Player.movement controls delta cam c g)
    as [[[[g1 us] animation] direction] moved].
  cbn [fst snd] in Hd.
  assert (Hdir : THREE.length direction = 1).
  { destruct Hd as [-> | [r ->]]; [exact Hu | apply heading_vector_unit]. }
  repeat match goal with
         | |- context [if ?b then _ else _] => destruct b
         end; exact Hdir.
Qed.

(** X24. Sword blows. A frame calls [onAttack] at most once, and only when
    the attack button is held while the player is neither attacking nor
    blocking; the call passes the position of the [player] state and the
    [playerDirection] of the frame, a unit vector (it starts as (0, 0, 1)
    and every frame keeps it one). The frame marks the player as attacking,
    and no frame clears the mark: until the attack timer fires, however
    many frames pass and whatever the controls, there is no second blow. *)
Theorem one_sword_blow_until_the_timer :
  (forall (fs : list (GameTypes.GameControls * R * Player.Camera))
          (c : Player.Instance),
      (List.length (snd (playerFrames fs c)) <= 1)%nat /\
      (PlayerType.isAttacking (Player.player c) = true ->
       snd (playerFrames fs c) = []))
  /\
  (forall (controls : GameTypes.GameControls) (delta : R)
          (cam : Player.Camera) (c : Player.Instance),
      THREE.length (Player.playerDirection c) = 1 ->
      let result := Player.useFrame controls delta cam c in
      THREE.length (Player.playerDirection (fst result)) = 1 /\
      Forall (fun call =>
                fst call
                = GameTypes.Vector3_of (PlayerType.position (Player.player c))
                /\ THREE.length (snd call) = 1 /\
                GameTypes.attack controls = true /\
                PlayerType.isAttacking (Player.player c) = false /\
                PlayerType.isBlocking (Player.player c) = false)
             (Player.onAttack_calls (snd result)))
  /\
  THREE.length (Player.playerDirection Player.mount) = 1 /\
  (forall (snapshot : PlayerType.t) (c : Player.Instance),
      PlayerType.isAttacking (Player.player (Player.attackEnd snapshot c))
      = false).
Proof.
  split; [| split; [| split]].
  - assert (Hquiet : forall fs c,
               PlayerType.isAttacking (Player.player c) = true ->
               snd (playerFrames fs c) = []).
    { induction fs as [| [[controls delta] cam] fs IH]; intros c Ha;
        [reflexivity |].
      cbn [playerFrames].
      pose proof (useFrame_attack controls delta cam c) as H. cbn zeta in H.
      destruct (Player.useFrame controls delta cam c) as [c1 effects].
      cbn [fst snd] in H. specialize (IH c1).
      destruct (playerFrames fs c1) as [c2 later]. cbn [snd] in *.
      destruct H as [[-> H1] | [_ [_ [H1 _]]]]; [| congruence].
      apply IH. congruence. }
    intros fs c. split; [| apply Hquiet].
    revert c. induction fs as [| [[controls delta] cam] fs IH]; intros c;
      [cbn; lia |].
    cbn [playerFrames].
    pose proof (useFrame_attack controls delta cam c) as H. cbn zeta in H.
    destruct (Player.useFrame controls delta cam c) as [c1 effects].
    cbn [fst snd] in H. specialize (IH c1).
    pose proof (Hquiet fs c1) as Hq.
    destruct (playerFrames fs c1) as [c2 later]. cbn [snd] in *.
    destruct H as [[-> _] | [-> [_ [_ [_ H1]]]]]; [exact IH |].
    rewrite (Hq H1). cbn. lia.
  - intros controls delta cam c Hu. cbn zeta.
    pose proof (useFrame_direction_unit controls delta cam c Hu) as Hd.
    split; [exact Hd |].
    destruct (useFrame_attack controls delta cam c)
      as [[H _] | [H [H1 [H2 [H3 _]]]]]; cbn zeta in H; rewrite H;
      [constructor |].
    constructor; [| constructor]. cbn [fst snd]. tauto.
  - unfold THREE.length, Math.sqrt. cbn.
    replace (0 * 0 + 0 * 0 + 1 * 1) with 1 by lra. apply sqrt_1.
  - reflexivity.
Qed.

Lemma one_sword_blow_witness :
  let c := Player.attackEnd Player.player0 Player.mount in
  let held := GameTypes.mkGameControls false false false false true false in
  let cam := Player.mkCamera (THREE.Vec3 0 1.5 (- 5)) (THREE.Vec3 0 0 (- 1))
                             (THREE.Vec3 1 0 0) in
  THREE.length (Player.playerDirection c) = 1 /\
  THREE.length
    (Player.playerDirection (fst (Player.useFrame held 0.016 cam c))) = 1 /\
  Forall (fun call =>
            fst call
            = GameTypes.Vector3_of (PlayerType.position (Player.player c))
            /\ THREE.length (snd call) = 1 /\
            GameTypes.attack held = true /\
            PlayerType.isAttacking (Player.player c) = false /\
            PlayerType.isBlocking (Player.player c) = false)
         (Player.onAttack_calls (snd (Player.useFrame held 0.016 cam c))) /\
  snd (playerFrames [(held, 0.016, cam); (held, 0.016, cam)]
         (fst (Player.useFrame held 0.016 cam c))) = [].
Proof.
  intros c held cam.
  assert (Hu : THREE.length (Player.playerDirection c) = 1)
    by exact (proj1 (proj2 (proj2 one_sword_blow_until_the_timer))).
  split; [exact Hu |].
  split; [exact (proj1 (proj1 (proj2 one_sword_blow_until_the_timer)
                          held 0.016 cam c Hu)) |].
  split; [exact (proj2 (proj1 (proj2 one_sword_blow_until_the_timer)
                          held 0.016 cam c Hu)) |].
  refine (proj2 (proj1 one_sword_blow_until_the_timer _ _) _).
  unfold Player.useFrame, c. cbn [Player.group Player.attackEnd Player.mount].
  destruct (Player.movement held 0.016 cam _ _)
    as [[[[g1 us] animation] direction] moved] eqn:E.
  unfold Player.movement in E.
  cbn [Player.inputDirection GameTypes.moveForward GameTypes.moveRight
       GameTypes.moveLeft GameTypes.moveBackward andb held] in E.
  rewrite length_zero, gtb_false in E by lra.
  cbn in E. injection E as <- <- <- <- <-.
  reflexivity.
Defined.

(** ** The scene follows the collection of enemies *)

Lemma mounted_spec (key : string) (s : list Enemy.Instance) :
  Game.mounted key s = true
  <-> exists c, In c s /\ Enemy.id (Enemy.props c) = key.
Proof.
  unfold Game.mounted. rewrite existsb_exists.
  split; intros [c [Hc H]]; exists c; (split; [exact Hc |]);
    apply String.eqb_eq; exact H.
Qed.

Lemma listed_spec (c : Enemy.Instance) (es : list Game.EnemyEntry) :
  existsb (fun e => String.eqb (Game.id e) (Enemy.id (Enemy.props c))) es
  = true
  <-> exists e, In e es /\ Game.id e = Enemy.id (Enemy.props c).
Proof.
  rewrite existsb_exists.
  split; intros [e [He H]]; exists e; (split; [exact He |]);
    apply String.eqb_eq; exact H.
Qed.

Lemma filter_all {A : Type} (f : A -> bool) (l : list A) :
  (forall a, In a l -> f a = true) -> filter f l = l.
Proof.
  induction l as [| a l IH]; intros H; [reflexivity |].
  cbn. rewrite (H a (or_introl eq_refl)). f_equal.
  apply IH. intros b Hb. apply H. right. exact Hb.
Qed.

Lemma filter_none {A : Type} (f : A -> bool) (l : list A) :
  (forall a, In a l -> f a = false) -> filter f l = [].
Proof.
  induction l as [| a l IH]; intros H; [reflexivity |].
  cbn. rewrite (H a (or_introl eq_refl)).
  apply IH. intros b Hb. apply H. right. exact Hb.
Qed.

Lemma render_mounts_all (w : Game.World) (e : Game.EnemyEntry) :
  In e (Game.enemies w) ->
  Game.mounted (Game.id e) (Game.scene (Game.render w)) = true.
Proof.
  intros He. apply mounted_spec. cbn [Game.render Game.scene].
  destruct (Game.mounted (Game.id e) (Game.scene w)) eqn:Em.
  - apply mounted_spec in Em. destruct Em as [c [Hc Hid]].
    exists c. split; [| exact Hid]. apply in_or_app. left.
    apply filter_In. split; [exact Hc |].
    apply listed_spec. exists e. split; [exact He | congruence].
  - exists (Enemy.mount (Enemy.mkProps (Game.id e) (Game.position e)
                                       (Game.type e))).
    split; [| reflexivity]. apply in_or_app. right.
    apply in_map_iff. exists e. split; [reflexivity |].
    apply filter_In. split; [exact He |]. rewrite Em. reflexivity.
Qed.

Lemma render_only_listed (w : Game.World) (c : Enemy.Instance) :
  In c (Game.scene (Game.render w)) ->
  exists e, In e (Game.enemies w) /\ Game.id e = Enemy.id (Enemy.props c).
Proof.
  cbn [Game.render Game.scene]. intros Hc. apply in_app_or in Hc.
  destruct Hc as [Hc | Hc].
  - apply filter_In in Hc. apply listed_spec. tauto.
  - apply in_map_iff in Hc. destruct Hc as [e [<- He]].
    apply filter_In in He. exists e. split; [tauto | reflexivity].
Qed.

(** X25. The scene follows the collection. After a render every entry of
    [enemies] has a mounted component and every mounted component belongs
    to an entry; a component that was mounted and is still listed is kept
    as it is, with the state it has; rendering again changes nothing. After
    [handleRestart] and its render no enemy is left, listed or mounted, and
    the game state is the initial one. *)
Theorem scene_follows_the_collection :
  forall w : Game.World,
    (forall e, In e (Game.enemies w) ->
               Game.mounted (Game.id e) (Game.scene (Game.render w)) = true)
    /\
    (forall c, In c (Game.scene (Game.render w)) ->
               exists e, In e (Game.enemies w) /\
                         Game.id e = Enemy.id (Enemy.props c))
    /\
    (forall c e, In c (Game.scene w) -> In e (Game.enemies w) ->
                 Game.id e = Enemy.id (Enemy.props c) ->
                 In c (Game.scene (Game.render w)))
    /\
    Game.render (Game.render w) = Game.render w
    /\
    (Game.enemies (Game.render (Game.handleRestart w)) = [] /\
     Game.scene (Game.render (Game.handleRestart w)) = [] /\
     Game.gameState (Game.render (Game.handleRestart w)) = Game.gameState0).
Proof.
  intros w. split; [| split; [| split; [| split]]].
  - intros e. apply render_mounts_all.
  - intros c. apply render_only_listed.
  - intros c e Hc He Hid. cbn [Game.render Game.scene].
    apply in_or_app. left. apply filter_In. split; [exact Hc |].
    apply listed_spec. exists e. split; assumption.
  - set (w1 := Game.render w).
    unfold Game.render at 1.
    rewrite (filter_all _ (Game.scene w1)).
    + rewrite (filter_none _ (Game.enemies w1)).
      * cbn [map]. rewrite app_nil_r. destruct w1; reflexivity.
      * intros e He. change (Game.enemies w1) with (Game.enemies w) in He.
        unfold w1. rewrite (render_mounts_all w e He). reflexivity.
    + intros c Hc. apply listed_spec.
      change (Game.enemies w1) with (Game.enemies w).
      apply render_only_listed. exact Hc.
  - cbn [Game.render Game.handleRestart Game.enemies Game.scene Game.gameState
         filter map].
    split; [reflexivity |]. split; [| reflexivity].
    rewrite app_nil_r. apply filter_none. intros c _. reflexivity.
Qed.

Lemma scene_follows_witness :
  let w := wolf_world (Enemy.initialState wolf_props) Game.gameState0 in
  In (Game.mkEntry "wolf-0" GameTypes.wolf (0, 0, 1)) (Game.enemies w) /\
  Game.mounted "wolf-0" (Game.scene (Game.render w)) = true /\
  In (Enemy.rerender (Enemy.mount wolf_props) (Enemy.initialState wolf_props))
     (Game.scene (Game.render w)).
Proof.
  intros w.
  assert (He : In (Game.mkEntry "wolf-0" GameTypes.wolf (0, 0, 1))
                  (Game.enemies w)) by (left; reflexivity).
  split; [exact He |]. split.
  - exact (proj1 (scene_follows_the_collection w) _ He).
  - exact (proj1 (proj2 (proj2 (scene_follows_the_collection w)))
             (Enemy.rerender (Enemy.mount wolf_props)
                             (Enemy.initialState wolf_props))
             (Game.mkEntry "wolf-0" GameTypes.wolf (0, 0, 1))
             (or_introl eq_refl) He eq_refl).
Defined.
